(** * tail: forward display and follow mode (forward.c)

    A shallow embedding of [forward], [rlines], [show] and [follow] from
    src.freebsd/coreutils/tail/forward.c.  Streams, the standard output and
    the answers of the operating system are explicit state; every C loop is
    a fixpoint over a bound derived from the data it walks.

    A second part embeds [first_wday_of], [_strptime] and [strptime_bsd]
    from src.freebsd/compat/strptime.c, with the C library and the locale
    as parameters. *)

From Stdlib Require Import Strings.String Strings.Ascii Strings.Byte.
From Stdlib Require Import ZArith List Lia Bool.
Import ListNotations.
Open Scope Z_scope.

(** ** Data *)

(** An [off_t] is a [Z].  On offsets and sizes of files the arithmetic of
    forward.c ([off--], [-off], [size - 2], [curoff + 1]) stays within 64
    bits, so no wrap-around is written out; the conversion of an [off_t]
    to the [int] index of rlines is. *)

(** [enum STYLE] of extern.h; [forward] switches on the four offset styles
    and leaves every other value to its [default] branch. *)
Inductive STYLE := NOTSET | FBYTES | FLINES | RBYTES | RLINES | REVERSE.

(** The fields of [struct stat] that forward.c reads. [st_isreg] is
    [S_ISREG(st_mode)]. *)
Record stat := {
  st_isreg : bool;
  st_size : Z;
  st_ino : Z;
  st_dev : Z;
  st_nlink : Z
}.

(** A stdio input stream.  [data] is the content of the underlying file,
    [pos] the stream position.  [rd_fault] and [seek_ok] are the answers of
    the operating system: reads at or beyond offset [p] fail when
    [rd_fault = Some p], and seeks fail when [seek_ok] is false.  [f_eof]
    and [f_err] are the end-of-file and error indicators. *)
Record FILE := {
  fileno : Z;
  data : list byte;
  pos : Z;
  rd_fault : option Z;
  seek_ok : bool;
  f_eof : bool;
  f_err : bool
}.

Definition STDIN_FILENO : Z := 0.

(** [file_info_t] of extern.h: [fp] is [None] for a NULL stream. *)
Record file_info := {
  fp : option FILE;
  file_name : string;
  st : stat
}.

(** [struct mapinfo] of extern.h.  [start] is [None] for NULL, otherwise the
    bytes of the mapped window. *)
Record mapinfo := {
  start : option (list byte);
  mapoff : Z;
  maxoff : Z;
  maplen : Z;
  map_fd : Z
}.

(** What the process does to the outside, in order. *)
Inductive event :=
| Put (b : byte)                       (* putchar(ch) accepted the byte *)
| Flush                                (* fflush(stdout) *)
| Header (fn : string) (print_nl : bool) (* printfn(fn, print_nl) *)
| Ierr (fn : string)                   (* ierr(fn) *)
| WriteRange (bs : list byte)          (* bytes written by mapprint *)
| Closed (fd : Z)                      (* fclose *)
| Sleep.                               (* usleep(250000) *)

(** Process-wide state: the trace on the standard output, the static
    pointer [last] (an index into the [files] array, [None] for NULL),
    the window currently mapped by [rlines] as [(mapoff, maplen)], and the
    answers of the operating system to writes and to munmap.
    [wr_budget = Some n] lets [n] more bytes through before putchar
    fails; [None] never fails. *)
Record world := {
  out : list event;
  last : option Z;
  view : option (Z * Z);
  wr_budget : option nat;
  munmap_ok : bool
}.

(** How a run stops other than by returning. *)
Inductive halt :=
| Oerr      (* oerr(): the standard output is gone *)
| Exit1     (* exit(1) in rlines *)
| Fault.    (* outside the C semantics: invalid access or unbounded loop *)

Inductive outcome (A : Type) :=
| Done (a : A) (w : world)
| Halt (h : halt) (w : world).
Arguments Done {A} a w.
Arguments Halt {A} h w.

Definition M (A : Type) : Type := world -> outcome A.

Definition ret {A} (a : A) : M A := fun w => Done a w.

Definition bind {A B} (c : M A) (k : A -> M B) : M B :=
  fun w => match c w with
           | Done a w' => k a w'
           | Halt h w' => Halt h w'
           end.

Definition stop {A} (h : halt) : M A := fun w => Halt h w.

Declare Scope tail_scope.
Delimit Scope tail_scope with tail.
Notation "x <- c ;; k" := (bind c (fun x => k))
  (at level 61, c at next level, right associativity) : tail_scope.
Notation "c ;;; k" := (bind c (fun _ => k))
  (at level 61, right associativity) : tail_scope.
Open Scope tail_scope.

Definition emit (e : event) : M unit :=
  fun w => Done tt {| out := out w ++ [e]; last := last w; view := view w;
                      wr_budget := wr_budget w; munmap_ok := munmap_ok w |}.

Definition get_last : M (option Z) := fun w => Done (last w) w.

Definition set_last (l : option Z) : M unit :=
  fun w => Done tt {| out := out w; last := l; view := view w;
                      wr_budget := wr_budget w; munmap_ok := munmap_ok w |}.

Definition set_view (v : option (Z * Z)) : M unit :=
  fun w => Done tt {| out := out w; last := last w; view := v;
                      wr_budget := wr_budget w; munmap_ok := munmap_ok w |}.

(** ** stdio *)

Definition len (bs : list byte) : Z := Z.of_nat (length bs).

Definition with_pos (f : FILE) (p : Z) (eof err : bool) : FILE :=
  {| fileno := fileno f; data := data f; pos := p; rd_fault := rd_fault f;
     seek_ok := seek_ok f; f_eof := eof; f_err := err |}.

Definition faulty (f : FILE) : bool :=
  match rd_fault f with
  | Some p => p <=? pos f
  | None => false
  end.

(** [getc]: [None] is EOF.  The end-of-file indicator is sticky, as ISO C
    has it: once set, reads return EOF until clearerr or a seek. *)
Definition getc (f : FILE) : option byte * FILE :=
  if f_eof f then (None, f)
  else if faulty f then (None, with_pos f (pos f) (f_eof f) true)
  else if pos f <? 0 then (None, with_pos f (pos f) true (f_err f))
  else match nth_error (data f) (Z.to_nat (pos f)) with
       | Some b => (Some b, with_pos f (pos f + 1) (f_eof f) (f_err f))
       | None => (None, with_pos f (pos f) true (f_err f))
       end.

Definition ferror (f : FILE) : bool := f_err f.

Definition clearerr (f : FILE) : FILE := with_pos f (pos f) false false.

Inductive whence := SEEK_SET | SEEK_END.

(** [fseeko]: [None] is -1.  A successful seek clears the end-of-file
    indicator. *)
Definition fseeko (f : FILE) (off : Z) (wh : whence) : option FILE :=
  let target := match wh with
                | SEEK_SET => off
                | SEEK_END => len (data f) + off
                end in
  if seek_ok f && (0 <=? target) then Some (with_pos f target false (f_err f))
  else None.

(** [putchar]: [false] is EOF. *)
Definition putchar (b : byte) : M bool :=
  fun w => match wr_budget w with
           | Some O => Done false w
           | Some (S n) =>
               Done true {| out := out w ++ [Put b]; last := last w; view := view w;
                            wr_budget := Some n; munmap_ok := munmap_ok w |}
           | None =>
               Done true {| out := out w ++ [Put b]; last := last w; view := view w;
                            wr_budget := None; munmap_ok := munmap_ok w |}
           end.

Definition fflush : M unit := emit Flush.

Definition fclose (f : FILE) : M unit := emit (Closed (fileno f)).

(** [munmap]: [true] when the window was released. *)
Definition munmap : M bool :=
  fun w => if munmap_ok w
           then Done true {| out := out w; last := last w; view := None;
                             wr_budget := wr_budget w; munmap_ok := munmap_ok w |}
           else Done false w.

(** Modelled from the spec: misc.c, which defines ierr, is not among the
    sources.  "Every per-file error is reported with the file's display
    name attached." *)
Definition ierr (fn : string) : M unit := emit (Ierr fn).

(** Modelled from the spec: misc.c, which defines oerr, is not among the
    sources.  "Any write failure to the sink is fatal to the whole run." *)
Definition oerr {A} : M A := stop Oerr.

(** Modelled from the spec: misc.c, which defines printfn, is not among the
    sources.  It writes the "==> name <==" header line of a file;
    [print_nl] is its second argument. *)
Definition printfn (fn : string) (print_nl : bool) : M unit :=
  emit (Header fn print_nl).

Definition newline : byte := x0a.

Definition is_nl (b : byte) : bool := Byte.eqb b newline.

(** The bound of every loop that reads a stream to its end: each turn
    either stops or moves the position one byte closer to the end. *)
Definition rd_fuel (f : FILE) : nat := S (length (data f)).
Arguments rd_fuel f : simpl never.

(** [while ((ch = getc(fp)) != EOF) if (putchar(ch) == EOF) oerr();] *)
Fixpoint drain_loop (n : nat) (f : FILE) : M FILE :=
  match n with
  | O => stop Fault
  | S k =>
      match getc f with
      | (None, f') => ret f'
      | (Some b, f') =>
          ok <- putchar b ;;
          if ok then drain_loop k f' else oerr
      end
  end.

(** [while (getc(fp) != EOF);] *)
Fixpoint skip_to_eof (n : nat) (f : FILE) : option FILE :=
  match n with
  | O => None
  | S k =>
      match getc f with
      | (None, f') => Some f'
      | (Some _, f') => skip_to_eof k f'
      end
  end.

(** The FBYTES loop [while (off--) if ((ch = getc(fp)) == EOF) ... break;].
    The flag tells whether the loop ended on EOF; [None] when the bound
    runs out. *)
Fixpoint fbytes_loop (n : nat) (f : FILE) (off : Z) : option (FILE * bool) :=
  match n with
  | O => None
  | S k =>
      if off =? 0 then Some (f, false)
      else match getc f with
           | (None, f') => Some (f', true)
           | (Some _, f') => fbytes_loop k f' (off - 1)
           end
  end.

(** The FLINES loop [for (;;) { getc ...; if (ch == '\n' && !--off) break; }],
    with the same flag. *)
Fixpoint flines_loop (n : nat) (f : FILE) (off : Z) : option (FILE * bool) :=
  match n with
  | O => None
  | S k =>
      match getc f with
      | (None, f') => Some (f', true)
      | (Some b, f') =>
          if is_nl b
          then (if off - 1 =? 0 then Some (f', false) else flines_loop k f' (off - 1))
          else flines_loop k f' off
      end
  end.

(** ** Lines and ranges of a byte sequence *)

(** [n] bytes of [bs] from offset [a]. *)
Definition slice (bs : list byte) (a n : Z) : list byte :=
  firstn (Z.to_nat n) (skipn (Z.to_nat a) bs).

Definition lastn {A} (n : nat) (l : list A) : list A :=
  skipn (length l - n) l.

(** The lines of a byte sequence: each ends with its newline, except a
    last one that the end of the sequence cuts short. *)
Fixpoint split_lines (bs : list byte) : list (list byte) :=
  match bs with
  | [] => []
  | b :: t =>
      if is_nl b then [b] :: split_lines t
      else match split_lines t with
           | [] => [[b]]
           | l :: ls => (b :: l) :: ls
           end
  end.

(** The last [n] lines, concatenated. *)
Definition last_lines (n : Z) (bs : list byte) : list byte :=
  concat (lastn (Z.to_nat n) (split_lines bs)).

(** ** The collaborators of read.c and misc.c *)

(** [getc] until EOF, keeping what was read. *)
Fixpoint read_all (n : nat) (f : FILE) (acc : list byte) : option (FILE * list byte) :=
  match n with
  | O => None
  | S k =>
      match getc f with
      | (None, f') => Some (f', acc)
      | (Some b, f') => read_all k f' (acc ++ [b])
      end
  end.

Fixpoint put_all (bs : list byte) : M unit :=
  match bs with
  | [] => ret tt
  | b :: t => ok <- putchar b ;; if ok then put_all t else oerr
  end.

(** Modelled from the spec: read.c, which defines bytes, is not among the
    sources.  For a stream that cannot seek: "reading the entire stream
    through [a circular buffer] so the buffer ends up holding exactly the
    last offset bytes (or fewer, if the stream was shorter), then replay
    that buffer to output directly"; a read failure is reported with the
    file name and makes the call return nonzero. *)
Definition bytes (f : FILE) (fn : string) (off : Z) : M (FILE * Z) :=
  match read_all (rd_fuel f) f [] with
  | None => stop Fault
  | Some (f', bs) =>
      if ferror f' then ierr fn ;;; ret (f', 1)
      else put_all (lastn (Z.to_nat off) bs) ;;; ret (f', 0)
  end.

(** Modelled from the spec: read.c, which defines lines, is not among the
    sources.  For a stream that cannot seek: "maintain a circular array of
    the last N line buffers, appending/evicting as each line terminator
    arrives, then emit the retained lines directly at end-of-file". *)
Definition lines (f : FILE) (fn : string) (off : Z) : M (FILE * Z) :=
  match read_all (rd_fuel f) f [] with
  | None => stop Fault
  | Some (f', bs) =>
      if ferror f' then ierr fn ;;; ret (f', 1)
      else put_all (last_lines off bs) ;;; ret (f', 0)
  end.

(** misc.c, which defines maparound and mapprint, is not among the sources:
    the two window primitives are parameters of the model.  The first
    argument is the content of the file behind [map_fd].  [maparound d m
    offset] is [None] when the call returns nonzero and the moved window
    otherwise; [mapprint d m startoff n] gives the window it leaves, the
    bytes it wrote and its return value. *)
Class MapWindow := {
  maparound : list byte -> mapinfo -> Z -> option mapinfo;
  mapprint : list byte -> mapinfo -> Z -> Z -> mapinfo * list byte * Z
}.

(** ** rlines *)

(** Conversion of an [off_t] difference to the 32-bit [int i]. *)
Definition to_int (x : Z) : Z := (x + 2 ^ 31) mod 2 ^ 32 - 2 ^ 31.

(** [for (i = n - 1; i >= 0; i--) if (map.start[i] == '\n' && --off == 0) break;]
    gives the final [i] (-1 when the window is exhausted) and [off];
    [None] is a read outside the mapped bytes. *)
Fixpoint scan_window (bs : list byte) (n : nat) (off : Z) : option (Z * Z) :=
  match n with
  | O => Some (-1, off)
  | S k =>
      match nth_error bs k with
      | None => None
      | Some b =>
          if is_nl b
          then (if off - 1 =? 0 then Some (Z.of_nat k, off - 1)
                else scan_window bs k (off - 1))
          else scan_window bs k off
      end
  end.

Definition for_scan (bs : list byte) (i : Z) (off : Z) : option (Z * Z) :=
  if i <? 0 then Some (i, off) else scan_window bs (Z.to_nat (i + 1)) off.

Inductive scan :=
| ScanEnd (map : mapinfo) (curoff : Z)   (* the while loop was left *)
| ScanMapFail                            (* maparound returned nonzero *)
| ScanFault.

Section Model.
Context {MW : MapWindow}.

(** [while (curoff >= 0) { ... }] of rlines. *)
Fixpoint rlines_loop (n : nat) (d : list byte) (map : mapinfo) (curoff off : Z) : scan :=
  if curoff <? 0 then ScanEnd map curoff
  else match n with
       | O => ScanFault
       | S k =>
           match (if curoff <? mapoff map then maparound d map curoff else Some map) with
           | None => ScanMapFail
           | Some map' =>
               match start map' with
               | None => ScanFault
               | Some bs =>
                   match for_scan bs (to_int (curoff - mapoff map')) off with
                   | None => ScanFault
                   | Some (i, off') =>
                       if 0 <=? i then ScanEnd map' (mapoff map' + i)
                       else rlines_loop k d map' (mapoff map' + i) off'
                   end
               end
           end
       end.

Definition held (m : mapinfo) : option (Z * Z) :=
  match start m with
  | Some _ => Some (mapoff m, maplen m)
  | None => None
  end.

(** The scan of rlines, from [map.start = NULL] and [curoff = size - 2]
    to the end of its while loop. *)
Definition rlines_scan (f : FILE) (off : Z) (sb : stat) : scan :=
  let size := st_size sb in
  rlines_loop (Z.to_nat size) (data f)
    {| start := None; mapoff := size; maxoff := size; maplen := 0;
       map_fd := fileno f |}
    (size - 2) off.

(** [rlines]: display the last [off] lines of the file.  Every [return]
    hands the stream back to [forward]. *)
Definition rlines (f : FILE) (fn : string) (off : Z) (sb : stat) : M FILE :=
  let size := st_size sb in
  if size =? 0 then ret f
  else
    match rlines_scan f off sb with
    | ScanFault => stop Fault
    | ScanMapFail => ierr fn ;;; ret f
    | ScanEnd map curoff =>
        let curoff := curoff + 1 in
        let '(map', written, rc) := mapprint (data f) map curoff (size - curoff) in
        emit (WriteRange written) ;;;
        set_view (held map') ;;;
        if negb (rc =? 0) then ierr fn ;;; stop Exit1
        else
          match fseeko f (st_size sb) SEEK_SET with
          | None => ierr fn ;;; ret f
          | Some f' =>
              match start map' with
              | None => ret f'
              | Some _ =>
                  ok <- munmap ;;
                  if ok then ret f' else ierr fn ;;; ret f'
              end
          end
    end.

(** ** forward *)

(** The outcome of the [switch]: [Located] falls through to the copy loop,
    [Abandon] is a [return] out of [forward]. *)
Inductive located :=
| Located (f : FILE)
| Abandon (f : FILE).

Definition or_fault {A} (o : option A) (k : A -> M located) : M located :=
  match o with
  | None => stop Fault
  | Some a => k a
  end.

(** After a read loop that ended on EOF: [if (ferror(fp)) { ierr(fn); return; }]. *)
Definition eof_check (fn : string) (f : FILE) : M located :=
  if ferror f then ierr fn ;;; ret (Abandon f) else ret (Located f).

Definition regular (sb : stat) : bool := st_isreg sb && (0 <? st_size sb).

Definition forward_locate (f : FILE) (fn : string) (style : STYLE) (off : Z)
    (sb : stat) : M located :=
  match style with
  | FBYTES =>
      if off =? 0 then ret (Located f)
      else if regular sb then
        let off := if st_size sb <? off then st_size sb else off in
        match fseeko f off SEEK_SET with
        | None => ierr fn ;;; ret (Abandon f)
        | Some f' => ret (Located f')
        end
      else
        or_fault (fbytes_loop (rd_fuel f) f off) (fun '(f', eof) =>
          if eof then eof_check fn f' else ret (Located f'))
  | FLINES =>
      if off =? 0 then ret (Located f)
      else
        or_fault (flines_loop (rd_fuel f) f off) (fun '(f', eof) =>
          if eof then eof_check fn f' else ret (Located f'))
  | RBYTES =>
      if regular sb then
        if off <=? st_size sb then
          match fseeko f (- off) SEEK_END with
          | None => ierr fn ;;; ret (Abandon f)
          | Some f' => ret (Located f')
          end
        else ret (Located f)
      else if off =? 0 then
        or_fault (skip_to_eof (rd_fuel f) f) (eof_check fn)
      else
        r <- bytes f fn off ;;
        let '(f', rc) := r in
        if negb (rc =? 0) then ret (Abandon f') else ret (Located f')
  | RLINES =>
      if regular sb then
        if off =? 0 then
          match fseeko f 0 SEEK_END with
          | None => ierr fn ;;; ret (Abandon f)
          | Some f' => ret (Located f')
          end
        else
          f' <- rlines f fn off sb ;; ret (Located f')
      else if off =? 0 then
        or_fault (skip_to_eof (rd_fuel f) f) (eof_check fn)
      else
        r <- lines f fn off ;;
        let '(f', rc) := r in
        if negb (rc =? 0) then ret (Abandon f') else ret (Located f')
  | _ => ret (Located f)
  end.

(** The copy loop that ends [forward]. *)
Definition forward_drain (f : FILE) (fn : string) : M FILE :=
  f' <- drain_loop (rd_fuel f) f ;;
  if ferror f' then ierr fn ;;; ret f'
  else fflush ;;; ret f'.

Definition forward (f : FILE) (fn : string) (style : STYLE) (off : Z)
    (sb : stat) : M FILE :=
  r <- forward_locate f fn style off sb ;;
  match r with
  | Abandon f' => ret f'
  | Located f' => forward_drain f' fn
  end.

End Model.

(** ** show *)

(** The globals set from the command line. *)
Record options := {
  vflag : bool;
  qflag : bool;
  Fflag : bool
}.

Definition count {A} (l : list A) : Z := Z.of_nat (length l).

(** [vflag || (qflag == 0 && no_files > 1)] *)
Definition headers (o : options) (no_files : Z) : bool :=
  vflag o || (negb (qflag o) && (1 <? no_files)).

Definition set_fp (file : file_info) (s : option FILE) : file_info :=
  {| fp := s; file_name := file_name file; st := st file |}.

(** [last != file], for the file at index [idx] of the array. *)
Definition last_differs (l : option Z) (idx : Z) : bool :=
  match l with
  | Some j => negb (j =? idx)
  | None => true
  end.

(** The loop of [show]. *)
Fixpoint show_loop (n : nat) (hdr : bool) (idx : Z) (name : string) (f : FILE) : M FILE :=
  match n with
  | O => stop Fault
  | S k =>
      match getc f with
      | (None, f') => ret f'
      | (Some b, f') =>
          l <- get_last ;;
          (if last_differs l idx
           then (if hdr then printfn name true else ret tt) ;;;
                set_last (Some idx)
           else ret tt) ;;;
          ok <- putchar b ;;
          if ok then show_loop k hdr idx name f' else oerr
      end
  end.

(** [show(file)] for the file at index [idx]; a NULL stream is a fault,
    every caller tests it first. *)
Definition show (o : options) (no_files : Z) (idx : Z) (file : file_info)
    : M (file_info * Z) :=
  match fp file with
  | None => stop Fault
  | Some f =>
      f' <- show_loop (rd_fuel f) (headers o no_files) idx (file_name file) f ;;
      fflush ;;;
      if ferror f' then
        fclose f' ;;;
        ierr (file_name file) ;;;
        ret (set_fp file None, 0)
      else ret (set_fp file (Some (clearerr f')), 1)
  end.

(** ** follow *)

(** What [fileargs_fopen] followed by [fstat] answers for a path. [enoent]
    tells whether errno is ENOENT. *)
Inductive open_result :=
| OpenFail (enoent : bool)                 (* fileargs_fopen returned NULL *)
| OpenStatFail (f : FILE) (enoent : bool)  (* opened, fstat returned -1 *)
| OpenOk (f : FILE) (sb : stat).

(** What the outside did to one tracked file since the previous pass: the
    bytes appended to the file behind the open stream, where its reads
    start to fail, and what reopening its path gives. *)
Record poll := {
  grown : list byte;
  fault : option Z;
  reopen : open_result
}.

Definition tick (p : poll) (file : file_info) : file_info :=
  match fp file with
  | None => file
  | Some f =>
      set_fp file (Some {| fileno := fileno f; data := data f ++ grown p;
                           pos := pos f; rd_fault := fault p;
                           seek_ok := seek_ok f; f_eof := f_eof f;
                           f_err := f_err f |})
  end.

Fixpoint tick_all (polls : nat -> poll) (i : nat) (files : list file_info)
    : list file_info :=
  match files with
  | [] => []
  | file :: rest => tick (polls i) file :: tick_all polls (S i) rest
  end.

Definition close_if_open (file : file_info) : M unit :=
  match fp file with
  | Some f => fclose f
  | None => ret tt
  end.

Definition identity_changed (sb2 old : stat) : bool :=
  negb (st_ino sb2 =? st_ino old) || negb (st_dev sb2 =? st_dev old)
  || (st_nlink sb2 =? 0).

(** The body of the [Fflag] loop for the file at index [idx], given what
    reopening its path answers. *)
Definition reopen_step (o : options) (no_files : Z) (idx : Z) (r : open_result)
    (file : file_info) : M file_info :=
  match fp file with
  | None =>
      match r with
      | OpenFail _ => ret file
      | OpenStatFail f _ => fclose f ;;; ret (set_fp file None)
      | OpenOk f sb =>
          ret {| fp := Some f; file_name := file_name file; st := sb |}
      end
  | Some f =>
      if fileno f =? STDIN_FILENO then ret file
      else
        match r with
        | OpenOk ftmp sb2 =>
            if identity_changed sb2 (st file) then
              s <- show o no_files idx file ;;
              close_if_open (fst s) ;;;
              ret {| fp := Some ftmp; file_name := file_name file; st := sb2 |}
            else fclose ftmp ;;; ret file
        | OpenFail enoent =>
            (if negb enoent then ierr (file_name file) else ret tt) ;;;
            s <- show o no_files idx file ;;
            close_if_open (fst s) ;;;
            ret (set_fp (fst s) None)
        | OpenStatFail ftmp enoent =>
            (if negb enoent then ierr (file_name file) else ret tt) ;;;
            s <- show o no_files idx file ;;
            close_if_open (fst s) ;;;
            fclose ftmp ;;;
            ret (set_fp (fst s) None)
        end
  end.

Section Follow.
Context {MW : MapWindow}.
Variable o : options.
Variable no_files : Z.

(** [for (i = 0, file = files; i < no_files; i++, file++)] of the
    positioning stage; the flag is [active]. *)
Fixpoint follow_position (style : STYLE) (off : Z) (files : list file_info)
    (active : bool) : M (list file_info * bool) :=
  match files with
  | [] => ret ([], active)
  | file :: rest =>
      match fp file with
      | None =>
          r <- follow_position style off rest active ;;
          ret (file :: fst r, snd r)
      | Some f =>
          (if headers o no_files then printfn (file_name file) true else ret tt) ;;;
          f' <- forward f (file_name file) style off (st file) ;;
          r <- follow_position style off rest true ;;
          ret (set_fp file (Some f') :: fst r, snd r)
      end
  end.

(** The [Fflag] loop over the array, from index [i]. *)
Fixpoint follow_reopen (polls : nat -> poll) (i : nat) (files : list file_info)
    : M (list file_info) :=
  match files with
  | [] => ret []
  | file :: rest =>
      file' <- reopen_step o no_files (Z.of_nat i) (reopen (polls i)) file ;;
      rest' <- follow_reopen polls (S i) rest ;;
      ret (file' :: rest')
  end.

(** [for (...) if (file->fp) show(file);] from index [i]. *)
Fixpoint follow_show (i : nat) (files : list file_info) : M (list file_info) :=
  match files with
  | [] => ret []
  | file :: rest =>
      file' <- match fp file with
               | Some _ => s <- show o no_files (Z.of_nat i) file ;; ret (fst s)
               | None => ret file
               end ;;
      rest' <- follow_show (S i) rest ;;
      ret (file' :: rest')
  end.

(** One turn of [for (;;)]: the files as the pass finds them, the [Fflag]
    loop, the show loop, the sleep. *)
Definition follow_pass (polls : nat -> poll) (files : list file_info)
    : M (list file_info) :=
  let files0 := tick_all polls 0 files in
  files1 <- (if Fflag o then follow_reopen polls 0 files0 else ret files0) ;;
  files2 <- follow_show 0 files1 ;;
  emit Sleep ;;;
  ret files2.

(** [n] turns of [for (;;)], the first one being pass [k] of the
    environment. *)
Fixpoint follow_loop (n : nat) (env : nat -> nat -> poll) (k : nat)
    (files : list file_info) : M (list file_info) :=
  match n with
  | O => ret files
  | S n' =>
      files' <- follow_pass (env k) files ;;
      follow_loop n' env (S k) files'
  end.

End Follow.

(** How [follow] stands when the outside cuts it after [n] passes:
    [Returned] is the [return] before the loop, [Running] a loop that
    would go on. *)
Inductive follow_end :=
| Returned (files : list file_info)
| Running (files : list file_info).

Definition follow {MW : MapWindow} (o : options) (n : nat) (env : nat -> nat -> poll)
    (files : list file_info) (style : STYLE) (off : Z) : M follow_end :=
  let no_files := count files in
  r <- follow_position o no_files style off files false ;;
  if negb (Fflag o) && negb (snd r) then ret (Returned (fst r))
  else
    set_last (Some (no_files - 1)) ;;;
    files' <- follow_loop o no_files n env 0 (fst r) ;;
    ret (Running files').

(** ** A window primitive *)

(** Modelled from the spec: misc.c is not among the sources.  "The view
    always covers the byte currently being examined"; it is "a bounded
    window" that "advance[s] backward as needed".  This instance maps at
    most [W] bytes from the multiple of [W] at or below the target;
    [mmap_ok] tells for which window offsets the mapping succeeds. *)
Definition maparound_at (W : Z) (mmap_ok : Z -> bool) (d : list byte)
    (m : mapinfo) (offset : Z) : option mapinfo :=
  let mo := offset - offset mod W in
  let ml := Z.min W (maxoff m - mo) in
  if mmap_ok mo && (0 <? ml)
  then Some {| start := Some (slice d mo ml); mapoff := mo; maxoff := maxoff m;
               maplen := ml; map_fd := map_fd m |}
  else None.

(** Modelled from the spec: "writeRange(view-or-file, offset, length) ->
    Error?".  This instance maps a window when none is mapped yet and
    writes the range; [wr_ok] tells whether the write succeeds. *)
Definition mapprint_at (W : Z) (mmap_ok : Z -> bool) (wr_ok : bool)
    (d : list byte) (m : mapinfo) (startoff n : Z) : mapinfo * list byte * Z :=
  if n <=? 0 then (m, [], 0)
  else
    match (match start m with
           | Some _ => Some m
           | None => maparound_at W mmap_ok d m startoff
           end) with
    | None => (m, [], 1)
    | Some m' => if wr_ok then (m', slice d startoff n, 0) else (m', [], 1)
    end.

Definition window_at (W : Z) (mmap_ok : Z -> bool) (wr_ok : bool) : MapWindow :=
  {| maparound := maparound_at W mmap_ok;
     mapprint := mapprint_at W mmap_ok wr_ok |}.

(** ** The reverse scan in the words of the specification *)

(** "Starting just before [the final] byte, scan backward; every time a
    line terminator is encountered, decrement linesWanted; stop scanning
    the instant it reaches zero, and record the byte position immediately
    after that terminator as the answer.  If the scan reaches the start of
    the file before linesWanted reaches zero, the answer is byte 0."
    [back_scan bs n k] has the bytes below index [n] left to examine. *)
Fixpoint back_scan (bs : list byte) (n : nat) (wanted : Z) : Z :=
  match n with
  | O => 0
  | S j =>
      match nth_error bs j with
      | Some b =>
          if is_nl b
          then (if wanted - 1 =? 0 then Z.of_nat j + 1
                else back_scan bs j (wanted - 1))
          else back_scan bs j wanted
      | None => back_scan bs j wanted
      end
  end.

Definition findStartOffset (bs : list byte) (linesWanted : Z) : Z :=
  back_scan bs (length bs - 1) linesWanted.

(** ** What a stream still has to give *)

(** Where reading stops: at the end of the data or where reads start to
    fail, and never before the current position. *)
Definition stop_pos (f : FILE) : Z :=
  Z.max (pos f)
        (Z.min (match rd_fault f with Some p => p | None => len (data f) end)
               (len (data f))).

(** The bytes [getc] delivers before it next returns EOF. *)
Definition readable (f : FILE) : list byte :=
  if f_eof f then [] else slice (data f) (pos f) (stop_pos f - pos f).

(** The stream once [getc] has returned EOF. *)
Definition after_read (f : FILE) : FILE :=
  if f_eof f then f
  else if match rd_fault f with Some p => p <=? stop_pos f | None => false end
       then with_pos f (stop_pos f) false true
       else with_pos f (stop_pos f) true (f_err f).

Definition add_out (w : world) (es : list event) : world :=
  {| out := out w ++ es; last := last w; view := view w;
     wr_budget := wr_budget w; munmap_ok := munmap_ok w |}.

(** The bytes of a trace, whoever wrote them. *)
Fixpoint written (es : list event) : list byte :=
  match es with
  | [] => []
  | Put b :: t => b :: written t
  | WriteRange bs :: t => bs ++ written t
  | _ :: t => written t
  end.

(** ** What the model asks of a window primitive *)

Definition INT_MAX : Z := 2 ^ 31 - 1.

(** The window [m] shows the bytes of [d] it claims to show, and its
    length fits the [int] that indexes it. *)
Definition window_ok (d : list byte) (m : mapinfo) : Prop :=
  start m = Some (slice d (mapoff m) (maplen m))
  /\ 0 <= mapoff m /\ 0 < maplen m <= INT_MAX
  /\ mapoff m + maplen m <= maxoff m.

(** The contract the specification gives the two primitives: after a
    successful maparound "the view always covers the byte currently being
    examined", and a successful mapprint has written the range it was
    asked to write. *)
Class WindowContract (MW : MapWindow) : Prop := {
  maparound_covers : forall d m o m',
    0 <= o < maxoff m -> maxoff m <= len d ->
    maparound d m o = Some m' ->
    maxoff m' = maxoff m /\ window_ok d m'
    /\ mapoff m' <= o < mapoff m' + maplen m';
  mapprint_writes : forall d m a n m' bs,
    0 <= a -> 0 <= n -> a + n <= len d ->
    mapprint d m a n = (m', bs, 0) -> bs = slice d a n
}.

(** Neither primitive fails on the file of content [d]. *)
Definition window_works (MW : MapWindow) (d : list byte) : Prop :=
  (forall m o, 0 <= o < maxoff m -> maparound d m o <> None)
  /\ (forall m a n, 0 <= a -> 0 <= n -> a + n <= maxoff m ->
      snd (mapprint d m a n) = 0).

(** The number of line terminators in a byte sequence. *)
Definition count_nl (bs : list byte) : Z :=
  Z.of_nat (length (filter is_nl bs)).

(** ** What show writes *)

(** The events of the loop of [show] for the bytes [bs], when [last] is
    [l] on entry: nothing for no byte; otherwise the header, if the file
    differs from the last one shown and headers are on, then the bytes. *)
Definition show_events (hdr : bool) (idx : Z) (name : string) (l : option Z)
    (bs : list byte) : list event :=
  match bs with
  | [] => []
  | _ => (if last_differs l idx && hdr then [Header name true] else [])
         ++ map Put bs
  end.

Definition show_last (idx : Z) (l : option Z) (bs : list byte) : option Z :=
  match bs with
  | [] => l
  | _ => Some idx
  end.

(** The world after more events and with a new [last]. *)
Definition upd (w : world) (es : list event) (l : option Z) : world :=
  {| out := out w ++ es; last := l; view := view w;
     wr_budget := wr_budget w; munmap_ok := munmap_ok w |}.

(** ** What a pass does to the array, read off the code *)

(** The streams the model is asked about have a position. *)
Definition wf_file (file : file_info) : Prop :=
  forall f, fp file = Some f -> 0 <= pos f.

Definition wf_open (r : open_result) : Prop :=
  match r with
  | OpenOk f _ => 0 <= pos f
  | _ => True
  end.

(** The bytes the stream of an entry has to give. *)
Definition pending (file : file_info) : list byte :=
  match fp file with
  | Some f => readable f
  | None => []
  end.

(** The entry after [if (file->fp) show(file);]. *)
Definition shown (file : file_info) : file_info :=
  match fp file with
  | Some f =>
      if f_err (after_read f) then set_fp file None
      else set_fp file (Some (clearerr (after_read f)))
  | None => file
  end.

(** Whether the body of the reopen loop shows the old stream: the path is
    gone or unreadable, or leads to another file. *)
Definition reopen_shows (r : open_result) (file : file_info) : bool :=
  match fp file with
  | None => false
  | Some f =>
      if fileno f =? STDIN_FILENO then false
      else match r with
           | OpenOk _ sb2 => identity_changed sb2 (st file)
           | _ => true
           end
  end.

(** The entry after the body of the reopen loop. *)
Definition reopened (r : open_result) (file : file_info) : file_info :=
  match fp file with
  | None =>
      match r with
      | OpenFail _ => file
      | OpenStatFail _ _ => set_fp file None
      | OpenOk f sb => {| fp := Some f; file_name := file_name file; st := sb |}
      end
  | Some f =>
      if fileno f =? STDIN_FILENO then file
      else match r with
           | OpenOk ftmp sb2 =>
               if identity_changed sb2 (st file)
               then {| fp := Some ftmp; file_name := file_name file; st := sb2 |}
               else file
           | _ => set_fp file None
           end
  end.

Fixpoint reopen_all (polls : nat -> poll) (i : nat) (files : list file_info)
    : list file_info :=
  match files with
  | [] => []
  | file :: rest => reopened (reopen (polls i)) file :: reopen_all polls (S i) rest
  end.

Fixpoint reopen_bytes (polls : nat -> poll) (i : nat) (files : list file_info)
    : list byte :=
  match files with
  | [] => []
  | file :: rest =>
      (if reopen_shows (reopen (polls i)) file then pending file else [])
      ++ reopen_bytes polls (S i) rest
  end.

(** ** How a run may end *)

(** [ends allowed P r]: the run [r] returned a value that satisfies [P],
    or stopped for a reason that [allowed] lets through. *)
Definition ends {A} (allowed : halt -> Prop) (P : A -> Prop) (r : outcome A) : Prop :=
  match r with
  | Done a _ => P a
  | Halt h _ => allowed h
  end.

(** The standard output refused a byte. *)
Definition is_oerr (h : halt) : Prop := h = Oerr.

(** A write failed: putchar refused a byte, or mapprint its range. *)
Definition is_write_failure (h : halt) : Prop := h = Oerr \/ h = Exit1.

(** The [struct stat] of an entry does not claim more bytes than the
    file behind its stream has. *)
Definition stat_fits (file : file_info) : Prop :=
  forall f, fp file = Some f -> st_size (st file) <= len (data f).

Definition located_pos (r : located) : Z :=
  match r with
  | Located f => pos f
  | Abandon f => pos f
  end.

(** ** Sample inputs *)

(** A process that has written nothing yet and whose writes succeed. *)
Definition world0 : world :=
  {| out := []; last := None; view := None; wr_budget := None;
     munmap_ok := true |}.

(** A freshly opened stream on a file of content [d]. *)
Definition fresh_stream (fd : Z) (d : list byte) : FILE :=
  {| fileno := fd; data := d; pos := 0; rd_fault := None; seek_ok := true;
     f_eof := false; f_err := false |}.

(** The same, but every seek fails, as on a pipe. *)
Definition pipe_stream (fd : Z) (d : list byte) : FILE :=
  {| fileno := fd; data := d; pos := 0; rd_fault := None; seek_ok := false;
     f_eof := false; f_err := false |}.

(** The [struct stat] of a regular file of content [d] with inode [ino]. *)
Definition stat_reg (ino : Z) (d : list byte) : stat :=
  {| st_isreg := true; st_size := len d; st_ino := ino; st_dev := 1;
     st_nlink := 1 |}.

Definition stat_fifo : stat :=
  {| st_isreg := false; st_size := 0; st_ino := 7; st_dev := 1;
     st_nlink := 1 |}.

(** "1\n2\n3\n4\n5\n" *)
Definition a_log : list byte :=
  [x31; x0a; x32; x0a; x33; x0a; x34; x0a; x35; x0a].

(** A stream whose reads fail from offset [p] on. *)
Definition failing_stream (fd : Z) (d : list byte) (p : Z) : FILE :=
  {| fileno := fd; data := d; pos := 0; rd_fault := Some p; seek_ok := true;
     f_eof := false; f_err := false |}.

(** "x\n" and "y\n" *)
Definition x_line : list byte := [x78; x0a].
Definition y_line : list byte := [x79; x0a].

(** [tail -F a b] when "a" holds "x\n" and "b" does not exist yet: the
    entry of "b" has no stream.  At the first pass "a" is unchanged and "b"
    has appeared, holding "y\n". *)
Definition opts_F : options := {| vflag := false; qflag := false; Fflag := true |}.

Definition opts_f : options := {| vflag := false; qflag := false; Fflag := false |}.

Definition file_a : file_info :=
  {| fp := Some (fresh_stream 3 x_line); file_name := "a"; st := stat_reg 1 x_line |}.

Definition file_b_absent : file_info :=
  {| fp := None; file_name := "b"; st := stat_reg 0 [] |}.

Definition file_b : file_info :=
  {| fp := Some (fresh_stream 4 y_line); file_name := "b"; st := stat_reg 2 y_line |}.

Definition b_appears (k i : nat) : poll :=
  match i with
  | O => {| grown := []; fault := None;
            reopen := OpenOk (fresh_stream 5 x_line) (stat_reg 1 x_line) |}
  | _ => {| grown := []; fault := None;
            reopen := OpenOk (fresh_stream 4 y_line) (stat_reg 2 y_line) |}
  end.

(** The entry of "a.log" on a stream whose reads fail from offset 2, and
    two states of the outside: one in which that failure is still there,
    one in which the path can be opened and read without error. *)
Definition file_failing : file_info :=
  {| fp := Some (failing_stream 3 a_log 2); file_name := "a.log";
     st := stat_reg 1 a_log |}.

Definition still_failing (i : nat) : poll :=
  {| grown := []; fault := Some 2;
     reopen := OpenOk (fresh_stream 5 a_log) (stat_reg 1 a_log) |}.

Definition readable_again (i : nat) : poll :=
  {| grown := y_line; fault := None;
     reopen := OpenOk (fresh_stream 5 (a_log ++ y_line)) (stat_reg 1 (a_log ++ y_line)) |}.

(** A window primitive with 4-byte windows that never fails. *)
Definition window4 : MapWindow := window_at 4 (fun _ => true) true.

(** ** What forward is asked to select *)

(** The lines of [bs] after the first [n]. *)
Definition drop_lines (n : Z) (bs : list byte) : list byte :=
  concat (skipn (Z.to_nat n) (split_lines bs)).

(** The part of a file of content [d] that each style asks for, for a
    count [n >= 0]; the other values of the enumeration ask for all of
    it. *)
Definition selected (style : STYLE) (n : Z) (d : list byte) : list byte :=
  match style with
  | FBYTES => skipn (Z.to_nat n) d
  | FLINES => drop_lines n d
  | RBYTES => lastn (Z.to_nat n) d
  | RLINES => last_lines n d
  | _ => d
  end.

(** A freshly opened stream on which reads do not fail. *)
Definition fresh (f : FILE) : Prop :=
  pos f = 0 /\ f_eof f = false /\ f_err f = false /\ rd_fault f = None.

(** The world after [es] went out and [k] bytes of write budget remain. *)
Definition spent (w : world) (es : list event) (l : option Z) (k : nat) : world :=
  {| out := out w ++ es; last := l; view := view w;
     wr_budget := Some k; munmap_ok := munmap_ok w |}.

(** ** Traces *)

Definition world_of {A} (r : outcome A) : world :=
  match r with
  | Done _ w => w
  | Halt _ w => w
  end.

(** [adds P c]: whatever the world and however [c] ends, the trace it
    leaves is the one it found followed by events that satisfy [P]. *)
Definition adds {A} (P : event -> Prop) (c : M A) : Prop :=
  forall w, exists es, Forall P es /\ out (world_of (c w)) = out w ++ es.

(** The names in the headers of a trace, in order. *)
Fixpoint headers_in (es : list event) : list string :=
  match es with
  | [] => []
  | Header fn _ :: t => fn :: headers_in t
  | _ :: t => headers_in t
  end.

(** ** Files at rest *)

(** An entry whose stream, if any, has been shown to its end and has its
    indicators clear, as show leaves it. *)
Definition settled (file : file_info) : Prop :=
  forall f, fp file = Some f ->
    pos f = len (data f) /\ f_eof f = false /\ f_err f = false.

(** What the files of the array gained since the previous pass, in array
    order; an entry without a stream gains nothing. *)
Fixpoint growth (polls : nat -> poll) (i : nat) (files : list file_info)
    : list byte :=
  match files with
  | [] => []
  | file :: rest =>
      (match fp file with Some _ => grown (polls i) | None => [] end)
      ++ growth polls (S i) rest
  end.

(** The same over [n] passes, the first being pass [k]. *)
Fixpoint growths (env : nat -> nat -> poll) (k n : nat) (files : list file_info)
    : list byte :=
  match n with
  | O => []
  | S n' => growth (env k) 0 files ++ growths env (S k) n' files
  end.

(** An entry whose stream, if any, was read to its end and still has its
    end-of-file indicator set, as the copy loop of forward leaves it. *)
Definition drained (file : file_info) : Prop :=
  forall f, fp file = Some f ->
    pos f = len (data f) /\ f_eof f = true /\ f_err f = false.

(** What two polls in a row did to a file, taken as one. *)
Definition both (p q : poll) : poll :=
  {| grown := grown p ++ grown q; fault := fault q; reopen := reopen q |}.

(** ** Paths that still lead to the same files *)

(** Whether the reopen loop finds the entry as the previous pass left it:
    an entry without a stream whose path still cannot be opened, the
    standard input, or a stream whose path leads to the file it was opened
    on. *)
Definition unmoved (r : open_result) (file : file_info) : bool :=
  match fp file, r with
  | None, OpenFail _ => true
  | None, _ => false
  | Some f, OpenOk _ sb2 =>
      (fileno f =? STDIN_FILENO) || negb (identity_changed sb2 (st file))
  | Some f, _ => fileno f =? STDIN_FILENO
  end.

Fixpoint unmoved_all (polls : nat -> poll) (i : nat) (files : list file_info)
    : bool :=
  match files with
  | [] => true
  | file :: rest => unmoved (reopen (polls i)) file && unmoved_all polls (S i) rest
  end.

(** The streams that reopening the paths created, closed again one by
    one. *)
Fixpoint reopen_closes (polls : nat -> poll) (i : nat) (files : list file_info)
    : list event :=
  match files with
  | [] => []
  | file :: rest =>
      match fp file, reopen (polls i) with
      | Some f, OpenOk ftmp _ =>
          if fileno f =? STDIN_FILENO then [] else [Closed (fileno ftmp)]
      | _, _ => []
      end ++ reopen_closes polls (S i) rest
  end.

(** The options with [-F] taken away. *)
Definition plain (o : options) : options :=
  {| vflag := vflag o; qflag := qflag o; Fflag := false |}.

(** The descriptors closed in a trace, in order. *)
Fixpoint closed_in (es : list event) : list Z :=
  match es with
  | [] => []
  | Closed fd :: t => fd :: closed_in t
  | _ :: t => closed_in t
  end.

(** What forward may leave in the trace: bytes, a range written from
    the window, a flush, an error message. *)
Definition forward_event (e : event) : Prop :=
  match e with
  | Put _ | WriteRange _ | Flush | Ierr _ => True
  | _ => False
  end.

(** The names of the entries that have a stream, in array order. *)
Fixpoint open_names (files : list file_info) : list string :=
  match files with
  | [] => []
  | file :: rest =>
      match fp file with
      | Some _ => file_name file :: open_names rest
      | None => open_names rest
      end
  end.

(** * strptime (compat/strptime.c) *)

(** An [int] is a [Z].  [%] and [/] of C truncate toward zero: they are
    [Z.rem] and [Z.quot].  The values the conversions store come from at
    most four decimal digits, so on them no operation leaves the range of
    [int] and no wrap-around is written out; the same is assumed of the
    fields the caller left in [*tm], which [%p], [%z] and the completion
    of a date read. *)

Definition DAYSPERWEEK : Z := 7.
Definition MONSPERYEAR : Z := 12.
Definition TM_SUNDAY : Z := 0.
Definition TM_MONDAY : Z := 1.
Definition TM_YEAR_BASE : Z := 1900.

(** [#define isleap(y)] *)
Definition isleap (y : Z) : bool :=
  (Z.rem y 4 =? 0) && (negb (Z.rem y 100 =? 0) || (Z.rem y 400 =? 0)).

Definition FLAG_NONE : Z := Z.shiftl 1 0.
Definition FLAG_YEAR : Z := Z.shiftl 1 1.
Definition FLAG_MONTH : Z := Z.shiftl 1 2.
Definition FLAG_YDAY : Z := Z.shiftl 1 3.
Definition FLAG_MDAY : Z := Z.shiftl 1 4.
Definition FLAG_WDAY : Z := Z.shiftl 1 5.

(** [if (flags & m)] *)
Definition has (flags m : Z) : bool := negb (Z.land flags m =? 0).

(** Gauss's algorithm for the day of the week of the first day of a
    year. *)
Definition first_wday_of (year : Z) : Z :=
  Z.rem (1 + 5 * Z.rem (year - 1) 4 + 4 * Z.rem (year - 1) 100
         + 6 * Z.rem (year - 1) 400) 7.

(** [static int start_of_month[2][13]]; [None] is an index outside a
    row. *)
Definition start_of_month (leap : bool) (i : Z) : option Z :=
  if i <? 0 then None
  else nth_error
         (if leap
          then [0; 31; 60; 91; 121; 152; 182; 213; 244; 274; 305; 335; 366]
          else [0; 31; 59; 90; 120; 151; 181; 212; 243; 273; 304; 334; 365])
         (Z.to_nat i).

(** The fields of [struct tm] that strptime.c reads or writes. *)
Record tm := {
  tm_sec : Z;
  tm_min : Z;
  tm_hour : Z;
  tm_mday : Z;
  tm_mon : Z;
  tm_year : Z;
  tm_wday : Z;
  tm_yday : Z;
  tm_isdst : Z
}.

Definition set_sec (t : tm) (v : Z) : tm :=
  {| tm_sec := v; tm_min := tm_min t; tm_hour := tm_hour t; tm_mday := tm_mday t;
     tm_mon := tm_mon t; tm_year := tm_year t; tm_wday := tm_wday t;
     tm_yday := tm_yday t; tm_isdst := tm_isdst t |}.
Definition set_min (t : tm) (v : Z) : tm :=
  {| tm_sec := tm_sec t; tm_min := v; tm_hour := tm_hour t; tm_mday := tm_mday t;
     tm_mon := tm_mon t; tm_year := tm_year t; tm_wday := tm_wday t;
     tm_yday := tm_yday t; tm_isdst := tm_isdst t |}.
Definition set_hour (t : tm) (v : Z) : tm :=
  {| tm_sec := tm_sec t; tm_min := tm_min t; tm_hour := v; tm_mday := tm_mday t;
     tm_mon := tm_mon t; tm_year := tm_year t; tm_wday := tm_wday t;
     tm_yday := tm_yday t; tm_isdst := tm_isdst t |}.
Definition set_mday (t : tm) (v : Z) : tm :=
  {| tm_sec := tm_sec t; tm_min := tm_min t; tm_hour := tm_hour t; tm_mday := v;
     tm_mon := tm_mon t; tm_year := tm_year t; tm_wday := tm_wday t;
     tm_yday := tm_yday t; tm_isdst := tm_isdst t |}.
Definition set_mon (t : tm) (v : Z) : tm :=
  {| tm_sec := tm_sec t; tm_min := tm_min t; tm_hour := tm_hour t;
     tm_mday := tm_mday t; tm_mon := v; tm_year := tm_year t;
     tm_wday := tm_wday t; tm_yday := tm_yday t; tm_isdst := tm_isdst t |}.
Definition set_year (t : tm) (v : Z) : tm :=
  {| tm_sec := tm_sec t; tm_min := tm_min t; tm_hour := tm_hour t;
     tm_mday := tm_mday t; tm_mon := tm_mon t; tm_year := v;
     tm_wday := tm_wday t; tm_yday := tm_yday t; tm_isdst := tm_isdst t |}.
Definition set_wday (t : tm) (v : Z) : tm :=
  {| tm_sec := tm_sec t; tm_min := tm_min t; tm_hour := tm_hour t;
     tm_mday := tm_mday t; tm_mon := tm_mon t; tm_year := tm_year t;
     tm_wday := v; tm_yday := tm_yday t; tm_isdst := tm_isdst t |}.
Definition set_yday (t : tm) (v : Z) : tm :=
  {| tm_sec := tm_sec t; tm_min := tm_min t; tm_hour := tm_hour t;
     tm_mday := tm_mday t; tm_mon := tm_mon t; tm_year := tm_year t;
     tm_wday := tm_wday t; tm_yday := v; tm_isdst := tm_isdst t |}.
Definition set_isdst (t : tm) (v : Z) : tm :=
  {| tm_sec := tm_sec t; tm_min := tm_min t; tm_hour := tm_hour t;
     tm_mday := tm_mday t; tm_mon := tm_mon t; tm_year := tm_year t;
     tm_wday := tm_wday t; tm_yday := tm_yday t; tm_isdst := v |}.

(** ** Characters and C strings *)

(** A C string is a [string] without the character of code 0; reading
    at its end gives that character. *)
Definition code (c : ascii) : Z := Z.of_N (N_of_ascii c).

Definition peek (s : string) : ascii :=
  match s with
  | String c _ => c
  | EmptyString => zero
  end.

Definition at_end (s : string) : bool := code (peek s) =? 0.

(** <ctype.h> in the "C" locale. *)
Definition isdigit (c : ascii) : bool := (48 <=? code c) && (code c <=? 57).
Definition isspace (c : ascii) : bool :=
  (code c =? 32) || ((9 <=? code c) && (code c <=? 13)).
Definition isblank (c : ascii) : bool := (code c =? 32) || (code c =? 9).
Definition isupper (c : ascii) : bool := (65 <=? code c) && (code c <=? 90).
Definition tolower (c : ascii) : Z := if isupper c then code c + 32 else code c.

(** [while ( *buf != 0 && isspace((unsigned char)*buf)) buf++;] *)
Fixpoint skip_space (buf : string) : string :=
  match buf with
  | String c rest => if negb (code c =? 0) && isspace c then skip_space rest else buf
  | EmptyString => buf
  end.

(** [for (i = 0; len && *buf != 0 && isdigit((unsigned char)*buf); buf++)
    { i *= 10; i += *buf - '0'; len--; }] gives [i] and the moved
    [buf]. *)
Fixpoint digits (len : nat) (i : Z) (buf : string) : Z * string :=
  match len with
  | O => (i, buf)
  | S l =>
      match buf with
      | String c rest =>
          if negb (code c =? 0) && isdigit c
          then digits l (i * 10 + (code c - 48)) rest
          else (i, buf)
      | EmptyString => (i, buf)
      end
  end.

(** [strncasecmp(buf, ex, strlen(ex)) == 0], and then [buf + strlen(ex)]. *)
Fixpoint strip_prefix (ex buf : string) : option string :=
  match ex with
  | EmptyString => Some buf
  | String a ex' =>
      match buf with
      | String b buf' =>
          if tolower a =? tolower b then strip_prefix ex' buf' else None
      | EmptyString => None
      end
  end.

(** [for (cp = buf; *cp && isupper((unsigned char)*cp); ++cp)] gives the
    characters passed and where [cp] stops. *)
Fixpoint upper_run (buf : string) : string * string :=
  match buf with
  | String c rest =>
      if negb (code c =? 0) && isupper c
      then let '(z, r) := upper_run rest in (String c z, r)
      else (EmptyString, buf)
  | EmptyString => (EmptyString, buf)
  end.

(** ** The C library *)

(** The items strptime.c asks nl_langinfo for; [DAY_1 i] is
    [DAY_1 + i]. *)
Inductive nl_item :=
| D_T_FMT | D_FMT | T_FMT | T_FMT_AMPM | AM_STR | PM_STR
| DAY_1 (i : Z) | ABDAY_1 (i : Z) | MON_1 (i : Z) | ABMON_1 (i : Z).

(** What strptime.c takes from the C library and the locale.  [plus_fmt]
    is the format of [%+]: [nl_langinfo(_DATE_FMT)] where <langinfo.h>
    defines [_DATE_FMT], and the fixed format of the [#else] branch
    elsewhere.  [strtol s] gives the value, where [cp] stops and whether
    errno is ERANGE; [fits_time_t n] is [(long)(t = n) == n];
    [tzname0] and [tzname1] are [tzname] after tzset();
    [gmtime_r] is [None] for NULL; [localtime_r t tm] is [*tm] after the
    call. *)
Class Libc := {
  nl_langinfo : nl_item -> string;
  plus_fmt : string;
  strtol : string -> Z * string * bool;
  fits_time_t : Z -> bool;
  gmtime_r : Z -> option tm;
  tzname0 : string;
  tzname1 : string;
  timegm : tm -> Z;
  localtime_r : Z -> tm -> tm
}.

(** ** _strptime *)

(** How a call ends: the pointer it returns with [*tm] and [*GMTp] as it
    leaves them, NULL, or a step the C language leaves undefined (a read
    outside [start_of_month], the use of [week_offset] before it is set)
    or a nesting deeper than the bound. *)
Inductive parsed (A : Type) :=
| Ok (a : A)
| Null
| Undefined.
Arguments Ok {A} a.
Arguments Null {A}.
Arguments Undefined {A}.

(** [buf], the objects behind [tm] and [GMTp], and the locals that live
    across the format loop. *)
Record locals := {
  buf : string;
  tmv : tm;
  GMT : bool;
  flags : Z;
  century : Z;
  year : Z;
  day_offset : Z;
  week_offset : option Z
}.

Definition with_buf (s : locals) (b : string) : locals :=
  {| buf := b; tmv := tmv s; GMT := GMT s; flags := flags s; century := century s;
     year := year s; day_offset := day_offset s; week_offset := week_offset s |}.
Definition with_tm (s : locals) (t : tm) : locals :=
  {| buf := buf s; tmv := t; GMT := GMT s; flags := flags s; century := century s;
     year := year s; day_offset := day_offset s; week_offset := week_offset s |}.
Definition with_GMT (s : locals) (g : bool) : locals :=
  {| buf := buf s; tmv := tmv s; GMT := g; flags := flags s; century := century s;
     year := year s; day_offset := day_offset s; week_offset := week_offset s |}.
Definition with_flags (s : locals) (f : Z) : locals :=
  {| buf := buf s; tmv := tmv s; GMT := GMT s; flags := f; century := century s;
     year := year s; day_offset := day_offset s; week_offset := week_offset s |}.
Definition with_century (s : locals) (c : Z) : locals :=
  {| buf := buf s; tmv := tmv s; GMT := GMT s; flags := flags s; century := c;
     year := year s; day_offset := day_offset s; week_offset := week_offset s |}.
Definition with_year (s : locals) (y : Z) : locals :=
  {| buf := buf s; tmv := tmv s; GMT := GMT s; flags := flags s;
     century := century s; year := y; day_offset := day_offset s;
     week_offset := week_offset s |}.
Definition with_week (s : locals) (d w : Z) : locals :=
  {| buf := buf s; tmv := tmv s; GMT := GMT s; flags := flags s;
     century := century s; year := year s; day_offset := d;
     week_offset := Some w |}.

(** [flags |= m] *)
Definition flag (s : locals) (m : Z) : locals := with_flags s (Z.lor (flags s) m).

(** [if (!isdigit((unsigned char)*buf)) return (NULL);] and the digit
    loop over at most [len] characters. *)
Definition number (len : nat) (s : locals) (k : Z -> locals -> parsed locals)
    : parsed locals :=
  if isdigit (peek (buf s))
  then let '(i, b) := digits len 0 (buf s) in k i (with_buf s b)
  else Null.

(** [for (i = 0; i < DAYSPERWEEK; i++)] of [%A] and [%a], from [i] with
    [n] turns to go: the index found and [buf + len]. *)
Fixpoint day_loop {L : Libc} (n : nat) (i : Z) (b : string) : option (Z * string) :=
  match n with
  | O => None
  | S k =>
      match strip_prefix (nl_langinfo (DAY_1 i)) b with
      | Some b' => Some (i, b')
      | None =>
          match strip_prefix (nl_langinfo (ABDAY_1 i)) b with
          | Some b' => Some (i, b')
          | None => day_loop k (i + 1) b
          end
      end
  end.

(** The first loop of [%B], [%b] and [%h]; [full] tells whether its body
    compares at all ([!Oalternative || c == 'B']). *)
Fixpoint mon_loop {L : Libc} (full : bool) (n : nat) (i : Z) (b : string)
    : option (Z * string) :=
  match n with
  | O => None
  | S k =>
      match (if full then strip_prefix (nl_langinfo (MON_1 i)) b else None) with
      | Some b' => Some (i, b')
      | None => mon_loop full k (i + 1) b
      end
  end.

(** Its second loop, over the abbreviated names. *)
Fixpoint abmon_loop {L : Libc} (n : nat) (i : Z) (b : string) : option (Z * string) :=
  match n with
  | O => None
  | S k =>
      match strip_prefix (nl_langinfo (ABMON_1 i)) b with
      | Some b' => Some (i, b')
      | None => abmon_loop k (i + 1) b
      end
  end.

(** [for (len = 4; len > 0; len--)] of [%z]: [None] is [return (NULL)]. *)
Fixpoint zone_digits (len : nat) (i : Z) (b : string) : option (Z * string) :=
  match len with
  | O => Some (i, b)
  | S l =>
      if isdigit (peek b)
      then match b with
           | String c rest => zone_digits l (i * 10 + (code c - 48)) rest
           | EmptyString => None
           end
      else if (Z.of_nat len =? 2) then Some (i * 100, b)
      else None
  end.

Definition ascii_eqb (a b : ascii) : bool := code a =? code b.

Section Scan.
Context {L : Libc}.

(** The recursive calls of [_strptime] from within the format loop. *)
Variable nested : string -> string -> tm -> bool -> parsed (string * tm * bool).

(** [buf = _strptime(buf, f, tm, GMTp); if (buf == NULL) return (NULL);
    flags |= m;] *)
Definition sub (f : string) (m : Z) (s : locals) : parsed locals :=
  match nested (buf s) f (tmv s) (GMT s) with
  | Ok (b, t, g) => Ok (flag (with_GMT (with_tm (with_buf s b) t) g) m)
  | Null => Null
  | Undefined => Undefined
  end.

(** One conversion: the body of [switch (c)] for every case but ['E'] and
    ['O'], with [Oalternative] as it stands. *)
Definition conversion (c : ascii) (Oalternative : bool) (s : locals) : parsed locals :=
  let t := tmv s in
  let b := buf s in
  match c with
  | "%"%char =>
      match b with
      | String "%"%char b' => Ok (with_buf s b')
      | _ => Null
      end
  | "+"%char =>
      sub plus_fmt (Z.lor (Z.lor (Z.lor FLAG_WDAY FLAG_MONTH) FLAG_MDAY) FLAG_YEAR) s
  | "C"%char =>
      number 2 s (fun i s' => Ok (flag (with_century s' i) FLAG_YEAR))
  | "c"%char =>
      sub (nl_langinfo D_T_FMT)
        (Z.lor (Z.lor (Z.lor FLAG_WDAY FLAG_MONTH) FLAG_MDAY) FLAG_YEAR) s
  | "D"%char =>
      sub "%m/%d/%y" (Z.lor (Z.lor FLAG_MONTH FLAG_MDAY) FLAG_YEAR) s
  | "F"%char =>
      sub "%Y-%m-%d" (Z.lor (Z.lor FLAG_MONTH FLAG_MDAY) FLAG_YEAR) s
  | "R"%char => sub "%H:%M" 0 s
  | "r"%char => sub (nl_langinfo T_FMT_AMPM) 0 s
  | "T"%char => sub "%H:%M:%S" 0 s
  | "X"%char => sub (nl_langinfo T_FMT) 0 s
  | "x"%char =>
      sub (nl_langinfo D_FMT) (Z.lor (Z.lor FLAG_MONTH FLAG_MDAY) FLAG_YEAR) s
  | "j"%char =>
      number 3 s (fun i s' =>
        if (i <? 1) || (366 <? i) then Null
        else Ok (flag (with_tm s' (set_yday (tmv s') (i - 1))) FLAG_YDAY))
  | "M"%char =>
      if at_end b || isspace (peek b) then Ok s
      else number 2 s (fun i s' =>
             if 59 <? i then Null else Ok (with_tm s' (set_min (tmv s') i)))
  | "S"%char =>
      if at_end b || isspace (peek b) then Ok s
      else number 2 s (fun i s' =>
             if 60 <? i then Null else Ok (with_tm s' (set_sec (tmv s') i)))
  | "H"%char =>
      number 2 s (fun i s' =>
        if 23 <? i then Null else Ok (with_tm s' (set_hour (tmv s') i)))
  | "k"%char =>
      let '(len, s1) := if isblank (peek b)
                        then (1%nat, with_buf s (match b with
                                                 | String _ r => r
                                                 | EmptyString => b
                                                 end))
                        else (2%nat, s) in
      number len s1 (fun i s' =>
        if 23 <? i then Null else Ok (with_tm s' (set_hour (tmv s') i)))
  | "I"%char =>
      number 2 s (fun i s' =>
        if (i =? 0) || (12 <? i) then Null
        else Ok (with_tm s' (set_hour (tmv s') i)))
  | "l"%char =>
      let '(len, s1) := if isblank (peek b)
                        then (1%nat, with_buf s (match b with
                                                 | String _ r => r
                                                 | EmptyString => b
                                                 end))
                        else (2%nat, s) in
      number len s1 (fun i s' =>
        if (i =? 0) || (12 <? i) then Null
        else Ok (with_tm s' (set_hour (tmv s') i)))
  | "p"%char =>
      if 12 <? tm_hour t then Null
      else
        match strip_prefix (nl_langinfo AM_STR) b with
        | Some b' =>
            Ok (with_buf (with_tm s (if tm_hour t =? 12 then set_hour t 0 else t)) b')
        | None =>
            match strip_prefix (nl_langinfo PM_STR) b with
            | Some b' =>
                Ok (with_buf (with_tm s (if negb (tm_hour t =? 12)
                                         then set_hour t (tm_hour t + 12) else t)) b')
            | None => Null
            end
        end
  | "A"%char | "a"%char =>
      match day_loop 7 0 b with
      | Some (i, b') => Ok (flag (with_tm (with_buf s b') (set_wday t i)) FLAG_WDAY)
      | None => Null
      end
  | "U"%char =>
      number 2 s (fun i s' => if 53 <? i then Null else Ok (with_week s' TM_SUNDAY i))
  | "W"%char =>
      number 2 s (fun i s' => if 53 <? i then Null else Ok (with_week s' TM_MONDAY i))
  | "u"%char =>
      match b with
      | String d b' =>
          if isdigit d then
            let i := code d - 48 in
            if (i <? 0) || (7 <? i) || (i <? 1) then Null
            else Ok (flag (with_tm (with_buf s b') (set_wday t (Z.rem i 7))) FLAG_WDAY)
          else Null
      | EmptyString => Null
      end
  | "w"%char =>
      match b with
      | String d b' =>
          if isdigit d then
            let i := code d - 48 in
            if (i <? 0) || (7 <? i) || (6 <? i) then Null
            else Ok (flag (with_tm (with_buf s b') (set_wday t (Z.rem i 7))) FLAG_WDAY)
          else Null
      | EmptyString => Null
      end
  | "e"%char =>
      let s1 := if negb (at_end b) && isspace (peek b)
                then with_buf s (match b with
                                 | String _ r => r
                                 | EmptyString => b
                                 end)
                else s in
      number 2 s1 (fun i s' =>
        if (i =? 0) || (31 <? i) then Null
        else Ok (flag (with_tm s' (set_mday (tmv s') i)) FLAG_MDAY))
  | "d"%char =>
      number 2 s (fun i s' =>
        if (i =? 0) || (31 <? i) then Null
        else Ok (flag (with_tm s' (set_mday (tmv s') i)) FLAG_MDAY))
  | "B"%char | "b"%char | "h"%char =>
      let found :=
        match mon_loop (negb Oalternative || ascii_eqb c "B") 12 0 b with
        | Some r => Some r
        | None => if negb Oalternative then abmon_loop 12 0 b else None
        end in
      match found with
      | Some (i, b') => Ok (flag (with_buf (with_tm s (set_mon t i)) b') FLAG_MONTH)
      | None => Null
      end
  | "m"%char =>
      number 2 s (fun i s' =>
        if (i <? 1) || (12 <? i) then Null
        else Ok (flag (with_tm s' (set_mon (tmv s') (i - 1))) FLAG_MONTH))
  | "s"%char =>
      let '(n, cp, erange) := strtol b in
      if erange || negb (fits_time_t n) then Null
      else match gmtime_r n with
           | None => Null
           | Some t' =>
               Ok (flag (with_GMT (with_tm (with_buf s cp) t') true)
                     (Z.lor (Z.lor (Z.lor (Z.lor FLAG_YDAY FLAG_WDAY) FLAG_MONTH)
                                FLAG_MDAY) FLAG_YEAR))
           end
  | "Y"%char =>
      if at_end b || isspace (peek b) then Ok s
      else number 4 s (fun i s' =>
             Ok (flag (with_year (with_century s' (Z.quot i 100)) (Z.rem i 100))
                   FLAG_YEAR))
  | "y"%char =>
      if at_end b || isspace (peek b) then Ok s
      else number 2 s (fun i s' => Ok (flag (with_year s' (Z.rem i 100)) FLAG_YEAR))
  | "Z"%char =>
      let '(zonestr, cp) := upper_run b in
      match zonestr with
      | EmptyString => Ok s
      | _ =>
          if String.eqb zonestr "GMT" || String.eqb zonestr "UTC"
          then Ok (with_buf (with_GMT s true) cp)
          else if String.eqb zonestr tzname0
          then Ok (with_buf (with_tm s (set_isdst t 0)) cp)
          else if String.eqb zonestr tzname1
          then Ok (with_buf (with_tm s (set_isdst t 1)) cp)
          else Null
      end
  | "z"%char =>
      match b with
      | String sg b1 =>
          if ascii_eqb sg "+" || ascii_eqb sg "-" then
            let sign := if ascii_eqb sg "+" then 1 else -1 in
            match zone_digits 4 0 b1 with
            | None => Null
            | Some (i, b2) =>
                if (1400 <? i) || ((sign =? -1) && (1200 <? i))
                   || (60 <=? Z.rem i 100)
                then Null
                else
                  let t1 := set_hour t (tm_hour t - sign * Z.quot i 100) in
                  let t2 := set_min t1 (tm_min t1 - sign * Z.rem i 100) in
                  Ok (with_GMT (with_tm (with_buf s b2) t2) true)
            end
          else Null
      | EmptyString => Null
      end
  | "n"%char | "t"%char => Ok (with_buf s (skip_space b))
  | _ => Null
  end.

(** [while ( *ptr != 0) { ... }]: [alt] is [None] where the loop reads an
    ordinary character, and holds [Ealternative] and [Oalternative] at
    [label:], where it reads the character of a conversion. *)
Fixpoint format_loop (fmt : string) (alt : option (bool * bool)) (s : locals)
    : parsed locals :=
  match alt with
  | None =>
      match fmt with
      | EmptyString => Ok s
      | String c ptr =>
          if code c =? 0 then Ok s
          else if ascii_eqb c "%" then format_loop ptr (Some (false, false)) s
          else if isspace c then format_loop ptr None (with_buf s (skip_space (buf s)))
          else
            match buf s with
            | String c' b' => if ascii_eqb c c' then format_loop ptr None (with_buf s b') else Null
            | EmptyString => Null
            end
      end
  | Some (Ealternative, Oalternative) =>
      match fmt with
      | EmptyString => Null
      | String c ptr =>
          if ascii_eqb c "E" then
            if Ealternative || Oalternative then format_loop ptr None s
            else format_loop ptr (Some (true, Oalternative)) s
          else if ascii_eqb c "O" then
            if Ealternative || Oalternative then format_loop ptr None s
            else format_loop ptr (Some (Ealternative, true)) s
          else
            match conversion c Oalternative s with
            | Ok s' => format_loop ptr None s'
            | Null => Null
            | Undefined => Undefined
            end
      end
  end.

End Scan.

(** [while (tm->tm_yday >= start_of_month[leap][i]) i++;] from [i], with
    [n] reads to go; [None] is a read outside the row. *)
Fixpoint month_of (n : nat) (leap : bool) (yday i : Z) : option Z :=
  match n with
  | O => None
  | S k =>
      match start_of_month leap i with
      | None => None
      | Some d => if d <=? yday then month_of k leap yday (i + 1) else Some i
      end
  end.

(** The three blocks that follow the format loop. *)
Definition settle_year (s : locals) : locals :=
  if negb (century s =? -1) || negb (year s =? -1) then
    let y := if year s =? -1 then 0 else year s in
    let y := if century s =? -1
             then (if y <? 69 then y + 100 else y)
             else y + (century s * 100 - TM_YEAR_BASE) in
    with_tm s (set_year (tmv s) y)
  else s.

Definition settle_yday (s : locals) : parsed locals :=
  let t := tmv s in
  if negb (has (flags s) FLAG_YDAY) && has (flags s) FLAG_YEAR then
    if Z.land (flags s) (Z.lor FLAG_MONTH FLAG_MDAY) =? Z.lor FLAG_MONTH FLAG_MDAY then
      match start_of_month (isleap (tm_year t + TM_YEAR_BASE)) (tm_mon t) with
      | None => Undefined
      | Some d => Ok (flag (with_tm s (set_yday t (d + (tm_mday t - 1)))) FLAG_YDAY)
      end
    else if negb (day_offset s =? -1) then
      match week_offset s with
      | None => Undefined
      | Some week_offset =>
          let fwo := first_wday_of (tm_year t + TM_YEAR_BASE) in
          if (week_offset =? 0) && (fwo =? day_offset s) then Null
          else
            let tmpwday := if has (flags s) FLAG_WDAY then tm_wday t
                           else day_offset s in
            let tmpyday := Z.rem (7 - fwo + day_offset s) 7
                           + (week_offset - 1) * 7
                           + Z.rem (tmpwday - day_offset s + 7) 7 in
            if tmpyday <? 0 then
              if has (flags s) FLAG_WDAY then Null
              else Ok (flag (with_tm s (set_yday t 0)) FLAG_YDAY)
            else Ok (flag (with_tm s (set_yday t tmpyday)) FLAG_YDAY)
      end
    else Ok s
  else Ok s.

Definition settle_rest (s : locals) : parsed locals :=
  if Z.land (flags s) (Z.lor FLAG_YEAR FLAG_YDAY) =? Z.lor FLAG_YEAR FLAG_YDAY then
    let r1 :=
      if negb (has (flags s) FLAG_MONTH) then
        let t := tmv s in
        match month_of 14 (isleap (tm_year t + TM_YEAR_BASE)) (tm_yday t) 0 with
        | None => Undefined
        | Some i =>
            if 12 <? i then
              match start_of_month (isleap (tm_year t + TM_YEAR_BASE)) 12 with
              | None => Undefined
              | Some d =>
                  let t1 := set_yday t (tm_yday t - d) in
                  let t2 := set_year t1 (tm_year t1 + 1) in
                  Ok (flag (with_tm s (set_mon t2 (1 - 1))) FLAG_MONTH)
              end
            else Ok (flag (with_tm s (set_mon t (i - 1))) FLAG_MONTH)
        end
      else Ok s in
    match r1 with
    | Ok s1 =>
        let r2 :=
          if negb (has (flags s1) FLAG_MDAY) then
            let t := tmv s1 in
            match start_of_month (isleap (tm_year t + TM_YEAR_BASE)) (tm_mon t) with
            | None => Undefined
            | Some d =>
                Ok (flag (with_tm s1 (set_mday t (tm_yday t - d + 1))) FLAG_MDAY)
            end
          else Ok s1 in
        match r2 with
        | Ok s2 =>
            if negb (has (flags s2) FLAG_WDAY) then
              let t := tmv s2 in
              let wday_offset := first_wday_of (tm_year t + TM_YEAR_BASE) in
              Ok (flag (with_tm s2 (set_wday t (Z.rem (wday_offset + tm_yday t) 7)))
                    FLAG_WDAY)
            else Ok s2
        | other => other
        end
    | other => other
    end
  else Ok s.

(** [_strptime], with at most [depth] calls nested in one another. *)
Fixpoint _strptime {L : Libc} (depth : nat) (b fmt : string) (t : tm) (g : bool)
    : parsed (string * tm * bool) :=
  match depth with
  | O => Undefined
  | S d =>
      match format_loop (_strptime d) fmt None
              {| buf := b; tmv := t; GMT := g; flags := FLAG_NONE; century := -1;
                 year := -1; day_offset := -1; week_offset := None |} with
      | Ok s =>
          match settle_yday (settle_year s) with
          | Ok s1 =>
              match settle_rest s1 with
              | Ok s2 => Ok (buf s2, tmv s2, GMT s2)
              | Null => Null
              | Undefined => Undefined
              end
          | Null => Null
          | Undefined => Undefined
          end
      | Null => Null
      | Undefined => Undefined
      end
  end.

(** [strptime_bsd]: the pointer returned and [*tm] after the call. *)
Definition strptime_bsd {L : Libc} (depth : nat) (b fmt : string) (t : tm)
    : parsed (string * tm) :=
  match _strptime depth b fmt t false with
  | Ok (ret, t', gmt) =>
      if gmt then Ok (ret, localtime_r (timegm t') t') else Ok (ret, t')
  | Null => Null
  | Undefined => Undefined
  end.

(** A C library in the POSIX locale, for the examples; its gmtime_r
    knows the epoch only. *)
Definition posix_names (it : nl_item) : string :=
  match it with
  | D_T_FMT => "%a %b %e %H:%M:%S %Y"
  | D_FMT => "%m/%d/%y"
  | T_FMT => "%H:%M:%S"
  | T_FMT_AMPM => "%I:%M:%S %p"
  | AM_STR => "AM"
  | PM_STR => "PM"
  | DAY_1 i => nth (Z.to_nat i) ["Sunday"; "Monday"; "Tuesday"; "Wednesday";
                                 "Thursday"; "Friday"; "Saturday"] ""
  | ABDAY_1 i => nth (Z.to_nat i) ["Sun"; "Mon"; "Tue"; "Wed"; "Thu"; "Fri"; "Sat"] ""
  | MON_1 i => nth (Z.to_nat i) ["January"; "February"; "March"; "April"; "May";
                                 "June"; "July"; "August"; "September"; "October";
                                 "November"; "December"] ""
  | ABMON_1 i => nth (Z.to_nat i) ["Jan"; "Feb"; "Mar"; "Apr"; "May"; "Jun"; "Jul";
                                   "Aug"; "Sep"; "Oct"; "Nov"; "Dec"] ""
  end%string.

Definition tm0 : tm :=
  {| tm_sec := 0; tm_min := 0; tm_hour := 0; tm_mday := 0; tm_mon := 0;
     tm_year := 0; tm_wday := 0; tm_yday := 0; tm_isdst := 0 |}.

Definition posix_libc : Libc :=
  {| nl_langinfo := posix_names;
     plus_fmt := "%a %b %e %H:%M:%S %Z %Y";
     strtol := fun s => let '(n, cp) := digits 18 0 s in (n, cp, false);
     fits_time_t := fun _ => true;
     gmtime_r := fun n =>
       if n =? 0
       then Some {| tm_sec := 0; tm_min := 0; tm_hour := 0; tm_mday := 1;
                    tm_mon := 0; tm_year := 70; tm_wday := 4; tm_yday := 0;
                    tm_isdst := 0 |}
       else None;
     tzname0 := "UTC"; tzname1 := "UTC";
     timegm := fun _ => 0;
     localtime_r := fun _ t => t |}.


(** ** Counting days *)

(** The length of a year, from the last column of [start_of_month]. *)
Definition days_in_year (y : Z) : Z :=
  match start_of_month (isleap y) 12 with
  | Some d => d
  | None => 0
  end.

(** The days in the years 1 to [n] of the Gregorian calendar. *)
Fixpoint days_before (n : nat) : Z :=
  match n with
  | O => 0
  | S k => days_before k + days_in_year (Z.of_nat k + 1)
  end.

(** The length of month [m] (0 is January), from two neighbouring
    columns of [start_of_month]. *)
Definition days_in_month (leap : bool) (m : Z) : Z :=
  match start_of_month leap m, start_of_month leap (m + 1) with
  | Some a, Some b => b - a
  | _, _ => 0
  end.

(** [n] written with [w] decimal digits, zeros first. *)
Fixpoint decimal (w : nat) (n : Z) : string :=
  match w with
  | O => EmptyString
  | S k =>
      String (ascii_of_N (Z.to_N (48 + n / 10 ^ Z.of_nat k)))
             (decimal k (n mod 10 ^ Z.of_nat k))
  end.

(** The first day of month [m] as a day of the year, from
    [start_of_month]. *)
Definition month_start (leap : bool) (m : Z) : Z :=
  match start_of_month leap m with
  | Some a => a
  | None => 0
  end.

(** [*tm] once a date was stored in it: day [D] of month [M] of year [Y],
    the day of the year [yday], and the day of the week obtained by
    counting the days since Monday 1 January of year 1. *)
Definition dated (t : tm) (Y M D yday : Z) : tm :=
  {| tm_sec := tm_sec t; tm_min := tm_min t; tm_hour := tm_hour t;
     tm_mday := D; tm_mon := M - 1; tm_year := Y - TM_YEAR_BASE;
     tm_wday := (TM_MONDAY + days_before (Z.to_nat (Y - 1)) + yday) mod 7;
     tm_yday := yday; tm_isdst := tm_isdst t |}.

(** * Properties *)

(** ** The monad *)

Lemma bind_Done {A B} (c : M A) (k : A -> M B) w a w' :
  c w = Done a w' -> bind c k w = k a w'.
Proof. intros H. unfold bind. now rewrite H. Qed.

Lemma bind_Halt {A B} (c : M A) (k : A -> M B) w h w' :
  c w = Halt h w' -> bind c k w = Halt h w'.
Proof. intros H. unfold bind. now rewrite H. Qed.

Lemma add_out_nil w : add_out w [] = w.
Proof. destruct w. unfold add_out. simpl. now rewrite app_nil_r. Qed.

Lemma add_out_app w a b : add_out (add_out w a) b = add_out w (a ++ b).
Proof. unfold add_out. simpl. now rewrite app_assoc. Qed.

Lemma emit_eq e w : emit e w = Done tt (add_out w [e]).
Proof. reflexivity. Qed.

Lemma written_app a b : written (a ++ b) = written a ++ written b.
Proof.
  induction a as [|e a IH]; simpl; [reflexivity|].
  destruct e; simpl; rewrite IH; try reflexivity.
  now rewrite app_assoc.
Qed.

Lemma written_Put bs : written (map Put bs) = bs.
Proof. induction bs; simpl; congruence. Qed.

Lemma put_all_unlimited bs w :
  wr_budget w = None -> put_all bs w = Done tt (add_out w (map Put bs)).
Proof.
  revert w. induction bs as [|b t IH]; intros w Hw; simpl.
  - now rewrite add_out_nil.
  - unfold bind, putchar. rewrite Hw.
    rewrite IH by reflexivity.
    unfold add_out. simpl. rewrite <- app_assoc, Hw. reflexivity.
Qed.

(** ** Ranges *)

Lemma len_nonneg bs : 0 <= len bs.
Proof. unfold len. lia. Qed.

Lemma slice_all bs a :
  0 <= a -> slice bs a (len bs - a) = skipn (Z.to_nat a) bs.
Proof.
  intros Ha. unfold slice, len.
  apply firstn_all2. rewrite length_skipn. lia.
Qed.

Lemma slice_nil bs a n : n <= 0 -> slice bs a n = [].
Proof.
  intros Hn. unfold slice.
  replace (Z.to_nat n) with O by lia. reflexivity.
Qed.

Lemma slice_cons bs a n b :
  0 <= a -> 0 < n -> nth_error bs (Z.to_nat a) = Some b ->
  slice bs a n = b :: slice bs (a + 1) (n - 1).
Proof.
  intros Ha Hn Hb. unfold slice.
  replace (Z.to_nat n) with (S (Z.to_nat (n - 1))) by lia.
  replace (Z.to_nat (a + 1)) with (S (Z.to_nat a)) by lia.
  revert Hb. generalize (Z.to_nat a) as k. clear.
  induction bs as [|x bs IH]; intros [|k] H; simpl in *; try discriminate.
  - now inversion H.
  - now apply IH.
Qed.

Lemma nth_error_slice bs a n k :
  0 <= a -> (k < Z.to_nat n)%nat ->
  nth_error (slice bs a n) k = nth_error bs (Z.to_nat a + k).
Proof.
  intros Ha Hk. unfold slice.
  rewrite nth_error_firstn.
  destruct (Nat.ltb_spec k (Z.to_nat n)); [|lia].
  now rewrite nth_error_skipn.
Qed.

Lemma length_slice_le bs a n : (length (slice bs a n) <= length bs)%nat.
Proof.
  unfold slice. rewrite length_firstn, length_skipn. lia.
Qed.

(** ** Reading a stream *)

Lemma readable_fuel f : (length (readable f) < rd_fuel f)%nat.
Proof.
  unfold readable, rd_fuel. destruct (f_eof f); simpl; [lia|].
  pose proof (length_slice_le (data f) (pos f) (stop_pos f - pos f)). lia.
Qed.

(** One [getc]: either a byte, and the rest is what the moved stream has to
    give, or EOF on the stream that reading leaves. *)
Lemma getc_cases f :
  0 <= pos f ->
  (exists b f', getc f = (Some b, f') /\ readable f = b :: readable f' /\
                after_read f' = after_read f /\ pos f' = pos f + 1 /\
                data f' = data f /\ rd_fault f' = rd_fault f /\
                f_eof f' = false /\ f_eof f = false /\
                f' = with_pos f (pos f + 1) (f_eof f) (f_err f))
  \/ (getc f = (None, after_read f) /\ readable f = []).
Proof.
  intros Hpos. unfold getc, readable, after_read.
  destruct (f_eof f) eqn:Heof; [right; auto|].
  unfold faulty, stop_pos. rewrite ?Heof.
  destruct (rd_fault f) as [p|] eqn:Hp.
  - destruct (Z.leb_spec p (pos f)) as [Hle|Hlt].
    + right.
      replace (Z.max (pos f) (Z.min p (len (data f)))) with (pos f) by lia.
      destruct (Z.leb_spec p (pos f)); [|lia].
      split; [reflexivity|]. apply slice_nil. lia.
    + destruct (Z.ltb_spec (pos f) 0); [lia|].
      destruct (nth_error (data f) (Z.to_nat (pos f))) as [b|] eqn:Hb.
      * left. exists b. eexists. split; [reflexivity|].
        assert (Hlen : pos f < len (data f)).
        { unfold len. assert (Hn : nth_error (data f) (Z.to_nat (pos f)) <> None) by congruence.
          apply nth_error_Some in Hn. lia. }
        unfold with_pos; simpl. rewrite Hp.
        replace (Z.max (pos f + 1) (Z.min p (len (data f))))
          with (Z.max (pos f) (Z.min p (len (data f)))) by lia.
        repeat split; try reflexivity.
        replace (Z.max (pos f) (Z.min p (len (data f))) - (pos f + 1))
          with (Z.max (pos f) (Z.min p (len (data f))) - pos f - 1) by lia.
        apply slice_cons; [lia|lia|exact Hb].
      * right.
        apply nth_error_None in Hb.
        assert (Hlen : len (data f) <= pos f) by (unfold len; lia).
        replace (Z.max (pos f) (Z.min p (len (data f)))) with (pos f) by lia.
        destruct (Z.leb_spec p (pos f)); [lia|].
        split; [reflexivity|]. apply slice_nil. lia.
  - destruct (Z.ltb_spec (pos f) 0); [lia|].
    destruct (nth_error (data f) (Z.to_nat (pos f))) as [b|] eqn:Hb.
    + left. exists b. eexists. split; [reflexivity|].
      assert (Hlen : pos f < len (data f)).
      { unfold len. assert (Hn : nth_error (data f) (Z.to_nat (pos f)) <> None) by congruence.
        apply nth_error_Some in Hn. lia. }
      unfold with_pos; simpl. rewrite Hp.
      replace (Z.max (pos f + 1) (Z.min (len (data f)) (len (data f))))
        with (Z.max (pos f) (Z.min (len (data f)) (len (data f)))) by lia.
      repeat split; try reflexivity.
      replace (Z.max (pos f) (Z.min (len (data f)) (len (data f))) - (pos f + 1))
        with (Z.max (pos f) (Z.min (len (data f)) (len (data f))) - pos f - 1) by lia.
      apply slice_cons; [lia|lia|exact Hb].
    + right.
      apply nth_error_None in Hb.
      assert (Hlen : len (data f) <= pos f) by (unfold len; lia).
      replace (Z.max (pos f) (Z.min (len (data f)) (len (data f)))) with (pos f) by lia.
      split; [reflexivity|]. apply slice_nil. lia.
Qed.

Lemma after_read_pos f : 0 <= pos f -> 0 <= pos (after_read f).
Proof.
  intros H. unfold after_read.
  destruct (f_eof f); [exact H|].
  destruct (match rd_fault f with Some p => p <=? stop_pos f | None => false end);
    unfold with_pos, stop_pos; simpl; lia.
Qed.

Lemma after_read_data f : data (after_read f) = data f.
Proof.
  unfold after_read. destruct (f_eof f); [reflexivity|].
  now destruct (match rd_fault f with Some p => p <=? stop_pos f | None => false end).
Qed.

Lemma after_read_fileno f : fileno (after_read f) = fileno f.
Proof.
  unfold after_read. destruct (f_eof f); [reflexivity|].
  now destruct (match rd_fault f with Some p => p <=? stop_pos f | None => false end).
Qed.

(** A stream without failing reads ends on end-of-file, error indicator
    untouched. *)
Lemma after_read_sound f :
  rd_fault f = None -> f_eof f = false ->
  after_read f = with_pos f (Z.max (pos f) (len (data f))) true (f_err f).
Proof.
  intros Hf He. unfold after_read, stop_pos. rewrite He, Hf.
  now rewrite Z.min_id.
Qed.

Lemma readable_sound f :
  rd_fault f = None -> f_eof f = false -> 0 <= pos f ->
  readable f = skipn (Z.to_nat (pos f)) (data f).
Proof.
  intros Hf He Hp. unfold readable, stop_pos. rewrite He, Hf, Z.min_id.
  unfold slice. apply firstn_all2. rewrite length_skipn. unfold len. lia.
Qed.

Ltac getc_step f H :=
  let b := fresh "b" in let f' := fresh "f'" in
  let Hg := fresh "Hg" in let Hr := fresh "Hr" in let Ha := fresh "Ha" in
  let Hp := fresh "Hp" in let Hd := fresh "Hd" in let Hq := fresh "Hq" in
  let He := fresh "He" in let He0 := fresh "He0" in let Hf := fresh "Hf" in
  destruct (getc_cases f H) as
    [(b & f' & Hg & Hr & Ha & Hp & Hd & Hq & He & He0 & Hf) | (Hg & Hr)];
  rewrite Hg.

(** The copy loop writes what the stream has to give, in order. *)
Lemma drain_loop_eq n f w :
  0 <= pos f -> (length (readable f) < n)%nat ->
  drain_loop n f w = bind (put_all (readable f)) (fun _ => ret (after_read f)) w.
Proof.
  revert f w. induction n as [|n IH]; intros f w Hpos Hn; [lia|].
  simpl. getc_step f Hpos.
  - rewrite Hr in *. simpl in *. unfold bind.
    destruct (putchar b w) as [[|] w'|h w']; try reflexivity.
    rewrite IH by lia. unfold bind. rewrite Ha. reflexivity.
  - rewrite Hr. reflexivity.
Qed.

Lemma skip_to_eof_eq n f :
  0 <= pos f -> (length (readable f) < n)%nat ->
  skip_to_eof n f = Some (after_read f).
Proof.
  revert f. induction n as [|n IH]; intros f Hpos Hn; [lia|].
  simpl. getc_step f Hpos.
  - rewrite Hr in Hn. simpl in Hn. rewrite IH by lia. now rewrite Ha.
  - reflexivity.
Qed.

Lemma read_all_eq n f acc :
  0 <= pos f -> (length (readable f) < n)%nat ->
  read_all n f acc = Some (after_read f, acc ++ readable f).
Proof.
  revert f acc. induction n as [|n IH]; intros f acc Hpos Hn; [lia|].
  simpl. getc_step f Hpos.
  - rewrite Hr in *. simpl in Hn. rewrite IH by lia.
    now rewrite Ha, <- app_assoc.
  - now rewrite Hr, app_nil_r.
Qed.

(** The FBYTES loop on a stream that gives at least [off] more bytes
    moves the position by [off] and reads nothing else. *)
Lemma fbytes_loop_within n f off :
  0 <= pos f -> 0 <= off <= len (readable f) -> (Z.to_nat off < n)%nat ->
  fbytes_loop n f off = Some (with_pos f (pos f + off) (f_eof f) (f_err f), false).
Proof.
  revert f off. induction n as [|n IH]; intros f off Hpos Hoff Hn; [lia|].
  simpl. destruct (Z.eqb_spec off 0) as [->|Hne].
  - rewrite Z.add_0_r. destruct f; reflexivity.
  - getc_step f Hpos.
    + rewrite Hr in Hoff. unfold len in *. simpl in Hoff.
      rewrite IH by (unfold len; lia).
      rewrite Hf. unfold with_pos; simpl.
      do 3 f_equal. lia.
    + rewrite Hr in Hoff. unfold len in Hoff. simpl in Hoff. lia.
Qed.

(** On a stream that gives fewer than [off] bytes the loop ends on EOF. *)
Lemma fbytes_loop_short n f off :
  0 <= pos f -> len (readable f) < off -> (length (readable f) < n)%nat ->
  fbytes_loop n f off = Some (after_read f, true).
Proof.
  revert f off. induction n as [|n IH]; intros f off Hpos Hoff Hn; [lia|].
  simpl. pose proof (len_nonneg (readable f)).
  destruct (Z.eqb_spec off 0) as [->|Hne]; [lia|].
  getc_step f Hpos.
  - rewrite Hr in *. unfold len in *. simpl in *.
    rewrite IH by (unfold len; lia). now rewrite Ha.
  - reflexivity.
Qed.

(** ** The copy loop of forward *)

Section Locate.
Context {MW : MapWindow}.

Lemma forward_drain_eq f fn w :
  0 <= pos f ->
  forward_drain f fn w =
  bind (put_all (readable f))
       (fun _ => if ferror (after_read f)
                 then bind (ierr fn) (fun _ => ret (after_read f))
                 else bind fflush (fun _ => ret (after_read f))) w.
Proof.
  intros Hpos. unfold forward_drain.
  unfold bind at 1. rewrite drain_loop_eq by (auto using readable_fuel).
  unfold bind. destruct (put_all (readable f) w); reflexivity.
Qed.

(** With nothing left to read the copy loop only flushes. *)
Lemma forward_drain_empty f fn w :
  0 <= pos f -> readable f = [] -> f_err (after_read f) = false ->
  forward_drain f fn w = Done (after_read f) (add_out w [Flush]).
Proof.
  intros Hpos Hr He. rewrite forward_drain_eq by assumption.
  rewrite Hr. unfold ferror. rewrite He. reflexivity.
Qed.

(** On a sound stream and a standard output that takes everything, the
    copy loop writes the rest of the stream and flushes. *)
Lemma forward_drain_sound f fn w :
  0 <= pos f -> f_err (after_read f) = false -> wr_budget w = None ->
  forward_drain f fn w =
  Done (after_read f) (add_out w (map Put (readable f) ++ [Flush])).
Proof.
  intros Hpos He Hw. rewrite forward_drain_eq by assumption.
  unfold bind at 1. rewrite put_all_unlimited by assumption.
  unfold ferror. rewrite He. unfold bind, fflush. rewrite emit_eq.
  unfold ret. now rewrite add_out_app.
Qed.

Lemma readable_at_end f :
  len (data f) <= pos f -> readable f = [].
Proof.
  intros H. unfold readable. destruct (f_eof f); [reflexivity|].
  unfold slice. rewrite skipn_all2 by (unfold len in H; lia).
  now rewrite firstn_nil.
Qed.

Lemma readable_after_read f : 0 <= pos f -> readable (after_read f) = [].
Proof.
  intros Hpos. unfold after_read.
  destruct (f_eof f) eqn:He; [unfold readable; now rewrite He|].
  destruct (match rd_fault f with Some p => p <=? stop_pos f | None => false end) eqn:Hm.
  - unfold readable, stop_pos; simpl.
    destruct (rd_fault f) as [p|]; [|discriminate].
    apply Z.leb_le in Hm. unfold stop_pos in Hm.
    apply slice_nil. lia.
  - reflexivity.
Qed.

Lemma after_read_idem f : 0 <= pos f -> after_read (after_read f) = after_read f.
Proof.
  intros Hpos.
  destruct (f_eof f) eqn:He; [unfold after_read; now rewrite !He|].
  assert (Hu : after_read f =
               if match rd_fault f with Some p => p <=? stop_pos f | None => false end
               then with_pos f (stop_pos f) false true
               else with_pos f (stop_pos f) true (f_err f)).
  { unfold after_read. now rewrite He. }
  rewrite Hu.
  destruct (match rd_fault f with Some p => p <=? stop_pos f | None => false end) eqn:Hm.
  - destruct (rd_fault f) as [p|] eqn:Hp; [|discriminate].
    apply Z.leb_le in Hm.
    unfold after_read, stop_pos in *; simpl. rewrite Hp.
    replace (Z.max (Z.max (pos f) (Z.min p (len (data f)))) (Z.min p (len (data f))))
      with (Z.max (pos f) (Z.min p (len (data f)))) by lia.
    destruct (Z.leb_spec p (Z.max (pos f) (Z.min p (len (data f))))); [reflexivity|lia].
  - reflexivity.
Qed.

(** C4: forward-by-bytes positioning.  (1) With offset 0 the switch does
    nothing.  (2) On a regular file the offset is clamped to the file size
    and the stream is moved there by an absolute seek.  (3) Hence any
    offset beyond the size of the file gives what the size itself gives,
    and the copy loop writes nothing.  (4) On a stream that is not a
    regular file exactly [N] bytes are read and dropped, or all that is
    left when the stream is shorter, and nothing is reported. *)
Theorem C4_forward_bytes (f : FILE) (fn : string) (N : Z) (sb : stat) (w : world) :
  0 <= pos f -> f_eof f = false -> f_err f = false -> rd_fault f = None ->
  0 <= N ->
  forward_locate f fn FBYTES 0 sb w = Done (Located f) w
  /\ (regular sb = true -> seek_ok f = true -> N <> 0 ->
      forward_locate f fn FBYTES N sb w =
      Done (Located (with_pos f (Z.min N (st_size sb)) false (f_err f))) w)
  /\ (st_isreg sb = true -> st_size sb = len (data f) -> seek_ok f = true ->
      st_size sb < N ->
      forward f fn FBYTES N sb w = forward f fn FBYTES (st_size sb) sb w
      /\ exists f', forward f fn FBYTES N sb w = Done f' (add_out w [Flush])
                    /\ readable f' = [])
  /\ (regular sb = false ->
      forward_locate f fn FBYTES N sb w =
      Done (Located (if N <=? len (readable f)
                     then with_pos f (pos f + N) false false
                     else after_read f)) w).
Proof.
  intros Hpos Heof Herr Hfault HN.
  assert (Hare : f_err (after_read f) = false).
  { rewrite after_read_sound by assumption. exact Herr. }
  split; [reflexivity|]. split; [|split].
  - intros Hreg Hseek HN0. unfold forward_locate.
    destruct (Z.eqb_spec N 0); [contradiction|]. rewrite Hreg.
    unfold regular in Hreg. apply andb_true_iff in Hreg as [_ Hsz].
    apply Z.ltb_lt in Hsz.
    unfold fseeko. rewrite Hseek.
    destruct (Z.ltb_spec (st_size sb) N).
    + destruct (Z.leb_spec 0 (st_size sb)); [|lia]. simpl.
      now rewrite Z.min_r by lia.
    + destruct (Z.leb_spec 0 N); [|lia]. simpl.
      now rewrite Z.min_l by lia.
  - intros Hreg Hsize Hseek Hbig.
    pose proof (len_nonneg (data f)) as Hlen.
    unfold forward, forward_locate.
    destruct (Z.eqb_spec N 0); [lia|].
    unfold regular. rewrite Hreg, andb_true_l.
    destruct (Z.ltb_spec 0 (st_size sb)) as [Hpos_sz|Hzero].
    + (* a file with content: both offsets seek to its end *)
      destruct (Z.eqb_spec (st_size sb) 0); [lia|].
      destruct (Z.ltb_spec (st_size sb) N); [|lia].
      destruct (Z.ltb_spec (st_size sb) (st_size sb)); [lia|].
      split; [reflexivity|].
      unfold fseeko. rewrite Hseek.
      destruct (Z.leb_spec 0 (st_size sb)); [|lia]. simpl.
      set (f1 := with_pos f (st_size sb) false (f_err f)).
      assert (Hr1 : readable f1 = []).
      { apply readable_at_end. subst f1. simpl. lia. }
      exists (after_read f1). unfold bind, ret.
      rewrite forward_drain_empty; subst f1; simpl; try lia; auto.
      * split; [reflexivity|]. apply readable_after_read. simpl. lia.
      * rewrite after_read_sound by (simpl; auto). exact Herr.
    + (* an empty file: the read loop meets EOF at once *)
      assert (Hsz0 : st_size sb = 0) by lia.
      rewrite Hsz0. rewrite Z.eqb_refl.
      assert (Hr : readable f = []).
      { apply readable_at_end. lia. }
      rewrite fbytes_loop_short; auto using readable_fuel;
        [|rewrite Hr; unfold len; simpl; lia].
      unfold or_fault, eof_check, ferror. rewrite Hare.
      unfold bind, ret.
      rewrite !forward_drain_empty; auto using after_read_pos, readable_after_read.
      * rewrite after_read_idem by assumption.
        split; [reflexivity|].
        exists (after_read f). split; [reflexivity|].
        now apply readable_after_read.
      * now rewrite after_read_idem.
  - intros Hreg. unfold forward_locate. rewrite Hreg.
    destruct (Z.eqb_spec N 0) as [->|HN0].
    + pose proof (len_nonneg (readable f)).
      destruct (Z.leb_spec 0 (len (readable f))); [|lia].
      rewrite Z.add_0_r. destruct f; simpl in *; subst; reflexivity.
    + destruct (Z.leb_spec N (len (readable f))).
      * rewrite fbytes_loop_within; auto.
        -- unfold or_fault. now rewrite Heof, Herr.
        -- pose proof (readable_fuel f). unfold len in *. lia.
      * rewrite fbytes_loop_short; auto using readable_fuel.
        unfold or_fault, eof_check, ferror. now rewrite Hare.
Qed.

End Locate.

(** C4 at a regular file of ten bytes asked for offset 30, and at a pipe
    of ten bytes asked for offset 3. *)
Lemma C4_forward_bytes_witness :
  (exists f', @forward window4 (fresh_stream 3 a_log) "a.log" FBYTES 30
                (stat_reg 1 a_log) world0
              = Done f' (add_out world0 [Flush]) /\ readable f' = [])
  /\ @forward_locate window4 (pipe_stream 0 a_log) "stdin" FBYTES 3 stat_fifo world0
     = Done (Located (with_pos (pipe_stream 0 a_log) 3 false false)) world0.
Proof.
  split.
  - apply (@C4_forward_bytes window4 (fresh_stream 3 a_log) "a.log" 30
             (stat_reg 1 a_log) world0);
      simpl; try reflexivity; lia.
  - apply (@C4_forward_bytes window4 (pipe_stream 0 a_log) "stdin" 3 stat_fifo world0);
      simpl; try reflexivity; lia.
Defined.


(** ** Reverse by bytes *)

Section ReverseBytes.
Context {MW : MapWindow}.

Lemma len_zero_nil (bs : list byte) : len bs = 0 -> bs = [].
Proof. unfold len. intros H. apply length_zero_iff_nil. lia. Qed.

(** C5: reverse-by-bytes positioning of a regular file.  On a freshly
    opened stream the switch seeks to [st_size - N] when [N <= st_size]
    and leaves the stream at the start of the file otherwise; the copy
    loop then writes the last [min N st_size] bytes of the file. *)
Theorem C5_reverse_bytes (f : FILE) (fn : string) (N : Z) (sb : stat) (w : world) :
  pos f = 0 -> f_eof f = false -> f_err f = false -> rd_fault f = None ->
  seek_ok f = true -> st_isreg sb = true -> st_size sb = len (data f) ->
  0 <= N -> wr_budget w = None ->
  (regular sb = true ->
   forward_locate f fn RBYTES N sb w =
   Done (Located (if N <=? st_size sb
                  then with_pos f (st_size sb - N) false (f_err f)
                  else f)) w)
  /\ exists f',
       forward f fn RBYTES N sb w =
       Done f' (add_out w (map Put (lastn (Z.to_nat (Z.min N (st_size sb))) (data f))
                           ++ [Flush])).
Proof.
  intros Hpos Heof Herr Hfault Hseek Hreg Hsize HN Hw.
  pose proof (len_nonneg (data f)) as Hlen.
  assert (Hlocate : regular sb = true ->
    forward_locate f fn RBYTES N sb w =
    Done (Located (if N <=? st_size sb
                   then with_pos f (st_size sb - N) false (f_err f)
                   else f)) w).
  { intros Hr. unfold forward_locate. rewrite Hr.
    destruct (Z.leb_spec N (st_size sb)); [|reflexivity].
    unfold fseeko. rewrite Hseek.
    replace (len (data f) + - N) with (st_size sb - N) by lia.
    destruct (Z.leb_spec 0 (st_size sb - N)); [|lia]. reflexivity. }
  split; [exact Hlocate|].
  unfold forward. destruct (regular sb) eqn:Hr.
  - unfold bind at 1. rewrite Hlocate by reflexivity.
    destruct (Z.leb_spec N (st_size sb)).
    + set (f1 := with_pos f (st_size sb - N) false (f_err f)).
      exists (after_read f1).
      rewrite forward_drain_sound; subst f1; simpl; try lia; auto.
      * rewrite readable_sound by (simpl; auto; lia). simpl.
        unfold lastn.
        replace (Z.to_nat (st_size sb - N))
          with (length (data f) - Z.to_nat (Z.min N (st_size sb)))%nat
          by (unfold len in *; lia).
        reflexivity.
      * rewrite after_read_sound by (simpl; auto). exact Herr.
    + exists (after_read f).
      rewrite forward_drain_sound; try lia; auto.
      * rewrite readable_sound by (auto; lia). rewrite Hpos.
        unfold lastn.
        replace (length (data f) - Z.to_nat (Z.min N (st_size sb)))%nat
          with (Z.to_nat 0) by (unfold len in *; lia).
        reflexivity.
      * rewrite after_read_sound by assumption. exact Herr.
  - (* an empty regular file is read like a pipe *)
    unfold regular in Hr. rewrite Hreg in Hr. simpl in Hr.
    apply Z.ltb_ge in Hr.
    assert (Hd : data f = []) by (apply len_zero_nil; lia).
    assert (Hrd : readable f = []) by (apply readable_at_end; lia).
    assert (Hare : f_err (after_read f) = false).
    { rewrite after_read_sound by assumption. exact Herr. }
    exists (after_read f).
    replace (lastn (Z.to_nat (Z.min N (st_size sb))) (data f)) with (@nil byte)
      by (rewrite Hd; unfold lastn; now rewrite skipn_nil).
    unfold forward_locate, regular. rewrite Hreg.
    destruct (Z.ltb_spec 0 (st_size sb)); [lia|]. rewrite andb_false_r.
    destruct (Z.eqb_spec N 0).
    + rewrite skip_to_eof_eq by (auto using readable_fuel; lia).
      unfold or_fault, eof_check, ferror. rewrite Hare.
      unfold bind, ret.
      rewrite forward_drain_empty;
        auto using readable_after_read, after_read_pos with zarith;
        rewrite ?after_read_idem; auto with zarith;
        try (apply after_read_pos; lia); try (apply readable_after_read; lia).
    + unfold bytes. rewrite read_all_eq by (auto using readable_fuel; lia).
      unfold ferror. rewrite Hare, Hrd.
      unfold lastn. simpl. rewrite ?skipn_nil.
      unfold bind, ret. simpl.
      rewrite forward_drain_empty;
        rewrite ?after_read_idem; auto with zarith;
        try (apply after_read_pos; lia); try (apply readable_after_read; lia).
Qed.

End ReverseBytes.

(** C5 at "1\n2\n3\n4\n5\n" asked for its last 3 bytes. *)
Lemma C5_reverse_bytes_witness :
  @forward_locate window4 (fresh_stream 3 a_log) "a.log" RBYTES 3
    (stat_reg 1 a_log) world0
  = Done (Located (with_pos (fresh_stream 3 a_log) 7 false false)) world0
  /\ exists f',
       @forward window4 (fresh_stream 3 a_log) "a.log" RBYTES 3
         (stat_reg 1 a_log) world0
       = Done f' (add_out world0 (map Put [x0a; x35; x0a] ++ [Flush])).
Proof.
  pose proof (@C5_reverse_bytes window4 (fresh_stream 3 a_log) "a.log" 3 (stat_reg 1 a_log)
                world0 eq_refl eq_refl eq_refl eq_refl eq_refl eq_refl eq_refl
                ltac:(lia) eq_refl) as [H1 H2].
  split; [exact (H1 eq_refl) | exact H2].
Defined.


(** ** Lines *)

Lemma split_lines_nonempty bs : bs <> [] -> split_lines bs <> [].
Proof.
  destruct bs as [|b t]; [congruence|]. intros _. simpl.
  destruct (is_nl b); [discriminate|].
  destruct (split_lines t); discriminate.
Qed.

Lemma concat_split_lines bs : concat (split_lines bs) = bs.
Proof.
  induction bs as [|b t IH]; simpl; [reflexivity|].
  destruct (is_nl b); simpl; [now rewrite IH|].
  destruct (split_lines t) as [|l ls] eqn:Hs; simpl in *.
  - now rewrite <- IH.
  - now rewrite <- IH.
Qed.

(** A terminator inside a sequence separates the lines before it from the
    lines after it. *)
Lemma split_lines_app_nl l1 b l2 :
  is_nl b = true ->
  split_lines (l1 ++ b :: l2) = split_lines (l1 ++ [b]) ++ split_lines l2.
Proof.
  intros Hb. induction l1 as [|x l1 IH]; simpl.
  - now rewrite Hb.
  - destruct (is_nl x); [now rewrite IH|].
    rewrite IH.
    destruct (split_lines (l1 ++ [b])) as [|l ls] eqn:Hs; [|reflexivity].
    exfalso. apply (split_lines_nonempty (l1 ++ [b])); [|exact Hs].
    now destruct l1.
Qed.

Lemma split_lines_cons_length b suf :
  suf <> [] ->
  length (split_lines (b :: suf)) =
  if is_nl b then S (length (split_lines suf)) else length (split_lines suf).
Proof.
  intros Hs. simpl. destruct (is_nl b); [reflexivity|].
  destruct (split_lines suf) eqn:E; [|reflexivity].
  exfalso. now apply (split_lines_nonempty suf).
Qed.

Lemma split_lines_single b : length (split_lines [b]) = 1%nat.
Proof. simpl. now destruct (is_nl b). Qed.

Lemma lastn_all {A} n (l : list A) : (length l <= n)%nat -> lastn n l = l.
Proof.
  intros H. unfold lastn. now replace (length l - n)%nat with O by lia.
Qed.

Lemma lastn_app_exact {A} (a b : list A) : lastn (length b) (a ++ b) = b.
Proof.
  unfold lastn. rewrite length_app.
  replace (length a + length b - length b)%nat with (length a + 0)%nat by lia.
  rewrite skipn_app, Nat.add_0_r, skipn_all.
  replace (length a - length a)%nat with O by lia. reflexivity.
Qed.

Lemma skipn_nth_cons {A} (l : list A) j x :
  nth_error l j = Some x -> skipn j l = x :: skipn (S j) l.
Proof.
  revert j. induction l as [|y l IH]; intros [|j] H; simpl in *; try discriminate.
  - now inversion H.
  - now apply IH.
Qed.

Lemma firstn_skipn_nth {A} (l : list A) j x :
  nth_error l j = Some x -> l = firstn j l ++ x :: skipn (S j) l.
Proof.
  intros H. rewrite <- (firstn_skipn j l) at 1.
  now rewrite (skipn_nth_cons l j x H).
Qed.

(** The backward scan of the specification finds where the last [N] lines
    start.  [n] bytes are left to examine, [k] terminators are still
    wanted, and the bytes from [n] on hold [N + 1 - k] lines. *)
Lemma back_scan_last_lines d N n k :
  (n < length d)%nat -> 1 <= k ->
  Z.of_nat (length (split_lines (skipn n d))) + k = N + 1 ->
  skipn (Z.to_nat (back_scan d n k)) d = concat (lastn (Z.to_nat N) (split_lines d)).
Proof.
  revert k. induction n as [|j IH]; intros k Hn Hk Hcount.
  - simpl in *. rewrite lastn_all by lia. now rewrite concat_split_lines.
  - simpl.
    destruct (nth_error d j) as [b|] eqn:Hb;
      [|apply nth_error_None in Hb; lia].
    assert (Hsuf : skipn (S j) d <> []).
    { intros E. apply (f_equal (@length byte)) in E.
      rewrite length_skipn in E. simpl in E. lia. }
    pose proof (split_lines_cons_length b _ Hsuf) as Hlen.
    rewrite <- (skipn_nth_cons d j b Hb) in Hlen.
    destruct (is_nl b) eqn:Hnl.
    + destruct (Z.eqb_spec (k - 1) 0) as [Hk1|Hk1].
      * replace (Z.to_nat (Z.of_nat j + 1)) with (S j) by lia.
        rewrite (firstn_skipn_nth d j b Hb) at 2.
        rewrite split_lines_app_nl by exact Hnl.
        replace (Z.to_nat N) with (length (split_lines (skipn (S j) d))) by lia.
        rewrite lastn_app_exact. now rewrite concat_split_lines.
      * apply IH; lia.
    + apply IH; lia.
Qed.

(** Showing the file from the offset the specification's scan finds shows
    its last [N] lines. *)
Lemma findStartOffset_last_lines d N :
  d <> [] -> 1 <= N ->
  skipn (Z.to_nat (findStartOffset d N)) d = last_lines N d.
Proof.
  intros Hd HN. unfold findStartOffset, last_lines.
  assert (Hlen : (0 < length d)%nat) by (destruct d; simpl; [congruence|lia]).
  apply back_scan_last_lines; [lia|lia|].
  assert (Hone : length (skipn (length d - 1) d) = 1%nat)
    by (rewrite length_skipn; lia).
  destruct (skipn (length d - 1) d) as [|x [|y t]]; simpl in Hone; try lia.
  rewrite split_lines_single. lia.
Qed.

Lemma back_scan_bounds d n k : 0 <= back_scan d n k <= Z.of_nat n.
Proof.
  revert k. induction n as [|j IH]; intros k; simpl; [lia|].
  destruct (nth_error d j) as [b|]; [|specialize (IH k); lia].
  destruct (is_nl b); [|specialize (IH k); lia].
  destruct (k - 1 =? 0); [lia|]. specialize (IH (k - 1)). lia.
Qed.

(** ** The windowed scan against the scan of the specification *)

Lemma to_int_small x : 0 <= x <= INT_MAX -> to_int x = x.
Proof.
  unfold to_int, INT_MAX. intros H.
  rewrite Z.mod_small; lia.
Qed.

Lemma length_slice_exact d a n :
  0 <= a -> 0 <= n -> a + n <= len d -> length (slice d a n) = Z.to_nat n.
Proof.
  intros Ha Hn Hlen. unfold slice, len in *.
  rewrite length_firstn, length_skipn. lia.
Qed.

(** One pass over a window does what the specification's scan does over
    the same bytes of the file: it either runs out of window with the
    count it has left, or stops after the terminator that brings the count
    to zero. *)
Lemma scan_window_back d a L n off :
  0 <= a -> 0 <= L -> a + L <= len d -> (n <= Z.to_nat L)%nat ->
  exists i off',
    scan_window (slice d a L) n off = Some (i, off')
    /\ ((i = -1 /\ back_scan d (Z.to_nat a + n) off = back_scan d (Z.to_nat a) off')
        \/ (0 <= i /\ back_scan d (Z.to_nat a + n) off = a + i + 1)).
Proof.
  intros Ha HL Hlen. revert off. induction n as [|k IH]; intros off Hn.
  - simpl. exists (-1), off. split; [reflexivity|]. left.
    now rewrite Nat.add_0_r.
  - simpl. rewrite nth_error_slice by lia.
    replace (Z.to_nat a + S k)%nat with (S (Z.to_nat a + k)) by lia.
    simpl.
    destruct (nth_error d (Z.to_nat a + k)) as [b|] eqn:Hb;
      [|apply nth_error_None in Hb; unfold len in Hlen; lia].
    destruct (is_nl b).
    + destruct (off - 1 =? 0).
      * exists (Z.of_nat k), (off - 1). split; [reflexivity|]. right. lia.
      * apply IH. lia.
    + apply IH. lia.
Qed.

Section Rlines.
Context {MW : MapWindow} {WC : WindowContract MW}.

(** Under the contract the while loop of rlines ends: either a maparound
    fails, or the loop is left with [curoff] one below the offset the
    specification's scan gives.  The window is always moved before it is
    read: [curoff < mapoff] holds at each loop head. *)
Lemma rlines_loop_cases d size : forall n map curoff off,
  maxoff map = size -> size <= len d ->
  -1 <= curoff < size -> curoff < mapoff map ->
  (Z.to_nat (curoff + 1) <= n)%nat ->
  (rlines_loop n d map curoff off = ScanMapFail
   /\ exists m o, 0 <= o < maxoff m /\ maparound d m o = None)
  \/ exists map' c,
       rlines_loop n d map curoff off = ScanEnd map' c
       /\ c + 1 = back_scan d (Z.to_nat (curoff + 1)) off
       /\ maxoff map' = size.
Proof.
  induction n as [|k IH]; intros map curoff off Hmax Hsize Hcur Hbelow Hfuel.
  - assert (curoff = -1) by lia. subst curoff. simpl.
    right. exists map, (-1). now repeat split.
  - simpl. destruct (Z.ltb_spec curoff 0) as [Hneg|Hnonneg].
    + assert (curoff = -1) by lia. subst curoff.
      right. exists map, (-1). now repeat split.
    + destruct (Z.ltb_spec curoff (mapoff map)); [|lia].
      destruct (maparound d map curoff) as [map'|] eqn:Hmap.
      2: { left. split; [reflexivity|]. exists map, curoff. split; [lia|exact Hmap]. }
      destruct (maparound_covers d map curoff map') as (Hmax' & Hok & Hcov);
        [lia|lia|exact Hmap|].
      destruct Hok as (Hstart & Hoff0 & Hmaplen & Hend).
      rewrite Hstart.
      rewrite to_int_small by lia.
      unfold for_scan.
      destruct (Z.ltb_spec (curoff - mapoff map') 0); [lia|].
      destruct (scan_window_back d (mapoff map') (maplen map')
                  (Z.to_nat (curoff - mapoff map' + 1)) off)
        as (i & off' & Hscan & Hres); try lia.
      rewrite Hscan.
      replace (Z.to_nat (mapoff map') + Z.to_nat (curoff - mapoff map' + 1))%nat
        with (Z.to_nat (curoff + 1)) in Hres by lia.
      destruct Hres as [[Hi Hback] | [Hi Hback]].
      * subst i. destruct (Z.leb_spec 0 (-1)); [lia|].
        destruct (IH map' (mapoff map' + -1) off')
          as [[Hloop Hfail] | (m2 & c & Hloop & Hc & Hm2)]; try lia.
        -- left. split; [exact Hloop|exact Hfail].
        -- right. exists m2, c. split; [exact Hloop|]. split; [|exact Hm2].
           rewrite Hc, Hback. f_equal. lia.
      * destruct (Z.leb_spec 0 i); [|lia].
        right. exists map', (mapoff map' + i). split; [reflexivity|]. lia.
Qed.

Lemma rlines_loop_back d : forall n map curoff off,
  (forall m o, 0 <= o < maxoff m -> maparound d m o <> None) ->
  maxoff map = len d -> -1 <= curoff < len d -> curoff < mapoff map ->
  (Z.to_nat (curoff + 1) <= n)%nat ->
  exists map' c,
    rlines_loop n d map curoff off = ScanEnd map' c
    /\ c + 1 = back_scan d (Z.to_nat (curoff + 1)) off
    /\ maxoff map' = len d.
Proof.
  intros n map curoff off Hnofail Hmax Hcur Hbelow Hfuel.
  destruct (rlines_loop_cases d (len d) n map curoff off)
    as [[_ (m & o & Ho & Hnone)] | H]; try lia; auto.
  now apply Hnofail in Hnone.
Qed.

Lemma rlines_scan_back f off sb :
  (forall m o, 0 <= o < maxoff m -> maparound (data f) m o <> None) ->
  st_size sb = len (data f) -> 0 < st_size sb ->
  exists map,
    rlines_scan f off sb = ScanEnd map (findStartOffset (data f) off - 1)
    /\ maxoff map = len (data f).
Proof.
  intros Hmaps Hsize Hpos. unfold rlines_scan.
  edestruct (rlines_loop_back (data f) (Z.to_nat (st_size sb)))
    as (map & c & Hloop & Hc & Hmaxoff); [exact Hmaps| | | | |].
  5: { exists map. rewrite Hloop. split; [|exact Hmaxoff].
       f_equal. unfold findStartOffset.
       replace (length (data f) - 1)%nat with (Z.to_nat (st_size sb - 2 + 1))
         by (unfold len in Hsize; lia).
       lia. }
  all: simpl; lia.
Qed.

Lemma rlines_sound f fn off sb w :
  window_works MW (data f) ->
  st_size sb = len (data f) -> 0 < st_size sb ->
  seek_ok f = true -> munmap_ok w = true ->
  exists w',
    rlines f fn off sb w = Done (with_pos f (st_size sb) false (f_err f)) w'
    /\ out w' = out w ++ [WriteRange (skipn (Z.to_nat (findStartOffset (data f) off)) (data f))]
    /\ last w' = last w /\ wr_budget w' = wr_budget w
    /\ munmap_ok w' = true /\ view w' = None.
Proof.
  intros [Hmaps Hprints] Hsize Hpos Hseek Hunmap.
  unfold rlines. destruct (Z.eqb_spec (st_size sb) 0); [lia|].
  destruct (rlines_scan_back f off sb Hmaps Hsize Hpos) as (map & Hscan & Hmaxoff).
  rewrite Hscan.
  pose proof (back_scan_bounds (data f) (length (data f) - 1) off) as Hb.
  fold (findStartOffset (data f) off) in Hb.
  replace (findStartOffset (data f) off - 1 + 1) with (findStartOffset (data f) off)
    by lia.
  destruct (mapprint (data f) map (findStartOffset (data f) off)
              (st_size sb - findStartOffset (data f) off))
    as [[map' bs] rc] eqn:Hprint.
  pose proof (Hprints map (findStartOffset (data f) off)
                (st_size sb - findStartOffset (data f) off)
                ltac:(lia) ltac:(unfold len in *; lia) ltac:(lia)) as Hrc.
  rewrite Hprint in Hrc. simpl in Hrc. subst rc.
  assert (Hbs : bs = skipn (Z.to_nat (findStartOffset (data f) off)) (data f)).
  { rewrite <- (slice_all (data f) (findStartOffset (data f) off)) by lia.
    rewrite <- Hsize.
    eapply mapprint_writes; [| | |exact Hprint]; unfold len in *; lia. }
  subst bs.
  unfold fseeko. rewrite Hseek.
  destruct (Z.leb_spec 0 (st_size sb)); [|lia].
  unfold bind, emit, set_view, munmap, ret, held. simpl.
  destruct (start map'); simpl; rewrite ?Hunmap; eexists; repeat split.
Qed.

End Rlines.

(** ** The sample window primitive meets the contract *)

Lemma window_at_contract W mmap_ok wr_ok :
  0 < W <= INT_MAX -> WindowContract (window_at W mmap_ok wr_ok).
Proof.
  intros HW. split; simpl.
  - intros d m o m' Ho Hmax Hmap. unfold maparound_at in Hmap.
    pose proof (Z.mod_pos_bound o W ltac:(lia)) as Hmod.
    destruct (mmap_ok (o - o mod W) && (0 <? Z.min W (maxoff m - (o - o mod W))))
      eqn:Hc; [|discriminate].
    apply andb_true_iff in Hc as [_ Hml]. apply Z.ltb_lt in Hml.
    inversion Hmap; subst m'; clear Hmap. unfold window_ok; simpl.
    pose proof (Z.mod_le o W ltac:(lia) ltac:(lia)).
    repeat split; try reflexivity; lia.
  - intros d m a n m' bs Ha Hn Hlen Hp. unfold mapprint_at in Hp.
    destruct (Z.leb_spec n 0).
    + inversion Hp; subst. symmetry. apply slice_nil. lia.
    + destruct (match start m with
                | Some _ => Some m
                | None => maparound_at W mmap_ok d m a
                end); [|inversion Hp].
      destruct wr_ok; inversion Hp. reflexivity.
Qed.

Lemma window_at_works W d :
  0 < W -> window_works (window_at W (fun _ => true) true) d.
Proof.
  intros HW. split; simpl.
  - intros m o Ho. unfold maparound_at.
    pose proof (Z.mod_pos_bound o W ltac:(lia)) as Hmod.
    destruct (Z.ltb_spec 0 (Z.min W (maxoff m - (o - o mod W)))); [|lia].
    discriminate.
  - intros m a n Ha Hn Hmax. unfold mapprint_at.
    destruct (Z.leb_spec n 0); [reflexivity|].
    destruct (start m); [reflexivity|].
    unfold maparound_at.
    pose proof (Z.mod_pos_bound a W ltac:(lia)) as Hmod.
    destruct (Z.ltb_spec 0 (Z.min W (maxoff m - (a - a mod W)))); [|lia].
    reflexivity.
Qed.

(** ** Where the scan of the specification stops *)

Lemma firstn_S_nth {A} (l : list A) j x :
  nth_error l j = Some x -> firstn (S j) l = firstn j l ++ [x].
Proof.
  revert j. induction l as [|y l IH]; intros [|j] H; simpl in *; try discriminate.
  - now inversion H.
  - f_equal. now apply IH.
Qed.

Lemma count_nl_snoc l b :
  count_nl (l ++ [b]) = count_nl l + (if is_nl b then 1 else 0).
Proof.
  unfold count_nl. rewrite filter_app, length_app. simpl.
  destruct (is_nl b); simpl; lia.
Qed.

Lemma slice_snoc d a n b :
  0 <= a -> 0 <= n -> nth_error d (Z.to_nat (a + n)) = Some b ->
  slice d a (n + 1) = slice d a n ++ [b].
Proof.
  intros Ha Hn Hb. unfold slice.
  replace (Z.to_nat (n + 1)) with (S (Z.to_nat n)) by lia.
  apply firstn_S_nth. rewrite nth_error_skipn.
  now replace (Z.to_nat a + Z.to_nat n)%nat with (Z.to_nat (a + n)) by lia.
Qed.

(** The offset the scan gives is 0 when the bytes it examined hold fewer
    than [k] terminators; otherwise it is just after a terminator, and
    from that terminator on the examined bytes hold exactly [k]. *)
Lemma back_scan_count d n k :
  (n <= length d)%nat -> 1 <= k ->
  let s := back_scan d n k in
  (s = 0 /\ count_nl (firstn n d) < k)
  \/ (0 < s <= Z.of_nat n
      /\ (exists b, nth_error d (Z.to_nat (s - 1)) = Some b /\ is_nl b = true)
      /\ count_nl (slice d (s - 1) (Z.of_nat n - (s - 1))) = k).
Proof.
  revert k. induction n as [|j IH]; intros k Hn Hk; cbn [back_scan].
  - left. split; [reflexivity|]. unfold count_nl. simpl. lia.
  - cbv zeta in IH.
    destruct (nth_error d j) as [b|] eqn:Hb;
      [|apply nth_error_None in Hb; lia].
    rewrite (firstn_S_nth d j b Hb), count_nl_snoc.
    assert (Hsnoc : forall s, 0 < s <= Z.of_nat j ->
              slice d (s - 1) (Z.of_nat (S j) - (s - 1)) =
              slice d (s - 1) (Z.of_nat j - (s - 1)) ++ [b]).
    { intros s Hs.
      replace (Z.of_nat (S j) - (s - 1)) with (Z.of_nat j - (s - 1) + 1) by lia.
      apply slice_snoc; try lia.
      now replace (Z.to_nat (s - 1 + (Z.of_nat j - (s - 1)))) with j by lia. }
    destruct (is_nl b) eqn:Hnl.
    + destruct (Z.eqb_spec (k - 1) 0) as [Hk1|Hk1].
      * right. split; [lia|]. split.
        -- exists b. now replace (Z.to_nat (Z.of_nat j + 1 - 1)) with j by lia.
        -- replace (Z.of_nat (S j) - (Z.of_nat j + 1 - 1)) with (0 + 1) by lia.
           rewrite (slice_snoc d _ 0 b); try lia.
           ++ rewrite slice_nil by lia. unfold count_nl. simpl. rewrite Hnl.
              simpl. lia.
           ++ now replace (Z.to_nat (Z.of_nat j + 1 - 1 + 0)) with j by lia.
      * destruct (IH (k - 1) ltac:(lia) ltac:(lia)) as [[Hs Hc] | (Hs & Hb' & Hc)].
        -- left. split; [exact Hs|lia].
        -- right. split; [lia|]. split; [exact Hb'|].
           rewrite Hsnoc by lia. rewrite count_nl_snoc, Hnl. lia.
    + destruct (IH k ltac:(lia) ltac:(lia)) as [[Hs Hc] | (Hs & Hb' & Hc)].
      * left. split; [exact Hs|lia].
      * right. split; [lia|]. split; [exact Hb'|].
        rewrite Hsnoc by lia. rewrite count_nl_snoc, Hnl. lia.
Qed.

(** ** Reverse by lines *)

Section ReverseLines.
Context {MW : MapWindow} {WC : WindowContract MW}.

Lemma written_add_out w w1 es tail :
  out w1 = out w ++ es -> written es = tail ->
  written (out (add_out w1 [Flush])) = written (out w) ++ tail.
Proof.
  intros Ho He. simpl. rewrite Ho, !written_app, He. simpl.
  now rewrite app_nil_r.
Qed.

(** forward on a regular file with content, asked for its last [N >= 1]
    lines: rlines writes the tail and leaves nothing to the copy loop. *)
Lemma forward_rlines f fn N sb w :
  window_works MW (data f) ->
  f_err f = false -> rd_fault f = None -> seek_ok f = true ->
  regular sb = true -> st_size sb = len (data f) -> N <> 0 ->
  munmap_ok w = true ->
  exists w1,
    let f1 := with_pos f (st_size sb) false false in
    rlines f fn N sb w = Done f1 w1
    /\ out w1 = out w ++ [WriteRange (skipn (Z.to_nat (findStartOffset (data f) N)) (data f))]
    /\ readable f1 = []
    /\ forward_drain f1 fn w1 = Done (after_read f1) (add_out w1 [Flush])
    /\ forward f fn RLINES N sb w = Done (after_read f1) (add_out w1 [Flush]).
Proof.
  intros Hworks Herr Hfault Hseek Hreg Hsize HN Hunmap.
  assert (Hpos : 0 < st_size sb).
  { unfold regular in Hreg. apply andb_true_iff in Hreg as [_ H].
    now apply Z.ltb_lt. }
  destruct (rlines_sound f fn N sb w Hworks Hsize Hpos Hseek Hunmap)
    as (w1 & Hrl & Hout & _).
  rewrite Herr in Hrl.
  exists w1. cbv zeta.
  set (f1 := with_pos f (st_size sb) false false) in *.
  assert (Hr1 : readable f1 = []).
  { apply readable_at_end. subst f1; simpl. lia. }
  assert (Hd1 : forward_drain f1 fn w1 = Done (after_read f1) (add_out w1 [Flush])).
  { apply forward_drain_empty; auto.
    - subst f1; simpl; lia.
    - rewrite after_read_sound by (subst f1; simpl; auto). reflexivity. }
  repeat split; auto.
  unfold forward, forward_locate. rewrite Hreg.
  destruct (Z.eqb_spec N 0); [contradiction|].
  unfold bind, ret. rewrite Hrl. exact Hd1.
Qed.

Lemma last_lines_nil N : last_lines N [] = [].
Proof. unfold last_lines, lastn. simpl. now rewrite ?skipn_nil. Qed.

Lemma last_lines_zero d : last_lines 0 d = [].
Proof.
  unfold last_lines, lastn. simpl. rewrite Nat.sub_0_r, skipn_all. reflexivity.
Qed.

(** forward on any regular file, asked for its last [N] lines. *)
Lemma forward_last_lines f fn N sb w :
  window_works MW (data f) ->
  pos f = 0 -> f_eof f = false -> f_err f = false -> rd_fault f = None ->
  seek_ok f = true -> st_isreg sb = true -> st_size sb = len (data f) ->
  0 <= N -> munmap_ok w = true ->
  exists f' w', forward f fn RLINES N sb w = Done f' w'
                /\ written (out w') = written (out w) ++ last_lines N (data f).
Proof.
  intros Hworks Hpos Heof Herr Hfault Hseek Hisreg Hsize HN Hunmap.
  pose proof (len_nonneg (data f)) as Hlen.
  destruct (regular sb) eqn:Hreg.
  - assert (Hsz : 0 < st_size sb).
    { unfold regular in Hreg. apply andb_true_iff in Hreg as [_ H].
      now apply Z.ltb_lt. }
    destruct (Z.eq_dec N 0) as [->|HN0].
    + (* no line wanted: seek to the end *)
      unfold forward, forward_locate. rewrite Hreg. simpl.
      unfold fseeko. rewrite Hseek.
      destruct (Z.leb_spec 0 (len (data f) + 0)); [|lia]. simpl.
      set (f1 := with_pos f (len (data f) + 0) false (f_err f)).
      exists (after_read f1), (add_out w [Flush]).
      unfold bind, ret. rewrite forward_drain_empty.
      * split; [reflexivity|]. simpl.
        rewrite written_app, last_lines_zero. reflexivity.
      * subst f1; simpl; lia.
      * apply readable_at_end. subst f1; simpl; lia.
      * rewrite after_read_sound by (subst f1; simpl; auto). exact Herr.
    + destruct (forward_rlines f fn N sb w) as (w1 & _ & Hout & _ & _ & Hfw); auto.
      eexists _, _. split; [exact Hfw|].
      apply (written_add_out w w1 _ _ Hout). simpl. rewrite app_nil_r.
      apply findStartOffset_last_lines; [|lia].
      intros E. rewrite E in Hsize. unfold len in Hsize. simpl in Hsize. lia.
  - (* an empty regular file is read like a pipe *)
    unfold regular in Hreg. rewrite Hisreg in Hreg. simpl in Hreg.
    apply Z.ltb_ge in Hreg.
    assert (Hd : data f = []) by (apply len_zero_nil; lia).
    assert (Hrd : readable f = []) by (apply readable_at_end; lia).
    assert (Hare : f_err (after_read f) = false).
    { rewrite after_read_sound by assumption. exact Herr. }
    exists (after_read f), (add_out w [Flush]).
    replace (last_lines N (data f)) with (@nil byte)
      by (rewrite Hd; symmetry; apply last_lines_nil).
    split; [|simpl; now rewrite written_app].
    unfold forward, forward_locate, regular. rewrite Hisreg.
    destruct (Z.ltb_spec 0 (st_size sb)); [lia|]. rewrite andb_false_r.
    destruct (Z.eqb_spec N 0).
    + rewrite skip_to_eof_eq by (auto using readable_fuel; lia).
      unfold or_fault, eof_check, ferror. rewrite Hare.
      unfold bind, ret.
      rewrite forward_drain_empty;
        rewrite ?after_read_idem; auto with zarith;
        try (apply after_read_pos; lia); try (apply readable_after_read; lia).
    + unfold lines. rewrite read_all_eq by (auto using readable_fuel; lia).
      unfold ferror. rewrite Hare, Hrd. cbn [app].
      rewrite last_lines_nil.
      unfold bind, ret. simpl.
      rewrite forward_drain_empty;
        rewrite ?after_read_idem; auto with zarith;
        try (apply after_read_pos; lia); try (apply readable_after_read; lia).
Qed.

(** C1: reverse-by-lines positioning of a regular file.  (1) For every
    [N >= 0], forward writes exactly the last [N] lines of the file, the
    whole file when it has fewer.  For [N = 0] there is nothing to count
    and the stream is put at the end of the file.  (2) For [N >= 1] on a
    file with content
    the scan of rlines, which starts below the final byte and counts down
    at each line terminator, ends one byte below the offset that the scan
    in the words of the specification gives; that offset is 0 when the
    scan meets the start of the file first, and otherwise lies just after
    the terminator at which the count reaches zero; the file from that
    offset is its last [N] lines.  (3) On "1\n2\n3\n4\n5\n" with [N = 2]
    the offset is 6, just after "3\n", and forward writes "4\n5\n". *)
Theorem C1_reverse_lines (f : FILE) (fn : string) (N : Z) (sb : stat) (w : world) :
  window_works MW (data f) ->
  pos f = 0 -> f_eof f = false -> f_err f = false -> rd_fault f = None ->
  seek_ok f = true -> st_isreg sb = true -> st_size sb = len (data f) ->
  0 <= N -> munmap_ok w = true ->
  (exists f' w', forward f fn RLINES N sb w = Done f' w'
                 /\ written (out w') = written (out w) ++ last_lines N (data f))
  /\ (N = 0 -> 0 < st_size sb ->
      forward_locate f fn RLINES N sb w
      = Done (Located (with_pos f (len (data f)) false (f_err f))) w)
  /\ (1 <= N -> 0 < st_size sb ->
      let s := findStartOffset (data f) N in
      (exists map, rlines_scan f N sb = ScanEnd map (s - 1))
      /\ ((s = 0 /\ count_nl (firstn (length (data f) - 1) (data f)) < N)
          \/ (0 < s < len (data f)
              /\ (exists b, nth_error (data f) (Z.to_nat (s - 1)) = Some b
                            /\ is_nl b = true)
              /\ count_nl (slice (data f) (s - 1) (len (data f) - 1 - (s - 1))) = N))
      /\ skipn (Z.to_nat s) (data f) = last_lines N (data f))
  /\ (data f = a_log -> N = 2 ->
      (exists map, rlines_scan f N sb = ScanEnd map 5)
      /\ exists f' w', forward f fn RLINES N sb w = Done f' w'
                       /\ written (out w') = written (out w) ++ [x34; x0a; x35; x0a]).
Proof.
  intros Hworks Hpos Heof Herr Hfault Hseek Hisreg Hsize HN Hunmap.
  pose proof (forward_last_lines f fn N sb w Hworks Hpos Heof Herr Hfault Hseek
                Hisreg Hsize HN Hunmap) as Hfw.
  assert (Hscan : 0 < st_size sb ->
            exists map, rlines_scan f N sb
                        = ScanEnd map (findStartOffset (data f) N - 1)).
  { intros Hsz. destruct Hworks as [Hmaps _].
    destruct (rlines_scan_back f N sb Hmaps Hsize Hsz) as (map & Hs & _).
    now exists map. }
  split; [exact Hfw|]. split; [|split].
  - intros -> Hsz. unfold forward_locate, regular.
    rewrite Hisreg. destruct (Z.ltb_spec 0 (st_size sb)); [|lia].
    cbn [andb]. rewrite Z.eqb_refl. unfold fseeko. rewrite Hseek.
    pose proof (len_nonneg (data f)).
    rewrite Z.add_0_r. destruct (Z.leb_spec 0 (len (data f))); [|lia].
    reflexivity.
  - intros HN1 Hsz. cbv zeta. split; [now apply Hscan|]. split.
    + unfold findStartOffset.
      destruct (back_scan_count (data f) (length (data f) - 1) N ltac:(lia) HN1)
        as [H|(Hs & Hb & Hc)]; [left; exact H|right].
      unfold len in *. split; [lia|]. split; [exact Hb|].
      now replace (Z.of_nat (length (data f)) - 1)
        with (Z.of_nat (length (data f) - 1)) by lia.
    + apply findStartOffset_last_lines; [|lia].
      intros E. rewrite E in Hsize. unfold len in Hsize. simpl in Hsize. lia.
  - intros Hd ->. split.
    + destruct Hscan as (map & Hs).
      * rewrite Hsize, Hd. reflexivity.
      * exists map. rewrite Hs, Hd. reflexivity.
    + destruct Hfw as (f' & w' & Hf & Hw). exists f', w'.
      split; [exact Hf|]. rewrite Hw, Hd. reflexivity.
Qed.

(** C10: after rlines has written the tail of a regular file from the
    mapped window, the stream stands at the end of the file, so the copy
    loop of forward has nothing to read: it adds a flush and no byte, and
    the trace of forward holds the tail exactly once. *)
Theorem C10_no_second_copy (f : FILE) (fn : string) (N : Z) (sb : stat) (w : world) :
  window_works MW (data f) ->
  f_err f = false -> rd_fault f = None -> seek_ok f = true ->
  regular sb = true -> st_size sb = len (data f) -> 1 <= N ->
  munmap_ok w = true ->
  let tail := skipn (Z.to_nat (findStartOffset (data f) N)) (data f) in
  exists f1 w1,
    rlines f fn N sb w = Done f1 w1
    /\ out w1 = out w ++ [WriteRange tail]
    /\ pos f1 = len (data f)
    /\ readable f1 = []
    /\ forward_drain f1 fn w1 = Done (after_read f1) (add_out w1 [Flush])
    /\ exists f' w',
         forward f fn RLINES N sb w = Done f' w'
         /\ out w' = out w ++ [WriteRange tail; Flush].
Proof.
  intros Hworks Herr Hfault Hseek Hreg Hsize HN Hunmap tail.
  destruct (forward_rlines f fn N sb w) as (w1 & Hrl & Hout & Hr & Hd & Hfw);
    auto; [lia|].
  eexists _, w1. split; [exact Hrl|]. split; [exact Hout|].
  split; [simpl; lia|]. split; [exact Hr|]. split; [exact Hd|].
  eexists _, _. split; [exact Hfw|].
  simpl. rewrite Hout, <- app_assoc. reflexivity.
Qed.

End ReverseLines.

(** C1 at "1\n2\n3\n4\n5\n" asked for its last 2 lines, through 4-byte
    windows. *)
Lemma C1_reverse_lines_witness :
  (exists map, @rlines_scan window4 (fresh_stream 3 a_log) 2 (stat_reg 1 a_log)
               = ScanEnd map 5)
  /\ exists f' w',
       @forward window4 (fresh_stream 3 a_log) "a.log" RLINES 2 (stat_reg 1 a_log) world0
       = Done f' w'
       /\ written (out w') = written (out world0) ++ [x34; x0a; x35; x0a].
Proof.
  apply (@C1_reverse_lines window4
           (window_at_contract 4 _ _ ltac:(unfold INT_MAX; lia))
           (fresh_stream 3 a_log) "a.log" 2 (stat_reg 1 a_log) world0);
    try reflexivity; try lia.
  apply window_at_works. lia.
Defined.

(** C10 on the same input. *)
Lemma C10_no_second_copy_witness :
  exists f' w',
    @forward window4 (fresh_stream 3 a_log) "a.log" RLINES 2 (stat_reg 1 a_log) world0
    = Done f' w'
    /\ out w' = [WriteRange [x34; x0a; x35; x0a]; Flush].
Proof.
  destruct (@C10_no_second_copy window4
              (window_at_contract 4 _ _ ltac:(unfold INT_MAX; lia))
              (fresh_stream 3 a_log) "a.log" 2 (stat_reg 1 a_log) world0)
    as (f1 & w1 & _ & _ & _ & _ & _ & f' & w' & Hf & Hw);
    try reflexivity; try lia.
  - apply window_at_works. lia.
  - exists f', w'. split; [exact Hf|exact Hw].
Defined.

(** ** show *)

Lemma upd_upd w a l b l' : upd (upd w a l) b l' = upd w (a ++ b) l'.
Proof. unfold upd. simpl. now rewrite app_assoc. Qed.

Lemma upd_id w : upd w [] (last w) = w.
Proof. destruct w. unfold upd. simpl. now rewrite app_nil_r. Qed.

Lemma last_differs_same idx : last_differs (Some idx) idx = false.
Proof. simpl. now rewrite Z.eqb_refl. Qed.

(** The loop of show on a standard output that takes everything. *)
Lemma show_loop_unlimited n hdr idx name f w :
  0 <= pos f -> (length (readable f) < n)%nat -> wr_budget w = None ->
  show_loop n hdr idx name f w =
  Done (after_read f)
       (upd w (show_events hdr idx name (last w) (readable f))
              (show_last idx (last w) (readable f))).
Proof.
  revert f w. induction n as [|n IH]; intros f w Hpos Hn Hw; [lia|].
  simpl. getc_step f Hpos.
  - rewrite Hr in *. simpl in Hn.
    assert (Hstep : forall w1 : world, wr_budget w1 = None -> last w1 = Some idx ->
              bind (putchar b) (fun ok => if ok then show_loop n hdr idx name f'
                                          else oerr) w1
              = Done (after_read f) (upd w1 (map Put (b :: readable f')) (Some idx))).
    { intros w1 Hw1 Hl1. unfold bind, putchar. rewrite Hw1.
      rewrite IH by (simpl; auto; lia). simpl. rewrite Ha, Hl1.
      assert (E1 : show_events hdr idx name (Some idx) (readable f')
                   = map Put (readable f')).
      { unfold show_events. rewrite last_differs_same.
        now destruct (readable f'). }
      assert (E2 : show_last idx (Some idx) (readable f') = Some idx)
        by (now destruct (readable f')).
      rewrite E1, E2. unfold upd; simpl. rewrite <- app_assoc, Hw1. reflexivity. }
    unfold bind at 1. unfold get_last.
    unfold bind at 1.
    destruct (last_differs (last w) idx) eqn:Hdiff.
    + unfold bind at 1. destruct hdr.
      * unfold printfn, emit, set_last. cbn [show_events show_last andb].
        rewrite Hstep by (simpl; auto).
        unfold upd; simpl. rewrite <- app_assoc, Hdiff. reflexivity.
      * unfold ret, set_last. cbn [show_events show_last andb].
        rewrite Hstep by (simpl; auto).
        unfold upd; simpl. rewrite andb_false_r. reflexivity.
    + unfold ret. cbn [show_events show_last andb].
      assert (Hl : last w = Some idx).
      { unfold last_differs in Hdiff. destruct (last w) as [j|]; [|discriminate].
        apply negb_false_iff, Z.eqb_eq in Hdiff. now subst. }
      rewrite Hstep by assumption. rewrite Hdiff. reflexivity.
  - rewrite Hr. unfold ret. cbn [show_events show_last]. now rewrite upd_id.
Qed.

(** show on a standard output that takes everything: the bytes the stream
    has to give, behind a header when one is due, then the flush; after a
    read error the stream is closed, the error reported under the name of
    the file, and the entry left without a stream. *)
Lemma show_unlimited o nf idx file f w :
  fp file = Some f -> 0 <= pos f -> wr_budget w = None ->
  show o nf idx file w =
  Done (if f_err (after_read f) then (set_fp file None, 0)
        else (set_fp file (Some (clearerr (after_read f))), 1))
       (upd w (show_events (headers o nf) idx (file_name file) (last w) (readable f)
               ++ Flush :: (if f_err (after_read f)
                            then [Closed (fileno f); Ierr (file_name file)]
                            else []))
              (show_last idx (last w) (readable f))).
Proof.
  intros Hfp Hpos Hw. unfold show. rewrite Hfp.
  unfold bind at 1.
  rewrite show_loop_unlimited by (auto using readable_fuel).
  unfold bind, fflush, fclose, ierr, emit, ret, ferror.
  rewrite after_read_fileno.
  destruct (f_err (after_read f)); unfold upd; simpl;
    rewrite <- ?app_assoc; reflexivity.
Qed.

(** ** Where the code departs from its description *)

(** C6: the copy loop of forward does not flush after a read error.  On a
    stream holding "1\n2\n3\n4\n5\n" whose reads fail from offset 2,
    forward writes two bytes, reports the error under the name of the file
    and returns: its trace ends without a flush.  show on the same stream
    flushes before it looks at the error. *)
Theorem C6_forward_read_error_no_flush :
  (exists f' w',
     @forward window4 (failing_stream 3 a_log 2) "a.log" FBYTES 0
       (stat_reg 1 a_log) world0 = Done f' w'
     /\ out w' = [Put x31; Put x0a; Ierr "a.log"]
     /\ ~ In Flush (out w'))
  /\ (exists r w',
        show opts_f 1 0 {| fp := Some (failing_stream 3 a_log 2);
                           file_name := "a.log"; st := stat_reg 1 a_log |} world0
        = Done r w'
        /\ out w' = [Put x31; Put x0a; Flush; Closed 3; Ierr "a.log"]).
Proof.
  split.
  - eexists _, _. split; [vm_compute; reflexivity|]. split; [reflexivity|].
    simpl. intros [H|[H|[H|[]]]]; discriminate.
  - eexists _, _. split; [vm_compute; reflexivity|]. reflexivity.
Qed.

(** C9: rlines returns with its window still mapped when the seek that
    follows the display fails.  On "1\n2\n3\n4\n5\n" asked for 2 lines,
    with 4-byte windows and a stream whose seek fails, rlines writes
    "4\n5\n", reports the error and returns while the window at offset 4
    is still mapped; when the seek succeeds the same call releases it. *)
Theorem C9_window_kept_after_failed_seek :
  @rlines window4 (pipe_stream 3 a_log) "a.log" 2 (stat_reg 1 a_log) world0
  = Done (pipe_stream 3 a_log)
         {| out := [WriteRange [x34; x0a; x35; x0a]; Ierr "a.log"];
            last := None; view := Some (4, 4); wr_budget := None;
            munmap_ok := true |}
  /\ exists f' w',
       @rlines window4 (fresh_stream 3 a_log) "a.log" 2 (stat_reg 1 a_log) world0
       = Done f' w'
       /\ view w' = None.
Proof.
  split; [vm_compute; reflexivity|].
  eexists _, _. split; [vm_compute; reflexivity|]. reflexivity.
Qed.

(** C3: a file that appears after follow has started is shown without its
    header.  [tail -F a b] with "b" missing at the start: the positioning
    stage shows "a" and sets [last] to the final entry of the array, the
    entry of "b", which has shown nothing.  When "b" appears, its first
    bytes follow those of "a" with no header in between.  Had "b" been
    there from the start, its header would have come before its bytes. *)
Theorem C3_no_header_for_late_file :
  (exists files w,
     @follow window4 opts_F 1 b_appears [file_a; file_b_absent] RLINES 10 world0
     = Done (Running files) w
     /\ out w = [Header "a" true; WriteRange x_line; Flush;
                 Closed 5; Flush; Put x79; Put x0a; Flush; Sleep]
     /\ ~ In (Header "b" true) (out w))
  /\ (exists files w,
        @follow window4 opts_F 0 b_appears [file_a; file_b] RLINES 10 world0
        = Done (Running files) w
        /\ out w = [Header "a" true; WriteRange x_line; Flush;
                    Header "b" true; WriteRange y_line; Flush]).
Proof.
  split.
  - eexists _, _. split; [vm_compute; reflexivity|]. split; [reflexivity|].
    simpl. intuition discriminate.
  - eexists _, _. split; [vm_compute; reflexivity|]. reflexivity.
Qed.

Lemma written_show_events hdr idx name l bs :
  written (show_events hdr idx name l bs) = bs.
Proof.
  unfold show_events. destruct bs as [|b t]; [reflexivity|].
  rewrite written_app, written_Put.
  now destruct (last_differs l idx && hdr).
Qed.

(** ** A pass on a standard output that takes everything *)

Section Pass.
Variable o : options.
Variable nf : Z.

Lemma show_bytes idx file f w :
  fp file = Some f -> 0 <= pos f -> wr_budget w = None ->
  exists r w',
    show o nf idx file w = Done (shown file, r) w'
    /\ written (out w') = written (out w) ++ pending file
    /\ wr_budget w' = None.
Proof.
  intros Hfp Hpos Hw.
  rewrite (show_unlimited o nf idx file f w Hfp Hpos Hw).
  unfold shown, pending. rewrite Hfp.
  destruct (f_err (after_read f)); eexists _, _;
    (split; [reflexivity|]; split; [|exact Hw]);
    cbn [out upd]; rewrite !written_app, written_show_events; simpl;
    now rewrite app_nil_r.
Qed.

Lemma follow_show_unlimited files : forall i w,
  Forall wf_file files -> wr_budget w = None ->
  exists w',
    follow_show o nf i files w = Done (map shown files) w'
    /\ written (out w') = written (out w) ++ concat (map pending files)
    /\ wr_budget w' = None.
Proof.
  induction files as [|file rest IH]; intros i w Hwf Hw.
  - exists w. simpl. now rewrite app_nil_r.
  - inversion Hwf as [|? ? Hfile Hrest]; subst. cbn [follow_show map concat].
    destruct (fp file) as [f|] eqn:Hfp.
    + destruct (show_bytes (Z.of_nat i) file f w Hfp (Hfile f Hfp) Hw)
        as (r & w1 & Hs & Hb & Hw1).
      destruct (IH (S i) w1 Hrest Hw1) as (w2 & Hs2 & Hb2 & Hw2).
      exists w2. unfold bind, ret. rewrite Hs. cbn [fst]. rewrite Hs2.
      split; [reflexivity|]. split; [|exact Hw2].
      now rewrite Hb2, Hb, app_assoc.
    + destruct (IH (S i) w Hrest Hw) as (w2 & Hs2 & Hb2 & Hw2).
      assert (Esh : shown file = file) by (unfold shown; now rewrite Hfp).
      assert (Epe : pending file = []) by (unfold pending; now rewrite Hfp).
      exists w2. unfold bind, ret. rewrite Hs2, Esh, Epe.
      split; [reflexivity|]. split; [|exact Hw2]. exact Hb2.
Qed.

Lemma reopen_step_unlimited idx r file w :
  wf_file file -> wr_budget w = None ->
  exists w',
    reopen_step o nf idx r file w = Done (reopened r file) w'
    /\ written (out w')
       = written (out w) ++ (if reopen_shows r file then pending file else [])
    /\ wr_budget w' = None.
Proof.
  intros Hwf Hw. unfold reopen_step, reopened, reopen_shows.
  destruct (fp file) as [f|] eqn:Hfp.
  - destruct (fileno f =? STDIN_FILENO).
    + exists w. rewrite app_nil_r. now repeat split.
    + assert (Hclose : forall w1 : world, wr_budget w1 = None ->
                exists w2, close_if_open (shown file) w1 = Done tt w2
                           /\ written (out w2) = written (out w1)
                           /\ wr_budget w2 = None).
      { intros w1 Hw1. unfold close_if_open, fclose, emit.
        destruct (fp (shown file)); eexists; (split; [reflexivity|]);
          (split; [|exact Hw1]); simpl; rewrite ?written_app; simpl;
          now rewrite ?app_nil_r. }
      assert (Hname : file_name (shown file) = file_name file
                      /\ st (shown file) = st file).
      { unfold shown. rewrite Hfp. now destruct (f_err (after_read f)). }
      destruct Hname as [Hname Hst].
      destruct (show_bytes idx file f w Hfp (Hwf f Hfp) Hw)
        as (rc & w1 & Hs & Hb & Hw1).
      destruct (Hclose w1 Hw1) as (w2 & Hc & Hb2 & Hw2).
      destruct r as [enoent|ftmp enoent|ftmp sb2].
      * destruct enoent; unfold bind, ierr, emit, ret; cbn [negb].
        -- rewrite Hs. cbn [fst]. rewrite Hc.
           eexists. split; [unfold set_fp; now rewrite Hname, Hst|].
           split; [|exact Hw2]. now rewrite Hb2, Hb.
        -- destruct (show_bytes idx file f (add_out w [Ierr (file_name file)])
                       Hfp (Hwf f Hfp) Hw) as (rc' & w1' & Hs' & Hb' & Hw1').
           destruct (Hclose w1' Hw1') as (w2' & Hc' & Hb2' & Hw2').
           change {| out := out w ++ [Ierr (file_name file)]; last := last w;
                     view := view w; wr_budget := wr_budget w;
                     munmap_ok := munmap_ok w |}
             with (add_out w [Ierr (file_name file)]).
           rewrite Hs'. cbn [fst]. rewrite Hc'.
           eexists. split; [unfold set_fp; now rewrite Hname, Hst|].
           split; [|exact Hw2']. rewrite Hb2', Hb'. simpl.
           rewrite written_app. simpl. now rewrite app_nil_r.
      * destruct enoent; unfold bind, ierr, fclose, emit, ret; cbn [negb].
        -- rewrite Hs. cbn [fst]. rewrite Hc.
           eexists. split; [unfold set_fp; now rewrite Hname, Hst|].
           split; [|exact Hw2]. simpl. rewrite written_app, Hb2, Hb. simpl.
           now rewrite app_nil_r.
        -- destruct (show_bytes idx file f (add_out w [Ierr (file_name file)])
                       Hfp (Hwf f Hfp) Hw) as (rc' & w1' & Hs' & Hb' & Hw1').
           destruct (Hclose w1' Hw1') as (w2' & Hc' & Hb2' & Hw2').
           change {| out := out w ++ [Ierr (file_name file)]; last := last w;
                     view := view w; wr_budget := wr_budget w;
                     munmap_ok := munmap_ok w |}
             with (add_out w [Ierr (file_name file)]).
           rewrite Hs'. cbn [fst]. rewrite Hc'.
           eexists. split; [unfold set_fp; now rewrite Hname, Hst|].
           split; [|exact Hw2']. simpl. rewrite written_app, Hb2', Hb'. simpl.
           rewrite written_app. simpl. now rewrite !app_nil_r.
      * destruct (identity_changed sb2 (st file)).
        -- unfold bind, ret. rewrite Hs. cbn [fst]. rewrite Hc.
           eexists. split; [reflexivity|]. split; [|exact Hw2].
           now rewrite Hb2, Hb.
        -- unfold bind, fclose, emit, ret.
           eexists. split; [reflexivity|]. split; [|exact Hw].
           simpl. rewrite written_app. simpl. reflexivity.
  - destruct r as [enoent|ftmp enoent|ftmp sb2]; unfold bind, fclose, emit, ret.
    + exists w. rewrite app_nil_r. now repeat split.
    + eexists. split; [reflexivity|]. split; [|exact Hw].
      simpl. rewrite written_app. simpl. reflexivity.
    + exists w. rewrite app_nil_r. now repeat split.
Qed.

Lemma follow_reopen_unlimited polls files : forall i w,
  Forall wf_file files -> wr_budget w = None ->
  exists w',
    follow_reopen o nf polls i files w = Done (reopen_all polls i files) w'
    /\ written (out w') = written (out w) ++ reopen_bytes polls i files
    /\ wr_budget w' = None.
Proof.
  induction files as [|file rest IH]; intros i w Hwf Hw.
  - exists w. simpl. now rewrite app_nil_r.
  - inversion Hwf as [|? ? Hfile Hrest]; subst.
    cbn [follow_reopen reopen_all reopen_bytes].
    destruct (reopen_step_unlimited (Z.of_nat i) (reopen (polls i)) file w Hfile Hw)
      as (w1 & Hs & Hb & Hw1).
    destruct (IH (S i) w1 Hrest Hw1) as (w2 & Hs2 & Hb2 & Hw2).
    exists w2. unfold bind, ret. rewrite Hs, Hs2.
    split; [reflexivity|]. split; [|exact Hw2].
    now rewrite Hb2, Hb, app_assoc.
Qed.

Lemma wf_tick p file : wf_file file -> wf_file (tick p file).
Proof.
  intros H f. unfold tick. destruct (fp file) as [g|] eqn:Hg; [|apply H].
  simpl. intros E. inversion E; subst; simpl. now apply H.
Qed.

Lemma wf_tick_all polls files : forall i,
  Forall wf_file files -> Forall wf_file (tick_all polls i files).
Proof.
  induction files as [|file rest IH]; intros i H; simpl; [constructor|].
  inversion H; subst. constructor; [now apply wf_tick|now apply IH].
Qed.

Lemma wf_reopened r file : wf_open r -> wf_file file -> wf_file (reopened r file).
Proof.
  intros Hr Hf. unfold reopened.
  destruct (fp file) as [f|] eqn:Hfp.
  - destruct (fileno f =? STDIN_FILENO); [exact Hf|].
    destruct r as [e|g e|g sb2]; try (intros x; discriminate).
    destruct (identity_changed sb2 (st file)); [|exact Hf].
    intros x E. simpl in E. inversion E; subst. exact Hr.
  - destruct r as [e|g e|g sb2]; try exact Hf; try (intros x; discriminate).
    intros x E. simpl in E. inversion E; subst. exact Hr.
Qed.

Lemma wf_reopen_all polls files : forall i,
  (forall j, wf_open (reopen (polls j))) ->
  Forall wf_file files -> Forall wf_file (reopen_all polls i files).
Proof.
  induction files as [|file rest IH]; intros i Hp H; simpl; [constructor|].
  inversion H; subst. constructor; [now apply wf_reopened|now apply IH].
Qed.

Lemma wf_shown file : wf_file file -> wf_file (shown file).
Proof.
  intros H. unfold shown. destruct (fp file) as [f|] eqn:Hfp; [|exact H].
  destruct (f_err (after_read f)); intros x E; simpl in E; [discriminate|].
  inversion E; subst. simpl. apply after_read_pos. now apply H.
Qed.

(** One pass when no write fails: the array and the bytes written are
    those of the reopen loop followed by the show loop, entry by entry;
    the pass ends in the sleep and the loop goes on. *)
Lemma follow_pass_unlimited polls files w :
  Forall wf_file files -> (forall j, wf_open (reopen (polls j))) ->
  wr_budget w = None ->
  let files0 := tick_all polls 0 files in
  let files1 := if Fflag o then reopen_all polls 0 files0 else files0 in
  exists w',
    follow_pass o nf polls files w = Done (map shown files1) w'
    /\ written (out w')
       = written (out w)
         ++ (if Fflag o then reopen_bytes polls 0 files0 else [])
         ++ concat (map pending files1)
    /\ wr_budget w' = None
    /\ Forall wf_file (map shown files1).
Proof.
  intros Hwf Hopen Hw files0 files1.
  assert (Hwf0 : Forall wf_file files0) by (now apply wf_tick_all).
  assert (Hwf1 : Forall wf_file files1).
  { subst files1. destruct (Fflag o); [now apply wf_reopen_all|exact Hwf0]. }
  assert (H1 : exists w1,
             (if Fflag o then follow_reopen o nf polls 0 files0 else ret files0) w
             = Done files1 w1
             /\ written (out w1)
                = written (out w) ++ (if Fflag o then reopen_bytes polls 0 files0 else [])
             /\ wr_budget w1 = None).
  { subst files1. destruct (Fflag o).
    - now apply follow_reopen_unlimited.
    - exists w. rewrite app_nil_r. now repeat split. }
  destruct H1 as (w1 & Hs1 & Hb1 & Hw1).
  destruct (follow_show_unlimited files1 0%nat w1 Hwf1 Hw1) as (w2 & Hs2 & Hb2 & Hw2).
  exists (add_out w2 [Sleep]). unfold follow_pass.
  fold files0. unfold bind. rewrite Hs1, Hs2.
  split; [reflexivity|]. split; [|split].
  - simpl. rewrite written_app, Hb2, Hb1. simpl.
    now rewrite app_nil_r, <- app_assoc.
  - exact Hw2.
  - clear -Hwf1. induction Hwf1; simpl; constructor; auto using wf_shown.
Qed.

End Pass.

(** ** Rotation *)

Lemma show_events_shape hdr idx name l bs :
  exists h, show_events hdr idx name l bs = h ++ map Put bs
            /\ (h = [] \/ h = [Header name true]).
Proof.
  unfold show_events. destruct bs as [|b t].
  - exists []. now split; [|left].
  - destruct (last_differs l idx && hdr).
    + exists [Header name true]. now split; [|right].
    + exists []. now split; [|left].
Qed.

Lemma readable_cleared f :
  0 <= pos f -> rd_fault f = None -> f_eof f = false ->
  readable (clearerr (after_read f)) = [].
Proof.
  intros Hpos Hfault He. apply readable_at_end.
  rewrite after_read_sound by assumption. simpl. lia.
Qed.

Lemma reopen_all_app polls l1 : forall l2 i,
  reopen_all polls i (l1 ++ l2)
  = reopen_all polls i l1 ++ reopen_all polls (i + length l1) l2.
Proof.
  induction l1 as [|x l1 IH]; intros l2 i; simpl.
  - now rewrite Nat.add_0_r.
  - rewrite IH. now replace (S i + length l1)%nat with (i + S (length l1))%nat by lia.
Qed.

Lemma reopen_bytes_app polls l1 : forall l2 i,
  reopen_bytes polls i (l1 ++ l2)
  = reopen_bytes polls i l1 ++ reopen_bytes polls (i + length l1) l2.
Proof.
  induction l1 as [|x l1 IH]; intros l2 i; simpl.
  - now rewrite Nat.add_0_r.
  - rewrite IH, <- app_assoc.
    now replace (S i + length l1)%nat with (i + S (length l1))%nat by lia.
Qed.

(** C2: rotation.  When the path of a tracked file answers with another
    identity, the body of the reopen loop first shows what the old stream
    still has to give, flushes, closes the old stream, and only then puts
    the new stream and its identity in the entry; nothing of the new
    stream has been read.  The next show of the entry writes the new
    stream from its position (its start, when freshly opened) to its end,
    each byte once, and leaves the stream at its end with its end-of-file
    indicator clear.  That indicator is assumed clear on the old stream
    too: show left it so at the pass before.  Over a whole pass with
    reopening, when the array the pass finds holds the entry between the
    entries [before] and [after], the bytes written are, in this order:
    what the reopen loop shows for [before], the rest of the old stream,
    what the reopen loop shows for [after]; then what the show loop shows
    for [before], the new stream, and what it shows for [after]. *)
Theorem C2_rotation (o : options) (nf idx : Z) (file : file_info)
    (old ftmp : FILE) (sb2 : stat) (w : world) :
  fp file = Some old -> fileno old <> STDIN_FILENO ->
  identity_changed sb2 (st file) = true ->
  0 <= pos old -> f_eof old = false -> f_err old = false -> rd_fault old = None ->
  0 <= pos ftmp -> f_eof ftmp = false -> f_err ftmp = false -> rd_fault ftmp = None ->
  wr_budget w = None ->
  let file' := {| fp := Some ftmp; file_name := file_name file; st := sb2 |} in
  exists w1,
    reopen_step o nf idx (OpenOk ftmp sb2) file w = Done file' w1
    /\ (exists h, (h = [] \/ h = [Header (file_name file) true])
                  /\ out w1 = out w ++ h
                               ++ map Put (skipn (Z.to_nat (pos old)) (data old))
                               ++ [Flush; Closed (fileno old)])
    /\ wr_budget w1 = None
    /\ (forall w2, wr_budget w2 = None ->
       exists w3,
         show o nf idx file' w2
         = Done (set_fp file' (Some (clearerr (after_read ftmp))), 1) w3
         /\ written (out w3)
            = written (out w2) ++ skipn (Z.to_nat (pos ftmp)) (data ftmp)
         /\ readable (clearerr (after_read ftmp)) = []
         /\ f_eof (clearerr (after_read ftmp)) = false)
    /\ forall polls files before after w0,
         tick_all polls 0 files = before ++ file :: after ->
         reopen (polls (length before)) = OpenOk ftmp sb2 ->
         Forall wf_file files -> (forall j, wf_open (reopen (polls j))) ->
         wr_budget w0 = None -> Fflag o = true ->
         let before' := reopen_all polls 0 before in
         let after' := reopen_all polls (S (length before)) after in
         exists w',
           follow_pass o nf polls files w0
           = Done (map shown before'
                   ++ set_fp file' (Some (clearerr (after_read ftmp)))
                   :: map shown after') w'
           /\ written (out w')
              = written (out w0)
                ++ (reopen_bytes polls 0 before
                    ++ skipn (Z.to_nat (pos old)) (data old)
                    ++ reopen_bytes polls (S (length before)) after)
                ++ (concat (map pending before')
                    ++ skipn (Z.to_nat (pos ftmp)) (data ftmp)
                    ++ concat (map pending after')).
Proof.
  intros Hfp Hfd Hid Hpos He Herr Hfault Hpos' He' Herr' Hfault' Hw file'.
  assert (Hare : f_err (after_read old) = false).
  { rewrite after_read_sound by assumption. exact Herr. }
  assert (Hare' : f_err (after_read ftmp) = false).
  { rewrite after_read_sound by assumption. exact Herr'. }
  unfold reopen_step. rewrite Hfp.
  destruct (Z.eqb_spec (fileno old) STDIN_FILENO); [contradiction|].
  rewrite Hid. unfold bind at 1.
  rewrite (show_unlimited o nf idx file old w Hfp Hpos Hw). rewrite Hare.
  cbn [fst]. unfold bind, close_if_open. cbn [fp set_fp].
  unfold fclose, emit, ret. cbn [fileno clearerr with_pos].
  rewrite after_read_fileno.
  eexists. split; [reflexivity|]. split; [|split; [|split]].
  - destruct (show_events_shape (headers o nf) idx (file_name file) (last w)
                (readable old)) as (h & Hh & Hcase).
    exists h. split; [exact Hcase|].
    cbn [out upd]. rewrite Hh, readable_sound by assumption.
    rewrite <- !app_assoc. reflexivity.
  - exact Hw.
  - intros w2 Hw2.
    rewrite (show_unlimited o nf idx file' ftmp w2 eq_refl Hpos' Hw2).
    rewrite Hare'. eexists. split; [reflexivity|]. split.
    + cbn [out upd]. rewrite !written_app, written_show_events.
      rewrite readable_sound by assumption. simpl. now rewrite app_nil_r.
    + split; [now apply readable_cleared|reflexivity].
  - intros polls files before after w0 Htick Hre Hwf Hopen Hw0 HF.
    destruct (follow_pass_unlimited o nf polls files w0 Hwf Hopen Hw0)
      as (w' & Hpass & Hbytes & _).
    rewrite HF, Htick in Hpass, Hbytes.
    assert (Hred : reopened (OpenOk ftmp sb2) file = file').
    { unfold reopened. rewrite Hfp.
      destruct (Z.eqb_spec (fileno old) STDIN_FILENO); [contradiction|].
      now rewrite Hid. }
    assert (Hsh : reopen_shows (OpenOk ftmp sb2) file = true).
    { unfold reopen_shows. rewrite Hfp.
      destruct (Z.eqb_spec (fileno old) STDIN_FILENO); [contradiction|].
      exact Hid. }
    rewrite reopen_all_app in Hpass, Hbytes.
    rewrite reopen_bytes_app in Hbytes.
    cbn [reopen_all reopen_bytes Nat.add] in Hpass, Hbytes.
    rewrite Hre, Hred in Hpass, Hbytes. rewrite Hsh in Hbytes.
    rewrite map_app in Hpass, Hbytes. cbn [map] in Hpass, Hbytes.
    rewrite concat_app in Hbytes. cbn [concat] in Hbytes.
    assert (Hshown : shown file' = set_fp file' (Some (clearerr (after_read ftmp)))).
    { unfold shown, file'. cbn [fp]. now rewrite Hare'. }
    assert (Hpend : pending file = skipn (Z.to_nat (pos old)) (data old)).
    { unfold pending. rewrite Hfp. now apply readable_sound. }
    assert (Hpend' : pending file' = skipn (Z.to_nat (pos ftmp)) (data ftmp)).
    { unfold pending, file'. cbn [fp]. now apply readable_sound. }
    fold file' in Hpass, Hbytes.
    rewrite Hshown in Hpass. rewrite Hpend, Hpend' in Hbytes.
    exists w'. split; [exact Hpass|]. rewrite Hbytes.
    rewrite <- !app_assoc. reflexivity.
Qed.

(** C2 at a file "a" of which "x\n" was shown before "y\n" was added, and
    whose path now leads to a new file holding "1\n2\n3\n4\n5\n". *)
Lemma C2_rotation_witness :
  let old := {| fileno := 3; data := x_line ++ y_line; pos := 2;
                rd_fault := None; seek_ok := true; f_eof := false;
                f_err := false |} in
  let file := {| fp := Some old; file_name := "a"; st := stat_reg 1 x_line |} in
  exists w1,
    reopen_step opts_F 1 0 (OpenOk (fresh_stream 5 a_log) (stat_reg 2 a_log)) file
      world0
    = Done {| fp := Some (fresh_stream 5 a_log); file_name := "a";
              st := stat_reg 2 a_log |} w1
    /\ (exists h, (h = [] \/ h = [Header "a" true])
                  /\ out w1 = [] ++ h ++ map Put y_line ++ [Flush; Closed 3]).
Proof.
  intros old file.
  destruct (C2_rotation opts_F 1 0 file old (fresh_stream 5 a_log)
              (stat_reg 2 a_log) world0) as (w1 & H1 & H2 & _);
    try reflexivity; try (simpl; lia); try discriminate.
  exists w1. split; [exact H1|exact H2].
Defined.


(** ** Read errors in follow mode *)

(** C7 as stated fails without reopening.  [tail -f a.log] on a stream
    whose reads fail from offset 2: the pass shows two bytes, closes the
    stream and reports the error.  At the next pass the path can be opened
    and read again and the file has grown, yet the entry is still without
    a stream and the pass writes nothing: the file is not retried. *)
Lemma C7_not_retried_without_reopen :
  exists w1,
    follow_pass opts_f 1 still_failing [file_failing] world0
    = Done [set_fp file_failing None] w1
    /\ out w1 = [Put x31; Put x0a; Flush; Closed 3; Ierr "a.log"; Sleep]
    /\ follow_pass opts_f 1 readable_again [set_fp file_failing None] w1
       = Done [set_fp file_failing None] (add_out w1 [Sleep]).
Proof.
  eexists. split; [vm_compute; reflexivity|]. split; reflexivity.
Qed.

Lemma after_read_failing f p :
  f_eof f = false -> rd_fault f = Some p -> p <= len (data f) ->
  f_err (after_read f) = true
  /\ readable f = slice (data f) (pos f) (p - pos f).
Proof.
  intros He Hf Hp. unfold after_read, readable, stop_pos. rewrite He, Hf.
  replace (Z.max (pos f) (Z.min p (len (data f)))) with (Z.max (pos f) p) by lia.
  destruct (Z.leb_spec p (Z.max (pos f) p)); [|lia].
  split; [reflexivity|].
  destruct (Z.le_gt_cases (pos f) p).
  - now replace (Z.max (pos f) p) with p by lia.
  - rewrite !slice_nil by lia. reflexivity.
Qed.

(** C7, amended: a read error on a tracked file in follow mode.  (1) show
    writes what the stream gave before the error, flushes, closes the
    stream, reports the error under the name of the file and leaves the
    entry without a stream.  (2) When no write fails, a pass that meets
    such errors still ends in its sleep, the loop going on; each entry
    comes out of the pass as [shown] makes it from that entry alone, and
    the bytes written are those each entry had to give.  (3) With
    reopening, the body of the reopen loop at a later pass opens the path
    of the entry again.  (4) Without reopening, a pass leaves the entry
    without a stream. *)
Theorem C7_read_error (o : options) (nf idx : Z) (file : file_info) (f : FILE)
    (p : Z) (w : world) :
  fp file = Some f -> 0 <= pos f -> f_eof f = false ->
  rd_fault f = Some p -> p <= len (data f) -> wr_budget w = None ->
  (exists w' h,
     show o nf idx file w = Done (set_fp file None, 0) w'
     /\ out w' = out w ++ h ++ [Flush; Closed (fileno f); Ierr (file_name file)]
     /\ written h = slice (data f) (pos f) (p - pos f))
  /\ (forall polls files w0,
        Forall wf_file files -> (forall j, wf_open (reopen (polls j))) ->
        wr_budget w0 = None ->
        let files0 := tick_all polls 0 files in
        let files1 := if Fflag o then reopen_all polls 0 files0 else files0 in
        exists w',
          follow_pass o nf polls files w0 = Done (map shown files1) w'
          /\ written (out w')
             = written (out w0)
               ++ (if Fflag o then reopen_bytes polls 0 files0 else [])
               ++ concat (map pending files1)
          /\ wr_budget w' = None)
  /\ (forall g sb w0,
        reopen_step o nf idx (OpenOk g sb) (set_fp file None) w0
        = Done {| fp := Some g; file_name := file_name file; st := sb |} w0)
  /\ (Fflag o = false ->
      forall polls w0, wr_budget w0 = None ->
        exists w',
          follow_pass o nf polls [set_fp file None] w0 = Done [set_fp file None] w'
          /\ written (out w') = written (out w0)).
Proof.
  intros Hfp Hpos He Hf Hp Hw.
  destruct (after_read_failing f p He Hf Hp) as [Herr Hrd].
  split; [|split; [|split]].
  - rewrite (show_unlimited o nf idx file f w Hfp Hpos Hw). rewrite Herr.
    eexists _, (show_events (headers o nf) idx (file_name file) (last w) (readable f)).
    split; [reflexivity|]. split.
    + reflexivity.
    + now rewrite written_show_events.
  - intros polls files w0 Hwf Hopen Hw0 files0 files1.
    destruct (follow_pass_unlimited o nf polls files w0 Hwf Hopen Hw0)
      as (w' & H1 & H2 & H3 & _).
    exists w'. now repeat split.
  - intros g sb w0. reflexivity.
  - intros HF polls w0 Hw0.
    unfold follow_pass. rewrite HF. simpl.
    eexists. split; [reflexivity|].
    simpl. rewrite written_app. simpl. now rewrite app_nil_r.
Qed.

(** C7 at the entry of "a.log" whose reads fail from offset 2. *)
Lemma C7_read_error_witness :
  exists w' h,
    show opts_F 1 0 file_failing world0 = Done (set_fp file_failing None, 0) w'
    /\ out w' = out world0 ++ h ++ [Flush; Closed 3; Ierr "a.log"]
    /\ written h = [x31; x0a].
Proof.
  pose proof (C7_read_error opts_F 1 0 file_failing (failing_stream 3 a_log 2) 2
                world0 eq_refl ltac:(simpl; lia) eq_refl eq_refl
                ltac:(vm_compute; discriminate) eq_refl) as [H _].
  exact H.
Defined.

(** ** How follow can end *)

Lemma ends_bind {A B} al (P : A -> Prop) (Q : B -> Prop) (c : M A) (k : A -> M B) w :
  ends al P (c w) -> (forall a w', P a -> ends al Q (k a w')) ->
  ends al Q (bind c k w).
Proof.
  intros Hc Hk. unfold bind. destruct (c w) as [a w'|h w']; simpl in *; auto.
Qed.

Lemma ends_weaken {A} (al al' : halt -> Prop) (P Q : A -> Prop) r :
  (forall h, al h -> al' h) -> (forall a, P a -> Q a) ->
  ends al P r -> ends al' Q r.
Proof. intros Hal HP. destruct r; simpl; auto. Qed.

Lemma ends_emit al (P : unit -> Prop) e w : P tt -> ends al P (emit e w).
Proof. intros H. exact H. Qed.

Lemma put_all_ends bs w : ends is_oerr (fun _ => True) (put_all bs w).
Proof.
  revert w. induction bs as [|b t IH]; intros w; simpl; [exact I|].
  unfold bind, putchar.
  destruct (wr_budget w) as [[|n]|]; try apply IH. reflexivity.
Qed.

Lemma drain_loop_ends f w :
  0 <= pos f ->
  ends is_oerr (fun f' => f' = after_read f) (drain_loop (rd_fuel f) f w).
Proof.
  intros Hpos. rewrite drain_loop_eq by auto using readable_fuel.
  eapply ends_bind; [apply put_all_ends|]. intros _ w' _. reflexivity.
Qed.

Lemma show_loop_ends hdr idx name : forall n f w,
  0 <= pos f -> (length (readable f) < n)%nat ->
  ends is_oerr (fun f' => f' = after_read f) (show_loop n hdr idx name f w).
Proof.
  induction n as [|n IH]; intros f w Hpos Hn; [lia|].
  simpl. getc_step f Hpos; [|reflexivity].
  rewrite Hr in Hn. simpl in Hn.
  eapply ends_bind with (P := fun _ => True); [exact I|]. intros l w1 _.
  eapply ends_bind with (P := fun _ => True).
  { destruct (last_differs l idx); [|exact I].
    eapply ends_bind with (P := fun _ => True); [|intros; exact I].
    destruct hdr; exact I. }
  intros _ w2 _.
  eapply ends_bind with (P := fun _ => True).
  { unfold putchar. destruct (wr_budget w2) as [[|k]|]; exact I. }
  intros [|] w3 _; [|reflexivity].
  rewrite <- Ha. apply IH; lia.
Qed.

Lemma show_ends o nf idx file f w :
  fp file = Some f -> 0 <= pos f ->
  ends is_oerr (fun r => wf_file (fst r)) (show o nf idx file w).
Proof.
  intros Hfp Hpos. unfold show. rewrite Hfp.
  eapply ends_bind; [apply show_loop_ends; auto using readable_fuel|].
  intros f' w1 ->.
  eapply ends_bind with (P := fun _ => True); [exact I|]. intros _ w2 _.
  destruct (ferror (after_read f)).
  - eapply ends_bind with (P := fun _ => True); [exact I|]. intros _ w3 _.
    eapply ends_bind with (P := fun _ => True); [exact I|]. intros _ w4 _.
    simpl. intros x E. discriminate.
  - simpl. intros x E. inversion E; subst. simpl. now apply after_read_pos.
Qed.

Lemma close_if_open_ends file w : ends is_oerr (fun _ => True) (close_if_open file w).
Proof. unfold close_if_open. destruct (fp file); exact I. Qed.

Lemma reopen_step_ends o nf idx r file w :
  wf_file file -> wf_open r ->
  ends is_oerr wf_file (reopen_step o nf idx r file w).
Proof.
  intros Hwf Hr. unfold reopen_step.
  destruct (fp file) as [f|] eqn:Hfp.
  - destruct (fileno f =? STDIN_FILENO); [exact Hwf|].
    assert (Hshow : forall w1 (k : file_info * Z -> M file_info),
              (forall s w2, ends is_oerr wf_file (k s w2)) ->
              ends is_oerr wf_file (bind (show o nf idx file) k w1)).
    { intros w1 k Hk. eapply ends_bind; [apply (show_ends o nf idx file f); auto|].
      intros s w2 _. apply Hk. }
    assert (Hnone : forall (s : file_info * Z) (c : M unit) w1,
              ends is_oerr (fun _ => True) (c w1) ->
              ends is_oerr wf_file (bind c (fun _ => ret (set_fp (fst s) None)) w1)).
    { intros s c w1 Hc. eapply ends_bind; [exact Hc|].
      intros _ w2 _. simpl. intros x E. discriminate. }
    destruct r as [enoent|ftmp enoent|ftmp sb2].
    + eapply ends_bind with (P := fun _ => True);
        [destruct enoent; exact I|]. intros _ w1 _.
      apply Hshow. intros s w2. apply Hnone. apply close_if_open_ends.
    + eapply ends_bind with (P := fun _ => True);
        [destruct enoent; exact I|]. intros _ w1 _.
      apply Hshow. intros s w2.
      eapply ends_bind; [apply close_if_open_ends|]. intros _ w3 _.
      apply Hnone. exact I.
    + destruct (identity_changed sb2 (st file)).
      * apply Hshow. intros s w2.
        eapply ends_bind; [apply close_if_open_ends|]. intros _ w3 _.
        simpl. intros x E. inversion E; subst. exact Hr.
      * eapply ends_bind with (P := fun _ => True); [exact I|]. intros _ w1 _.
        exact Hwf.
  - destruct r as [enoent|ftmp enoent|ftmp sb2].
    + exact Hwf.
    + eapply ends_bind with (P := fun _ => True); [exact I|]. intros _ w1 _.
      simpl. intros x E. discriminate.
    + simpl. intros x E. inversion E; subst. exact Hr.
Qed.

Section LoopEnds.
Variable o : options.
Variable nf : Z.

Lemma follow_reopen_ends polls files : forall i w,
  Forall wf_file files -> (forall j, wf_open (reopen (polls j))) ->
  ends is_oerr (Forall wf_file) (follow_reopen o nf polls i files w).
Proof.
  induction files as [|file rest IH]; intros i w Hwf Hopen; simpl; [constructor|].
  inversion Hwf; subst.
  eapply ends_bind; [apply reopen_step_ends; auto|]. intros file' w1 Hfile'.
  eapply ends_bind; [apply IH; auto|]. intros rest' w2 Hrest'.
  simpl. now constructor.
Qed.

Lemma follow_show_ends files : forall i w,
  Forall wf_file files ->
  ends is_oerr (Forall wf_file) (follow_show o nf i files w).
Proof.
  induction files as [|file rest IH]; intros i w Hwf; simpl; [constructor|].
  inversion Hwf as [|? ? Hfile Hrest]; subst.
  eapply ends_bind with (P := wf_file).
  { destruct (fp file) as [f|] eqn:Hfp; [|exact Hfile].
    eapply ends_bind; [apply (show_ends o nf _ file f); auto|].
    intros s w1 Hs. exact Hs. }
  intros file' w1 Hfile'.
  eapply ends_bind; [apply IH; auto|]. intros rest' w2 Hrest'.
  simpl. now constructor.
Qed.

Lemma follow_pass_ends polls files w :
  Forall wf_file files -> (forall j, wf_open (reopen (polls j))) ->
  ends is_oerr (Forall wf_file) (follow_pass o nf polls files w).
Proof.
  intros Hwf Hopen. unfold follow_pass.
  pose proof (wf_tick_all polls files 0%nat Hwf) as Hwf0.
  eapply ends_bind with (P := Forall wf_file).
  { destruct (Fflag o); [now apply follow_reopen_ends|exact Hwf0]. }
  intros files1 w1 Hwf1.
  eapply ends_bind; [now apply follow_show_ends|]. intros files2 w2 Hwf2.
  eapply ends_bind with (P := fun _ => True); [exact I|]. intros _ w3 _.
  exact Hwf2.
Qed.

(** However many passes the loop is given, it has either made them all or
    stopped because the standard output refused a byte. *)
Lemma follow_loop_ends env : forall n k files w,
  Forall wf_file files -> (forall k j, wf_open (reopen (env k j))) ->
  ends is_oerr (Forall wf_file) (follow_loop o nf n env k files w).
Proof.
  induction n as [|n IH]; intros k files w Hwf Hopen; simpl; [exact Hwf|].
  eapply ends_bind; [apply follow_pass_ends; auto|].
  intros files' w1 Hwf'. now apply IH.
Qed.

(** When no write fails the loop makes every pass it is given. *)
Lemma follow_loop_unlimited env : forall n k files w,
  Forall wf_file files -> (forall k j, wf_open (reopen (env k j))) ->
  wr_budget w = None ->
  exists files' w', follow_loop o nf n env k files w = Done files' w'.
Proof.
  induction n as [|n IH]; intros k files w Hwf Hopen Hw; simpl.
  - now exists files, w.
  - destruct (follow_pass_unlimited o nf (env k) files w Hwf (Hopen k) Hw)
      as (w1 & Hpass & _ & Hw1 & Hwf1).
    unfold bind. rewrite Hpass. now apply IH.
Qed.

End LoopEnds.

Lemma fbytes_loop_total : forall n f off,
  0 <= pos f -> (length (readable f) < n)%nat ->
  exists f' e, fbytes_loop n f off = Some (f', e) /\ 0 <= pos f'.
Proof.
  induction n as [|n IH]; intros f off Hpos Hn; [lia|].
  simpl. destruct (off =? 0); [now exists f, false|].
  getc_step f Hpos.
  - rewrite Hr in Hn. simpl in Hn. apply IH; lia.
  - exists (after_read f), true. split; [reflexivity|]. now apply after_read_pos.
Qed.

Lemma flines_loop_total : forall n f off,
  0 <= pos f -> (length (readable f) < n)%nat ->
  exists f' e, flines_loop n f off = Some (f', e) /\ 0 <= pos f'.
Proof.
  induction n as [|n IH]; intros f off Hpos Hn; [lia|].
  simpl. getc_step f Hpos.
  - rewrite Hr in Hn. simpl in Hn.
    destruct (is_nl b); [|apply IH; lia].
    destruct (off - 1 =? 0); [|apply IH; lia].
    exists f', false. split; [reflexivity|lia].
  - exists (after_read f), true. split; [reflexivity|]. now apply after_read_pos.
Qed.

Lemma fseeko_pos f off wh f' : fseeko f off wh = Some f' -> 0 <= pos f'.
Proof.
  unfold fseeko. destruct (seek_ok f); simpl; [|discriminate].
  destruct wh.
  - destruct (Z.leb_spec 0 off); [|discriminate].
    intros E; inversion E; subst; simpl. lia.
  - destruct (Z.leb_spec 0 (len (data f) + off)); [|discriminate].
    intros E; inversion E; subst; simpl. lia.
Qed.

Section ForwardEnds.
Context {MW : MapWindow} {WC : WindowContract MW}.

Lemma rlines_scan_no_fault f off sb :
  st_size sb <= len (data f) -> rlines_scan f off sb <> ScanFault.
Proof.
  intros Hfit. unfold rlines_scan.
  destruct (Z.le_gt_cases (st_size sb) 0) as [Hle|Hgt].
  - (* no byte to scan: the loop is not entered *)
    replace (Z.to_nat (st_size sb)) with O by lia. simpl.
    destruct (Z.ltb_spec (st_size sb - 2) 0); [discriminate|lia].
  - edestruct (rlines_loop_cases (data f) (st_size sb) (Z.to_nat (st_size sb)))
      as [[H _] | (m & c & H & _)]; [| | | | |rewrite H; discriminate
                                      |rewrite H; discriminate];
      simpl; try reflexivity; lia.
Qed.

(** rlines returns a stream with a position, or stops because mapprint
    could not write its range. *)
Lemma rlines_ends f fn off sb w :
  0 <= pos f -> st_size sb <= len (data f) ->
  ends is_write_failure (fun f' => 0 <= pos f') (rlines f fn off sb w).
Proof.
  intros Hpos Hfit. unfold rlines.
  destruct (st_size sb =? 0); [exact Hpos|].
  pose proof (rlines_scan_no_fault f off sb Hfit) as Hnf.
  destruct (rlines_scan f off sb) as [map c| |]; [| |contradiction].
  - destruct (mapprint (data f) map (c + 1) (st_size sb - (c + 1)))
      as [[map' bs] rc].
    eapply ends_bind with (P := fun _ => True); [exact I|]. intros _ w1 _.
    eapply ends_bind with (P := fun _ => True); [exact I|]. intros _ w2 _.
    destruct (negb (rc =? 0)).
    + eapply ends_bind with (P := fun _ => True); [exact I|]. intros _ w3 _.
      right. reflexivity.
    + destruct (fseeko f (st_size sb) SEEK_SET) as [f'|] eqn:Hseek.
      * apply fseeko_pos in Hseek.
        destruct (start map'); [|exact Hseek].
        eapply ends_bind with (P := fun _ => True).
        { unfold munmap. destruct (munmap_ok w2); exact I. }
        intros [|] w3 _; [exact Hseek|].
        eapply ends_bind with (P := fun _ => True); [exact I|]. intros _ w4 _.
        exact Hseek.
      * eapply ends_bind with (P := fun _ => True); [exact I|]. intros _ w3 _.
        exact Hpos.
  - eapply ends_bind with (P := fun _ => True); [exact I|]. intros _ w1 _.
    exact Hpos.
Qed.

Lemma eof_check_ends fn f w :
  0 <= pos f -> ends is_write_failure (fun r => 0 <= located_pos r) (eof_check fn f w).
Proof.
  intros Hpos. unfold eof_check. destruct (ferror f); [|exact Hpos].
  eapply ends_bind with (P := fun _ => True); [exact I|]. intros _ w1 _.
  exact Hpos.
Qed.

Lemma seek_ends fn f off wh w :
  0 <= pos f ->
  ends is_write_failure (fun r => 0 <= located_pos r)
    (match fseeko f off wh with
     | None => bind (ierr fn) (fun _ => ret (Abandon f))
     | Some f' => ret (Located f')
     end w).
Proof.
  intros Hpos. destruct (fseeko f off wh) as [f'|] eqn:Hseek.
  - apply fseeko_pos in Hseek. exact Hseek.
  - exact Hpos.
Qed.

Lemma read_then_put_ends f fn (select : list byte -> list byte) w :
  0 <= pos f ->
  ends is_write_failure (fun r : FILE * Z => 0 <= pos (fst r))
    (match read_all (rd_fuel f) f [] with
     | None => stop Fault
     | Some (f', bs) =>
         if ferror f' then bind (ierr fn) (fun _ => ret (f', 1))
         else bind (put_all (select bs)) (fun _ => ret (f', 0))
     end w).
Proof.
  intros Hpos. rewrite read_all_eq by auto using readable_fuel.
  pose proof (after_read_pos f Hpos) as Hpos'.
  destruct (ferror (after_read f)).
  - exact Hpos'.
  - eapply ends_bind with (P := fun _ => True).
    + eapply ends_weaken; [| |apply put_all_ends]; [intros h Hh; now left|auto].
    + intros _ w1 _. exact Hpos'.
Qed.

Lemma forward_locate_ends f fn style off sb w :
  0 <= pos f -> st_size sb <= len (data f) ->
  ends is_write_failure (fun r => 0 <= located_pos r)
    (forward_locate f fn style off sb w).
Proof.
  intros Hpos Hfit.
  assert (Hrest : forall (r : FILE * Z) w1, 0 <= pos (fst r) ->
            ends is_write_failure (fun r => 0 <= located_pos r)
              ((let '(f', rc) := r in
                if negb (rc =? 0) then ret (Abandon f') else ret (Located f')) w1)).
  { intros [f' rc] w1 H. destruct (negb (rc =? 0)); exact H. }
  unfold forward_locate. destruct style; try exact Hpos.
  - (* FBYTES *)
    destruct (off =? 0); [exact Hpos|].
    destruct (regular sb); [now apply seek_ends|].
    destruct (fbytes_loop_total (rd_fuel f) f off Hpos (readable_fuel f))
      as (f' & e & Hl & Hpos').
    rewrite Hl. simpl. destruct e; [now apply eof_check_ends|exact Hpos'].
  - (* FLINES *)
    destruct (off =? 0); [exact Hpos|].
    destruct (flines_loop_total (rd_fuel f) f off Hpos (readable_fuel f))
      as (f' & e & Hl & Hpos').
    rewrite Hl. simpl. destruct e; [now apply eof_check_ends|exact Hpos'].
  - (* RBYTES *)
    destruct (regular sb).
    + destruct (off <=? st_size sb); [now apply seek_ends|exact Hpos].
    + destruct (off =? 0).
      * rewrite skip_to_eof_eq by auto using readable_fuel. simpl.
        apply eof_check_ends. now apply after_read_pos.
      * eapply ends_bind; [|intros r w1 Hr; apply Hrest; exact Hr].
        unfold bytes. now apply read_then_put_ends.
  - (* RLINES *)
    destruct (regular sb).
    + destruct (off =? 0); [now apply seek_ends|].
      eapply ends_bind; [now apply rlines_ends|]. intros f' w1 Hf'. exact Hf'.
    + destruct (off =? 0).
      * rewrite skip_to_eof_eq by auto using readable_fuel. simpl.
        apply eof_check_ends. now apply after_read_pos.
      * eapply ends_bind; [|intros r w1 Hr; apply Hrest; exact Hr].
        unfold lines. now apply read_then_put_ends.
Qed.

Lemma forward_ends f fn style off sb w :
  0 <= pos f -> st_size sb <= len (data f) ->
  ends is_write_failure (fun f' => 0 <= pos f') (forward f fn style off sb w).
Proof.
  intros Hpos Hfit. unfold forward.
  eapply ends_bind; [now apply forward_locate_ends|].
  intros [f'|f'] w1 Hf'; simpl in Hf'; [|exact Hf'].
  unfold forward_drain.
  eapply ends_bind with (P := fun f2 => 0 <= pos f2).
  - eapply ends_weaken; [| |now apply drain_loop_ends].
    + intros h Hh. now left.
    + intros a ->. now apply after_read_pos.
  - intros f2 w2 Hf2. destruct (ferror f2); [|exact Hf2].
    eapply ends_bind with (P := fun _ => True); [exact I|]. intros _ w3 _.
    exact Hf2.
Qed.

(** The positioning stage: [active] comes out true exactly when it went
    in true or some entry has a stream. *)
Lemma follow_position_ends o nf style off files : forall active w,
  Forall wf_file files -> Forall stat_fits files ->
  ends is_write_failure
    (fun r => Forall wf_file (fst r)
              /\ (snd r = false ->
                  active = false /\ Forall (fun file => fp file = None) files))
    (follow_position o nf style off files active w).
Proof.
  induction files as [|file rest IH]; intros active w Hwf Hfit; simpl.
  - split; [constructor|]. intros ->. split; [reflexivity|constructor].
  - inversion Hwf as [|? ? Hfile Hrest]; subst.
    inversion Hfit as [|? ? Hfits Hfitr]; subst.
    destruct (fp file) as [f|] eqn:Hfp.
    + eapply ends_bind with (P := fun _ => True);
        [destruct (headers o nf); exact I|]. intros _ w1 _.
      eapply ends_bind; [apply forward_ends; auto|]. intros f' w2 Hf'.
      eapply ends_bind; [apply (IH true); auto|].
      intros [files' a] w3 [Hwf' Ha]. simpl in *. split.
      * constructor; [|exact Hwf']. intros x E. simpl in E.
        inversion E; subst. exact Hf'.
      * intros ->. destruct (Ha eq_refl) as [Habs _]. discriminate.
    + eapply ends_bind; [apply (IH active); auto|].
      intros [files' a] w1 [Hwf' Ha]. simpl in *. split.
      * now constructor.
      * intros ->. destruct (Ha eq_refl) as [-> Hnone].
        split; [reflexivity|]. now constructor.
Qed.

(** C8: how follow can end.  (1) Cut after any number of passes, follow
    has either returned before its loop, and then reopening is off and no
    entry had a stream; or it is still in its loop; or it was stopped by a
    write failure: putchar refused a byte, or mapprint its range while the
    files were positioned.  (2) The loop itself, from any array and given
    any number of passes, has either made them all or was stopped because
    putchar refused a byte.  (3) When no write fails the loop makes every
    pass it is given: it has no exit of its own. *)
Theorem C8_follow_ends (o : options) (n : nat) (env : nat -> nat -> poll)
    (files : list file_info) (style : STYLE) (off : Z) (w : world) :
  Forall wf_file files -> Forall stat_fits files ->
  (forall k j, wf_open (reopen (env k j))) ->
  match follow o n env files style off w with
  | Done (Returned _) _ =>
      Fflag o = false /\ Forall (fun file => fp file = None) files
  | Done (Running _) _ => True
  | Halt h _ => is_write_failure h
  end
  /\ (forall nf k files0 w0, Forall wf_file files0 ->
        match follow_loop o nf n env k files0 w0 with
        | Done _ _ => True
        | Halt h _ => h = Oerr
        end)
  /\ (forall nf k files0 w0, Forall wf_file files0 -> wr_budget w0 = None ->
        exists files' w', follow_loop o nf n env k files0 w0 = Done files' w').
Proof.
  intros Hwf Hfit Hopen. split; [|split].
  - unfold follow.
    pose proof (follow_position_ends o (count files) style off files false w Hwf Hfit)
      as Hpos.
    unfold bind at 1.
    destruct (follow_position o (count files) style off files false w)
      as [[files1 active] w1|h w1]; simpl in Hpos; [|exact Hpos].
    destruct Hpos as [Hwf1 Hact]. cbn [fst snd].
    destruct (Fflag o) eqn:HF; cbn [negb andb].
    + unfold bind, set_last.
      pose proof (follow_loop_ends o (count files) env n 0%nat files1
                    {| out := out w1; last := Some (count files - 1);
                       view := view w1; wr_budget := wr_budget w1;
                       munmap_ok := munmap_ok w1 |} Hwf1 Hopen) as Hloop.
      destruct (follow_loop o (count files) n env 0 files1 _) as [files2 w2|h w2];
        simpl in *; [exact I|now left].
    + destruct active; cbn [negb].
      * unfold bind, set_last.
        pose proof (follow_loop_ends o (count files) env n 0%nat files1
                      {| out := out w1; last := Some (count files - 1);
                         view := view w1; wr_budget := wr_budget w1;
                         munmap_ok := munmap_ok w1 |} Hwf1 Hopen) as Hloop.
        destruct (follow_loop o (count files) n env 0 files1 _) as [files2 w2|h w2];
          simpl in *; [exact I|now left].
      * simpl. split; [reflexivity|]. now destruct (Hact eq_refl).
  - intros nf k files0 w0 Hwf0.
    pose proof (follow_loop_ends o nf env n k files0 w0 Hwf0 Hopen) as Hloop.
    destruct (follow_loop o nf n env k files0 w0); simpl in *; [exact I|exact Hloop].
  - intros nf k files0 w0 Hwf0 Hw0.
    now apply follow_loop_unlimited.
Qed.

End ForwardEnds.

Lemma wf_open_b_appears k j : wf_open (reopen (b_appears k j)).
Proof. destruct j; simpl; lia. Qed.

(** C8 at [tail -F a b] cut after one pass, which is still in its loop,
    and at [tail -f b] with "b" missing, which returns at once. *)
Lemma C8_follow_ends_witness :
  match @follow window4 opts_F 1 b_appears [file_a; file_b_absent] RLINES 10 world0 with
  | Done (Returned _) _ =>
      Fflag opts_F = false
      /\ Forall (fun file => fp file = None) [file_a; file_b_absent]
  | Done (Running _) _ => True
  | Halt h _ => is_write_failure h
  end
  /\ match @follow window4 opts_f 1 b_appears [file_b_absent] RLINES 10 world0 with
     | Done (Returned _) _ =>
         Fflag opts_f = false /\ Forall (fun file => fp file = None) [file_b_absent]
     | Done (Running _) _ => True
     | Halt h _ => is_write_failure h
     end.
Proof.
  assert (Hwf : forall l, Forall (fun file => file = file_a \/ file = file_b_absent) l ->
                          Forall wf_file l /\ Forall stat_fits l).
  { intros l Hl. split; (eapply Forall_impl; [|exact Hl]);
      intros file [->| ->] f E; inversion E; subst; simpl; try lia. }
  split.
  - apply (@C8_follow_ends window4
             (window_at_contract 4 _ _ ltac:(unfold INT_MAX; lia))
             opts_F 1 b_appears [file_a; file_b_absent] RLINES 10 world0);
      [apply Hwf; repeat (apply Forall_cons; [auto|]); apply Forall_nil
      |apply Hwf; repeat (apply Forall_cons; [auto|]); apply Forall_nil
      |exact wf_open_b_appears].
  - apply (@C8_follow_ends window4
             (window_at_contract 4 _ _ ltac:(unfold INT_MAX; lia))
             opts_f 1 b_appears [file_b_absent] RLINES 10 world0);
      [apply Hwf; repeat (apply Forall_cons; [auto|]); apply Forall_nil
      |apply Hwf; repeat (apply Forall_cons; [auto|]); apply Forall_nil
      |exact wf_open_b_appears].
Defined.

(** * Further properties of forward.c *)

(** ** What forward writes, style by style *)

Lemma after_read_err_sound f :
  rd_fault f = None -> f_err f = false -> f_err (after_read f) = false.
Proof.
  intros Hf He. unfold after_read. rewrite Hf.
  destruct (f_eof f); [exact He|exact He].
Qed.

Lemma readable_eof f : f_eof f = true -> readable f = [].
Proof. intros H. unfold readable. now rewrite H. Qed.

Lemma skipn_beyond {A} (l : list A) n : (length l <= n)%nat -> skipn n l = [].
Proof. apply skipn_all2. Qed.

Section Styles.
Context {MW : MapWindow}.

(** The copy loop on a stream without failing reads. *)
Lemma forward_drain_fine f fn w :
  0 <= pos f -> rd_fault f = None -> f_err f = false -> wr_budget w = None ->
  forward_drain f fn w
  = Done (after_read f) (add_out w (map Put (readable f) ++ [Flush])).
Proof.
  intros Hpos Hf He Hw. apply forward_drain_sound; auto.
  now apply after_read_err_sound.
Qed.

(** X1: [tail -c +N]: forward by bytes writes the file without its first
    [N] bytes, whether it gets there by seeking (a regular file with
    content) or by reading and dropping (anything else); beyond the end
    nothing is written. *)
Theorem X1_forward_bytes_output (f : FILE) (fn : string) (N : Z) (sb : stat)
    (w : world) :
  fresh f -> 0 <= N -> wr_budget w = None ->
  (regular sb = true -> seek_ok f = true /\ st_size sb = len (data f)) ->
  exists f',
    forward f fn FBYTES N sb w
    = Done f' (add_out w (map Put (selected FBYTES N (data f)) ++ [Flush])).
Proof.
  intros (Hpos & Heof & Herr & Hfault) HN Hw Hreg.
  pose proof (len_nonneg (data f)) as Hlen.
  assert (Hrd : readable f = data f).
  { rewrite readable_sound by (auto; lia). now rewrite Hpos. }
  unfold forward, forward_locate, selected.
  destruct (Z.eqb_spec N 0) as [->|HN0].
  - unfold bind, ret. rewrite forward_drain_fine by (auto; lia).
    rewrite Hrd. eexists. reflexivity.
  - destruct (regular sb) eqn:Hr.
    + destruct (Hreg eq_refl) as [Hseek Hsize].
      unfold fseeko. rewrite Hseek.
      set (target := if st_size sb <? N then st_size sb else N).
      assert (Ht : 0 <= target /\ (target = N \/ (target = len (data f) /\ len (data f) < N))).
      { subst target. destruct (Z.ltb_spec (st_size sb) N); lia. }
      destruct (Z.leb_spec 0 target); [|lia]. cbn [andb].
      unfold bind, ret.
      rewrite forward_drain_fine by (simpl; auto; lia).
      rewrite readable_sound by (simpl; auto; lia). cbn [pos data with_pos].
      eexists. do 3 f_equal.
      destruct Ht as [_ [-> | [-> Hbig]]]; [reflexivity|].
      rewrite !skipn_beyond; unfold len in *; auto; lia.
    + destruct (Z.leb_spec N (len (readable f))) as [Hin|Hout].
      * rewrite fbytes_loop_within;
          [|lia|lia|pose proof (readable_fuel f); unfold len in *; lia].
        unfold or_fault, bind, ret.
        rewrite forward_drain_fine by (simpl; auto; lia).
        rewrite readable_sound by (simpl; auto; lia). cbn [pos data with_pos].
        rewrite Hpos. eexists. reflexivity.
      * rewrite fbytes_loop_short; auto using readable_fuel; try lia.
        unfold or_fault, eof_check, ferror.
        rewrite after_read_err_sound by assumption.
        unfold bind, ret.
        rewrite forward_drain_empty.
        -- rewrite (skipn_beyond (data f)); [eexists; reflexivity|].
           rewrite Hrd in Hout. unfold len in Hout. lia.
        -- apply after_read_pos. lia.
        -- apply readable_after_read. lia.
        -- rewrite after_read_idem by lia. now apply after_read_err_sound.
Qed.

End Styles.

(** X1 at a pipe holding "1\n2\n3\n4\n5\n" asked to start after 4 bytes. *)
Lemma X1_forward_bytes_output_witness :
  exists f',
    @forward window4 (pipe_stream 0 a_log) "stdin" FBYTES 4 stat_fifo world0
    = Done f' (add_out world0 (map Put [x33; x0a; x34; x0a; x35; x0a] ++ [Flush])).
Proof.
  apply (@X1_forward_bytes_output window4 (pipe_stream 0 a_log) "stdin" 4 stat_fifo
           world0); try reflexivity; try lia.
  - repeat split.
  - discriminate.
Defined.

Lemma split_lines_cons_skip b r n :
  (1 <= n)%nat -> is_nl b = false ->
  concat (skipn n (split_lines (b :: r))) = concat (skipn n (split_lines r)).
Proof.
  intros Hn Hb. simpl. rewrite Hb.
  destruct n as [|n]; [lia|].
  destruct (split_lines r) as [|l ls]; simpl; [now destruct n|reflexivity].
Qed.

(** The FLINES loop on a stream without failing reads stops where the
    lines after the first [off] begin, or at the end of the stream. *)
Lemma flines_loop_drop : forall n f off,
  0 <= pos f -> rd_fault f = None -> f_err f = false -> 1 <= off ->
  (length (readable f) < n)%nat ->
  exists f' e,
    flines_loop n f off = Some (f', e)
    /\ readable f' = drop_lines off (readable f)
    /\ 0 <= pos f' /\ rd_fault f' = None /\ f_err f' = false.
Proof.
  induction n as [|n IH]; intros f off Hpos Hfault Herr Hoff Hn; [lia|].
  simpl. getc_step f Hpos.
  - rewrite Hr in *. simpl in Hn.
    assert (Hf' : 0 <= pos f' /\ rd_fault f' = None /\ f_err f' = false).
    { rewrite Hf. simpl. repeat split; auto; lia. }
    destruct Hf' as (Hp' & Hq' & He').
    unfold drop_lines.
    destruct (is_nl b) eqn:Hnl.
    + destruct (Z.eqb_spec (off - 1) 0) as [H1|H1].
      * exists f', false. split; [reflexivity|]. split; [|auto].
        simpl. rewrite Hnl.
        replace (Z.to_nat off) with 1%nat by lia. simpl.
        now rewrite concat_split_lines.
      * destruct (IH f' (off - 1)) as (f2 & e & Hl & Hrd & Hrest); auto; try lia.
        exists f2, e. split; [exact Hl|]. split; [|exact Hrest].
        rewrite Hrd. unfold drop_lines. simpl. rewrite Hnl.
        replace (Z.to_nat off) with (S (Z.to_nat (off - 1))) by lia.
        reflexivity.
    + destruct (IH f' off) as (f2 & e & Hl & Hrd & Hrest); auto; try lia.
      exists f2, e. split; [exact Hl|]. split; [|exact Hrest].
      rewrite Hrd. unfold drop_lines.
      symmetry. apply split_lines_cons_skip; [lia|exact Hnl].
  - exists (after_read f), true. split; [reflexivity|].
    rewrite Hr. unfold drop_lines. simpl. rewrite skipn_nil. simpl.
    split; [apply readable_after_read; lia|].
    split; [now apply after_read_pos|].
    split; [|now apply after_read_err_sound].
    unfold after_read. rewrite Hfault. now destruct (f_eof f).
Qed.

Section StylesLines.
Context {MW : MapWindow}.

(** X2: [tail -n +N]: forward by lines writes the file without its first
    [N] lines; when the file has no more than [N] lines nothing is
    written. *)
Theorem X2_forward_lines_output (f : FILE) (fn : string) (N : Z) (sb : stat)
    (w : world) :
  fresh f -> 0 <= N -> wr_budget w = None ->
  exists f',
    forward f fn FLINES N sb w
    = Done f' (add_out w (map Put (selected FLINES N (data f)) ++ [Flush])).
Proof.
  intros (Hpos & Heof & Herr & Hfault) HN Hw.
  assert (Hrd : readable f = data f).
  { rewrite readable_sound by (auto; lia). now rewrite Hpos. }
  unfold forward, forward_locate, selected.
  destruct (Z.eqb_spec N 0) as [->|HN0].
  - unfold bind, ret. rewrite forward_drain_fine by (auto; lia).
    rewrite Hrd. unfold drop_lines. simpl. rewrite concat_split_lines.
    eexists. reflexivity.
  - destruct (flines_loop_drop (rd_fuel f) f N) as (f1 & e & Hl & Hr1 & Hp1 & Hq1 & He1);
      auto using readable_fuel; try lia.
    rewrite Hl. unfold or_fault.
    assert (Hgo : forall w1, wr_budget w1 = None ->
              forward_drain f1 fn w1
              = Done (after_read f1)
                     (add_out w1 (map Put (drop_lines N (data f)) ++ [Flush]))).
    { intros w1 Hw1. rewrite forward_drain_fine by auto. now rewrite Hr1, Hrd. }
    destruct e.
    + unfold eof_check, ferror. rewrite He1. unfold bind, ret.
      rewrite Hgo by assumption. eexists. reflexivity.
    + unfold bind, ret. rewrite Hgo by assumption. eexists. reflexivity.
Qed.

(** X3: [tail -c 0] and [tail -n 0]: with a count of zero from the end
    forward writes no byte of any stream, seekable or not: it seeks a
    regular file with content to its end and reads anything else to its
    end, so that only what is appended later remains to be shown. *)
Theorem X3_zero_from_end (f : FILE) (fn : string) (style : STYLE) (sb : stat)
    (w : world) :
  style = RBYTES \/ style = RLINES ->
  0 <= pos f -> rd_fault f = None -> f_err f = false ->
  (regular sb = true -> seek_ok f = true) ->
  exists f',
    forward f fn style 0 sb w = Done f' (add_out w [Flush])
    /\ readable f' = [] /\ data f' = data f.
Proof.
  intros Hstyle Hpos Hfault Herr Hseek.
  pose proof (len_nonneg (data f)) as Hlen.
  assert (Hsought : forall f1, seek_ok f = true ->
            fseeko f 0 SEEK_END = Some f1 ->
            forward_drain f1 fn w = Done (after_read f1) (add_out w [Flush])
            /\ readable (after_read f1) = [] /\ data (after_read f1) = data f).
  { intros f1 Hs Hf1. unfold fseeko in Hf1. rewrite Hs in Hf1.
    destruct (Z.leb_spec 0 (len (data f) + 0)); [|lia].
    inversion Hf1; subst f1; clear Hf1.
    split; [|split].
    - apply forward_drain_empty; simpl; try lia.
      + apply readable_at_end. simpl. lia.
      + apply after_read_err_sound; auto.
    - apply readable_after_read. simpl. lia.
    - now rewrite after_read_data. }
  assert (Hread : forward_drain (after_read f) fn w
                  = Done (after_read f) (add_out w [Flush])).
  { rewrite forward_drain_empty; rewrite ?after_read_idem; auto.
    - now apply after_read_pos.
    - now apply readable_after_read.
    - now apply after_read_err_sound. }
  assert (Hseek0 : seek_ok f = true -> exists f1, fseeko f 0 SEEK_END = Some f1).
  { intros Hs. unfold fseeko. rewrite Hs.
    destruct (Z.leb_spec 0 (len (data f) + 0)); [|lia]. eexists. reflexivity. }
  unfold forward, forward_locate.
  destruct (regular sb) eqn:Hreg.
  - destruct (Hseek0 (Hseek eq_refl)) as (f1 & Hf1).
    destruct (Hsought f1 (Hseek eq_refl) Hf1) as (Hd & Hr & Hdata).
    assert (Hreg' : 0 < st_size sb).
    { unfold regular in Hreg. apply andb_true_iff in Hreg as [_ H].
      now apply Z.ltb_lt. }
    destruct Hstyle as [-> | ->].
    + destruct (Z.leb_spec 0 (st_size sb)); [|lia].
      change (- 0) with 0. rewrite Hf1. unfold bind, ret. rewrite Hd.
      exists (after_read f1). auto.
    + rewrite Z.eqb_refl, Hf1. unfold bind, ret. rewrite Hd.
      exists (after_read f1). auto.
  - assert (Hgo : (bind (or_fault (skip_to_eof (rd_fuel f) f) (eof_check fn))
                     (fun r => match r with
                               | Located f' => forward_drain f' fn
                               | Abandon f' => ret f'
                               end)) w
                  = Done (after_read f) (add_out w [Flush])).
    { rewrite skip_to_eof_eq by auto using readable_fuel.
      unfold or_fault, eof_check, ferror.
      rewrite after_read_err_sound by assumption.
      unfold bind, ret. exact Hread. }
    exists (after_read f).
    split; [|split; [now apply readable_after_read|apply after_read_data]].
    destruct Hstyle as [-> | ->]; rewrite Z.eqb_refl; exact Hgo.
Qed.

End StylesLines.

(** X2 at "1\n2\n3\n4\n5\n" asked to start after 3 lines. *)
Lemma X2_forward_lines_output_witness :
  exists f',
    @forward window4 (fresh_stream 3 a_log) "a.log" FLINES 3 (stat_reg 1 a_log) world0
    = Done f' (add_out world0 (map Put [x34; x0a; x35; x0a] ++ [Flush])).
Proof.
  apply (@X2_forward_lines_output window4 (fresh_stream 3 a_log) "a.log" 3
           (stat_reg 1 a_log) world0); try reflexivity; try lia.
  repeat split.
Defined.

(** X3 at a pipe holding "1\n2\n3\n4\n5\n" asked for its last 0 lines. *)
Lemma X3_zero_from_end_witness :
  exists f',
    @forward window4 (pipe_stream 0 a_log) "stdin" RLINES 0 stat_fifo world0
    = Done f' (add_out world0 [Flush])
    /\ readable f' = [] /\ data f' = a_log.
Proof.
  apply (@X3_zero_from_end window4 (pipe_stream 0 a_log) "stdin" RLINES stat_fifo
           world0); try reflexivity; try (simpl; lia); auto; discriminate.
Defined.

(** ** When the standard output refuses a byte *)

Lemma spent_nil w k : wr_budget w = Some k -> spent w [] (last w) k = w.
Proof.
  intros H. destruct w. unfold spent. simpl in *. rewrite app_nil_r. now subst.
Qed.

(** [put_all] under a budget of [k] bytes: all of [bs] when it fits,
    otherwise its first [k] bytes and then the fatal error. *)
Lemma put_all_budget bs : forall w k,
  wr_budget w = Some k ->
  put_all bs w
  = if (length bs <=? k)%nat
    then Done tt (spent w (map Put bs) (last w) (k - length bs))
    else Halt Oerr (spent w (map Put (firstn k bs)) (last w) 0).
Proof.
  induction bs as [|b t IH]; intros w k Hk.
  - simpl. rewrite Nat.sub_0_r. now rewrite spent_nil.
  - cbn [put_all]. unfold bind, putchar. rewrite Hk.
    destruct k as [|k].
    + simpl. unfold oerr, stop. now rewrite spent_nil.
    + rewrite (IH _ k) by reflexivity.
      cbn [length firstn map]. change (S (length t) <=? S k)%nat with (length t <=? k)%nat.
      destruct (length t <=? k)%nat; unfold spent; simpl;
        rewrite <- app_assoc; reflexivity.
Qed.

Section WriteFailure.
Context {MW : MapWindow}.

(** X4: a write failure is fatal to forward.  When the standard output
    takes only [k] bytes and the stream has more to give, forward writes
    exactly the first [k] of them and the run ends in oerr: no flush, no
    report under the name of the file, whatever the state of the
    stream. *)
Theorem X4_forward_write_failure (f : FILE) (fn : string) (style : STYLE)
    (sb : stat) (w : world) (k : nat) :
  style <> RBYTES -> style <> RLINES ->
  0 <= pos f -> wr_budget w = Some k -> (k < length (readable f))%nat ->
  forward f fn style 0 sb w
  = Halt Oerr (spent w (map Put (firstn k (readable f))) (last w) 0).
Proof.
  intros Hs1 Hs2 Hpos Hk Hlt.
  assert (Hloc : forward_locate f fn style 0 sb w = Done (Located f) w).
  { destruct style; try reflexivity; contradiction. }
  unfold forward, bind. rewrite Hloc.
  rewrite forward_drain_eq by assumption. unfold bind.
  rewrite (put_all_budget _ w k Hk).
  destruct (Nat.leb_spec (length (readable f)) k); [lia|reflexivity].
Qed.

End WriteFailure.

(** X4 at "1\n2\n3\n4\n5\n" when the standard output takes 3 bytes. *)
Lemma X4_forward_write_failure_witness :
  @forward window4 (fresh_stream 3 a_log) "a.log" FBYTES 0 (stat_reg 1 a_log)
    (spent world0 [] None 3)
  = Halt Oerr (spent (spent world0 [] None 3) (map Put [x31; x0a; x32]) None 0).
Proof.
  apply (@X4_forward_write_failure window4 (fresh_stream 3 a_log) "a.log" FBYTES
           (stat_reg 1 a_log) (spent world0 [] None 3) 3);
    try discriminate; try reflexivity; simpl; lia.
Defined.

(** The loop of show once [last] is the file: its bytes up to the
    budget, then the fatal error. *)
Lemma show_loop_budget hdr idx name : forall n f w k,
  0 <= pos f -> (length (readable f) < n)%nat ->
  wr_budget w = Some k -> (k < length (readable f))%nat ->
  last w = Some idx ->
  show_loop n hdr idx name f w
  = Halt Oerr (spent w (map Put (firstn k (readable f))) (Some idx) 0).
Proof.
  induction n as [|n IH]; intros f w k Hpos Hn Hk Hlt Hl; [lia|].
  simpl. getc_step f Hpos.
  - rewrite Hr in *. simpl in Hn, Hlt.
    unfold bind, get_last. rewrite Hl, last_differs_same.
    unfold ret, putchar. rewrite Hk.
    destruct k as [|k].
    + simpl. unfold oerr, stop. rewrite <- Hl. now rewrite spent_nil.
    + rewrite (IH f' _ k); simpl; auto; try lia.
      unfold spent; simpl. now rewrite <- app_assoc.
  - rewrite Hr in Hlt. simpl in Hlt. lia.
Qed.

(** X5: a write failure is fatal to show.  When the standard output takes
    only [k] bytes and the stream has more to give, show writes the header
    if one is due, then exactly the first [k] bytes, and the run ends in
    oerr: the stream is neither flushed nor closed. *)
Theorem X5_show_write_failure (o : options) (nf idx : Z) (file : file_info)
    (f : FILE) (w : world) (k : nat) :
  fp file = Some f -> 0 <= pos f ->
  wr_budget w = Some k -> (k < length (readable f))%nat ->
  show o nf idx file w
  = Halt Oerr
      (spent w ((if last_differs (last w) idx && headers o nf
                 then [Header (file_name file) true] else [])
                ++ map Put (firstn k (readable f)))
             (Some idx) 0).
Proof.
  intros Hfp Hpos Hk Hlt. unfold show. rewrite Hfp.
  assert (Hloop : show_loop (rd_fuel f) (headers o nf) idx (file_name file) f w
                  = Halt Oerr
                      (spent w ((if last_differs (last w) idx && headers o nf
                                 then [Header (file_name file) true] else [])
                                ++ map Put (firstn k (readable f)))
                             (Some idx) 0)).
  { pose proof (readable_fuel f) as Hfuel.
    unfold rd_fuel in *. cbn [show_loop].
    getc_step f Hpos.
    2: { rewrite Hr in Hlt. simpl in Hlt. lia. }
    rewrite Hr in *. simpl in Hfuel, Hlt.
    assert (Hstep : forall w1 : world, wr_budget w1 = Some k -> last w1 = Some idx ->
              bind (putchar b)
                   (fun ok => if ok then show_loop (length (data f)) (headers o nf) idx
                                           (file_name file) f'
                              else oerr) w1
              = Halt Oerr (spent w1 (map Put (firstn k (b :: readable f')))
                                 (Some idx) 0)).
    { intros w1 Hk1 Hl1. unfold bind, putchar. rewrite Hk1.
      destruct k as [|k'].
      - simpl. unfold oerr, stop. rewrite <- Hl1. now rewrite spent_nil.
      - rewrite (show_loop_budget _ _ _ _ f' _ k'); simpl; auto; try lia.
        unfold spent; simpl. now rewrite <- app_assoc. }
    unfold bind at 1. unfold get_last. unfold bind at 1.
    destruct (last_differs (last w) idx) eqn:Hdiff.
    - unfold bind at 1. destruct (headers o nf); cbn [andb].
      + unfold printfn, emit, set_last. rewrite Hstep by (simpl; auto).
        unfold spent; simpl. now rewrite <- app_assoc.
      + unfold ret, set_last. rewrite Hstep by (simpl; auto).
        unfold spent; simpl. reflexivity.
    - unfold ret. cbn [andb].
      assert (Hl : last w = Some idx).
      { unfold last_differs in Hdiff. destruct (last w) as [j|]; [|discriminate].
        apply negb_false_iff, Z.eqb_eq in Hdiff. now subst. }
      rewrite Hstep by assumption. reflexivity. }
  unfold bind at 1. now rewrite Hloop.
Qed.

(** X5 at the first file of two when the standard output takes 1 byte. *)
Lemma X5_show_write_failure_witness :
  show opts_f 2 0 file_a (spent world0 [] None 1)
  = Halt Oerr (spent (spent world0 [] None 1) [Header "a" true; Put x78] (Some 0) 0).
Proof.
  apply (X5_show_write_failure opts_f 2 0 file_a (fresh_stream 3 x_line)
           (spent world0 [] None 1) 1); try reflexivity; simpl; lia.
Defined.

(** ** Headers and indicators in show *)

Lemma headers_in_app a b : headers_in (a ++ b) = headers_in a ++ headers_in b.
Proof.
  induction a as [|e a IH]; simpl; [reflexivity|].
  destruct e; simpl; rewrite IH; reflexivity.
Qed.

Lemma headers_in_Put bs : headers_in (map Put bs) = [].
Proof. induction bs; simpl; auto. Qed.

Lemma headers_in_show_events hdr idx name l bs :
  headers_in (show_events hdr idx name l bs)
  = match bs with
    | [] => []
    | _ => if last_differs l idx && hdr then [name] else []
    end.
Proof.
  unfold show_events. destruct bs as [|b t]; [reflexivity|].
  rewrite headers_in_app, headers_in_Put.
  destruct (last_differs l idx && hdr); reflexivity.
Qed.

Lemma headers_in_tail (fn : string) (fd : Z) (b : bool) :
  headers_in (Flush :: (if b then [Closed fd; Ierr fn] else [])) = [].
Proof. now destruct b. Qed.

(** X6: the header of a file is not repeated while that file alone keeps
    writing.  Once a show of the entry at [idx] has written a byte, the
    next show of that entry, with nothing shown for another entry in
    between, writes what its stream has to give and adds no header,
    whatever the header options. *)
Theorem X6_header_not_repeated (o : options) (nf idx : Z) (file1 file2 : file_info)
    (f1 f2 : FILE) (w : world) :
  fp file1 = Some f1 -> 0 <= pos f1 -> readable f1 <> [] ->
  fp file2 = Some f2 -> 0 <= pos f2 -> wr_budget w = None ->
  exists r1 w1 r2 w2,
    show o nf idx file1 w = Done r1 w1
    /\ show o nf idx file2 w1 = Done r2 w2
    /\ headers_in (out w2) = headers_in (out w1)
    /\ written (out w2) = written (out w1) ++ readable f2.
Proof.
  intros Hfp1 Hpos1 Hne Hfp2 Hpos2 Hw.
  rewrite (show_unlimited o nf idx file1 f1 w Hfp1 Hpos1 Hw).
  eexists _, _. 
  assert (Hl : show_last idx (last w) (readable f1) = Some idx).
  { destruct (readable f1); [contradiction|reflexivity]. }
  rewrite Hl.
  set (w1 := upd w _ (Some idx)).
  rewrite (show_unlimited o nf idx file2 f2 w1 Hfp2 Hpos2 Hw).
  eexists _, _. split; [reflexivity|]. split; [reflexivity|].
  cbn [out upd last]. subst w1. cbn [last upd].
  split.
  - rewrite (headers_in_app (out _)), headers_in_app, headers_in_show_events.
    rewrite last_differs_same. cbn [andb].
    rewrite headers_in_tail. destruct (readable f2); now rewrite !app_nil_r.
  - rewrite (written_app (out _)), written_app, written_show_events.
    destruct (f_err (after_read f2)); simpl; now rewrite app_nil_r.
Qed.

(** X6 at "a" first with "x\n" to give and then with "y\n". *)
Lemma X6_header_not_repeated_witness :
  exists r1 w1 r2 w2,
    show opts_f 2 0 file_a world0 = Done r1 w1
    /\ show opts_f 2 0 (set_fp file_a (Some (fresh_stream 3 y_line))) w1 = Done r2 w2
    /\ headers_in (out w2) = headers_in (out w1)
    /\ written (out w2) = written (out w1) ++ y_line.
Proof.
  apply (X6_header_not_repeated opts_f 2 0 file_a
           (set_fp file_a (Some (fresh_stream 3 y_line)))
           (fresh_stream 3 x_line) (fresh_stream 3 y_line) world0);
    try reflexivity; try (simpl; lia).
  discriminate.
Defined.

(** X7: what clearerr in show is for.  On a stream whose end-of-file
    indicator is set, as the copy loop of forward leaves it, show writes
    no byte even when bytes lie beyond the position; it flushes and clears
    the indicator.  The show after that writes those bytes. *)
Theorem X7_show_clears_eof (o : options) (nf idx : Z) (file : file_info)
    (f : FILE) (w : world) :
  fp file = Some f -> 0 <= pos f -> f_eof f = true -> f_err f = false ->
  rd_fault f = None -> wr_budget w = None ->
  let file1 := set_fp file (Some (clearerr f)) in
  show o nf idx file w = Done (file1, 1) (add_out w [Flush])
  /\ exists r w2,
       show o nf idx file1 (add_out w [Flush]) = Done r w2
       /\ written (out w2) = written (out w) ++ skipn (Z.to_nat (pos f)) (data f).
Proof.
  intros Hfp Hpos Heof Herr Hfault Hw file1.
  assert (Har : after_read f = f) by (unfold after_read; now rewrite Heof).
  split.
  - rewrite (show_unlimited o nf idx file f w Hfp Hpos Hw).
    rewrite Har, Herr, (readable_eof f Heof). reflexivity.
  - rewrite (show_unlimited o nf idx file1 (clearerr f) (add_out w [Flush])
               eq_refl Hpos Hw).
    eexists _, _. split; [reflexivity|].
    cbn [out upd add_out].
    rewrite !written_app, written_show_events.
    rewrite readable_sound by (simpl; auto).
    destruct (f_err (after_read (clearerr f))); simpl; now rewrite !app_nil_r.
Qed.

(** X7 at a stream on "x\ny\n" that stands after "x\n" with its
    indicator set. *)
Lemma X7_show_clears_eof_witness :
  let f := {| fileno := 3; data := x_line ++ y_line; pos := 2; rd_fault := None;
              seek_ok := true; f_eof := true; f_err := false |} in
  let file := {| fp := Some f; file_name := "a"; st := stat_reg 1 x_line |} in
  show opts_f 1 0 file world0
  = Done (set_fp file (Some (clearerr f)), 1) (add_out world0 [Flush])
  /\ exists r w2,
       show opts_f 1 0 (set_fp file (Some (clearerr f))) (add_out world0 [Flush])
       = Done r w2
       /\ written (out w2) = written (out world0) ++ y_line.
Proof.
  intros f file.
  apply (X7_show_clears_eof opts_f 1 0 file f world0); try reflexivity.
  simpl. lia.
Defined.

(** ** Passes of plain follow over files at rest *)

Lemma skipn_len_app (a b : list byte) : skipn (Z.to_nat (len a)) (a ++ b) = b.
Proof.
  unfold len. rewrite Nat2Z.id, skipn_app, skipn_all, Nat.sub_diag. reflexivity.
Qed.

Lemma pending_tick_settled p file :
  settled file -> fault p = None ->
  pending (tick p file) = match fp file with Some _ => grown p | None => [] end.
Proof.
  intros Hs Hf. unfold pending, tick.
  destruct (fp file) as [f|] eqn:Hfp; [|now rewrite Hfp].
  destruct (Hs f Hfp) as (Hp & He & _). cbn [fp set_fp].
  rewrite readable_sound; cbn [rd_fault f_eof pos data]; auto.
  - rewrite Hp. apply skipn_len_app.
  - rewrite Hp. unfold len. lia.
Qed.

Lemma settled_shown_tick p file :
  settled file -> fault p = None ->
  settled (shown (tick p file))
  /\ (fp (shown (tick p file)) = None <-> fp file = None).
Proof.
  intros Hs Hf. unfold shown, tick.
  destruct (fp file) as [f|] eqn:Hfp; cbn [fp set_fp].
  - destruct (Hs f Hfp) as (Hp & He & Hr).
    rewrite after_read_err_sound by (cbn; auto).
    cbn [fp set_fp]. split; [|split; discriminate].
    intros g Hg. inversion Hg; subst g; clear Hg.
    rewrite after_read_sound by (cbn; auto). cbn.
    rewrite Hp. repeat split. unfold len. rewrite length_app. lia.
  - rewrite Hfp. split; [|tauto]. intros g Hg. congruence.
Qed.

Lemma growth_pass polls files : forall i,
  Forall settled files -> (forall j, fault (polls j) = None) ->
  concat (map pending (tick_all polls i files)) = growth polls i files
  /\ Forall settled (map shown (tick_all polls i files))
  /\ (forall q j, growth q j (map shown (tick_all polls i files))
                  = growth q j files).
Proof.
  induction files as [|file rest IH]; intros i Hs Hf.
  - cbn. repeat split; auto.
  - inversion Hs as [|? ? Hfile Hrest]; subst.
    destruct (IH (S i) Hrest Hf) as (Hb & Hs' & Hg).
    destruct (settled_shown_tick (polls i) file Hfile (Hf i)) as (Hs1 & Hn).
    cbn [tick_all map concat growth]. split; [|split].
    + now rewrite Hb, pending_tick_settled.
    + constructor; assumption.
    + intros q j. rewrite Hg. f_equal.
      destruct (fp file) eqn:E1, (fp (shown (tick (polls i) file))) eqn:E2;
        try reflexivity.
      * destruct Hn as [Hn _]. specialize (Hn eq_refl). discriminate.
      * destruct Hn as [_ Hn]. specialize (Hn eq_refl). discriminate.
Qed.

Lemma growths_ext env files files' :
  (forall q j, growth q j files' = growth q j files) ->
  forall n k, growths env k n files' = growths env k n files.
Proof.
  intros H. induction n as [|n IH]; intros k; [reflexivity|].
  cbn [growths]. now rewrite H, IH.
Qed.

Lemma settled_wf files : Forall settled files -> Forall wf_file files.
Proof.
  intros H. induction H as [|file rest Hf _ IH]; constructor; auto.
  intros f Hfp. destruct (Hf f Hfp) as (Hp & _). rewrite Hp. unfold len. lia.
Qed.

Lemma passes_growth (o : options) (nf : Z) (n : nat)
    (env : nat -> nat -> poll) (k : nat) (files : list file_info) (w : world) :
  Fflag o = false -> Forall settled files ->
  (forall p i, fault (env p i) = None) -> wr_budget w = None ->
  exists files' w',
    follow_loop o nf n env k files w = Done files' w'
    /\ written (out w') = written (out w) ++ growths env k n files
    /\ Forall settled files'.
Proof.
  intros HF. revert k files w.
  induction n as [|n IH]; intros k files w Hs Hf Hw.
  - exists files, w. cbn. rewrite app_nil_r. auto.
  - cbn [follow_loop growths]. unfold follow_pass. rewrite HF.
    destruct (growth_pass (env k) files 0%nat Hs (Hf k)) as (Hb & Hs' & Hg).
    destruct (follow_show_unlimited o nf (tick_all (env k) 0 files) 0%nat w
                (wf_tick_all _ _ _ (settled_wf _ Hs)) Hw) as (w1 & Hs1 & Hb1 & Hw1).
    unfold bind at 1. unfold bind at 1. unfold ret at 1. unfold bind at 1.
    rewrite Hs1. unfold bind at 1. rewrite emit_eq. unfold ret at 1.
    destruct (IH (S k) _ (add_out w1 [Sleep]) Hs' Hf Hw1) as (files' & w' & Hl & Hbl & Hsl).
    exists files', w'. split; [exact Hl|]. split; [|exact Hsl].
    rewrite Hbl, (growths_ext env _ _ Hg). cbn [out add_out].
    rewrite written_app, Hb1, Hb. cbn [written].
    now rewrite app_nil_r, app_assoc.
Qed.

(** X8: passes of plain follow write what the files gained.  Without
    [-F], over files that were shown to their ends, with reads that do
    not fail and a standard output that takes every byte, [n] passes all
    complete and the bytes they write are what each open file gained
    between passes, pass by pass and, within a pass, in the order of the
    array; the files are at rest again afterwards.  In particular passes
    over files that did not grow write nothing. *)
Theorem X8_passes_write_growth (o : options) (nf : Z) (n : nat)
    (env : nat -> nat -> poll) (k : nat) (files : list file_info) (w : world) :
  Fflag o = false -> Forall settled files ->
  (forall p i, fault (env p i) = None) -> wr_budget w = None ->
  exists files' w',
    follow_loop o nf n env k files w = Done files' w'
    /\ written (out w') = written (out w) ++ growths env k n files
    /\ Forall settled files'.
Proof. apply passes_growth. Qed.

(** X8 at [tail -f a b] once "x\n" and "y\n" have been shown: in the next
    pass "a" gains "y\n" and "b" gains "x\n", in the one after nothing. *)
Lemma X8_passes_write_growth_witness :
  let at_rest d fd name :=
    {| fp := Some (with_pos (fresh_stream fd d) (len d) false false);
       file_name := name; st := stat_reg fd d |} in
  let env (p i : nat) :=
    {| grown := match p, i with O, O => y_line | O, _ => x_line | _, _ => [] end;
       fault := None; reopen := OpenFail true |} in
  exists files' w',
    follow_loop opts_f 2 2 env 0 [at_rest x_line 3 "a"%string; at_rest y_line 4 "b"%string] world0
    = Done files' w'
    /\ written (out w') = y_line ++ x_line
    /\ Forall settled files'.
Proof.
  intros at_rest env.
  apply (X8_passes_write_growth opts_f 2 2 env 0
           [at_rest x_line 3 "a"%string; at_rest y_line 4 "b"%string] world0);
    try reflexivity.
  repeat (apply Forall_cons; [|]); try apply Forall_nil;
    intros f Hf; inversion Hf; subst f; repeat split.
Defined.

(** ** When rlines gives up *)

Section RlinesGivesUp.
Context {MW : MapWindow}.

(** X9: when the first window cannot be mapped, rlines reports the
    error and returns to forward, which goes on to its copy loop: on a
    regular file of two bytes or more, asked for its last [N <> 0] lines,
    forward writes the error message and then everything the stream has to
    give, not the last [N] lines. *)
Theorem X9_map_failure_copies_all (f : FILE) (fn : string) (N : Z) (sb : stat)
    (w : world) :
  st_isreg sb = true -> 2 <= st_size sb -> N <> 0 ->
  maparound (data f)
    {| start := None; mapoff := st_size sb; maxoff := st_size sb; maplen := 0;
       map_fd := fileno f |} (st_size sb - 2) = None ->
  0 <= pos f -> rd_fault f = None -> f_err f = false -> wr_budget w = None ->
  forward f fn RLINES N sb w
  = Done (after_read f) (add_out w (Ierr fn :: map Put (readable f) ++ [Flush])).
Proof.
  intros Hreg Hsize HN Hmap Hpos Hfault Herr Hw.
  unfold forward, forward_locate, regular. rewrite Hreg.
  destruct (Z.ltb_spec 0 (st_size sb)); [|lia]. cbn [andb].
  destruct (Z.eqb_spec N 0); [contradiction|].
  unfold rlines. destruct (Z.eqb_spec (st_size sb) 0); [lia|].
  unfold rlines_scan.
  destruct (Z.to_nat (st_size sb)) as [|k] eqn:Hk; [lia|].
  cbn [rlines_loop mapoff].
  destruct (Z.ltb_spec (st_size sb - 2) 0); [lia|].
  destruct (Z.ltb_spec (st_size sb - 2) (st_size sb)); [|lia].
  rewrite Hmap.
  unfold bind at 1. unfold bind at 1. unfold bind at 1. unfold ierr at 1.
  rewrite emit_eq. unfold ret at 1. unfold ret at 1.
  rewrite forward_drain_fine by auto.
  rewrite add_out_app. reflexivity.
Qed.

End RlinesGivesUp.

(** X9 at "1\n2\n3\n4\n5\n" asked for 2 lines when no window can be
    mapped. *)
Lemma X9_map_failure_copies_all_witness :
  @forward (window_at 4 (fun _ => false) true) (fresh_stream 3 a_log) "a.log"
    RLINES 2 (stat_reg 1 a_log) world0
  = Done (after_read (fresh_stream 3 a_log))
         (add_out world0 (Ierr "a.log" :: map Put (readable (fresh_stream 3 a_log))
                          ++ [Flush])).
Proof.
  apply (@X9_map_failure_copies_all (window_at 4 (fun _ => false) true)
           (fresh_stream 3 a_log) "a.log" 2 (stat_reg 1 a_log) world0);
    try reflexivity; try (vm_compute; discriminate).
Defined.

Section RlinesSeek.
Context {MW : MapWindow} {WC : WindowContract MW}.

(** X10: when the seek that follows the display fails, rlines reports
    it and returns with the stream where it was, and the copy loop of
    forward then writes what the stream has to give after the lines
    already written: on a stream that cannot seek, forward asked for the
    last [N <> 0] lines of a regular file with content writes those
    lines, the error message, and then the stream from its position, the
    whole file when it stood at the start. *)
Theorem X10_seek_failure_second_copy (f : FILE) (fn : string) (N : Z) (sb : stat)
    (w : world) :
  window_works MW (data f) ->
  seek_ok f = false -> regular sb = true -> st_size sb = len (data f) ->
  N <> 0 -> 0 <= pos f -> f_eof f = false -> rd_fault f = None ->
  f_err f = false -> wr_budget w = None ->
  exists w',
    forward f fn RLINES N sb w = Done (after_read f) w'
    /\ out w' = out w
                ++ WriteRange (skipn (Z.to_nat (findStartOffset (data f) N)) (data f))
                   :: Ierr fn
                   :: map Put (skipn (Z.to_nat (pos f)) (data f)) ++ [Flush].
Proof.
  intros [Hmaps Hprints] Hseek Hreg Hsize HN Hpos Heof Hfault Herr Hw.
  assert (Hsz : 0 < st_size sb).
  { unfold regular in Hreg. apply andb_true_iff in Hreg as [_ H].
    now apply Z.ltb_lt. }
  unfold forward, forward_locate. rewrite Hreg.
  destruct (Z.eqb_spec N 0); [contradiction|].
  unfold rlines. destruct (Z.eqb_spec (st_size sb) 0); [lia|].
  destruct (rlines_scan_back f N sb Hmaps Hsize Hsz) as (map & Hscan & Hmaxoff).
  rewrite Hscan.
  pose proof (back_scan_bounds (data f) (length (data f) - 1) N) as Hb.
  fold (findStartOffset (data f) N) in Hb.
  replace (findStartOffset (data f) N - 1 + 1) with (findStartOffset (data f) N)
    by lia.
  destruct (mapprint (data f) map (findStartOffset (data f) N)
              (st_size sb - findStartOffset (data f) N))
    as [[map' bs] rc] eqn:Hprint.
  pose proof (Hprints map (findStartOffset (data f) N)
                (st_size sb - findStartOffset (data f) N)
                ltac:(lia) ltac:(unfold len in *; lia) ltac:(lia)) as Hrc.
  rewrite Hprint in Hrc. simpl in Hrc. subst rc.
  assert (Hbs : bs = skipn (Z.to_nat (findStartOffset (data f) N)) (data f)).
  { rewrite <- (slice_all (data f) (findStartOffset (data f) N)) by lia.
    rewrite <- Hsize.
    eapply mapprint_writes; [| | |exact Hprint]; unfold len in *; lia. }
  subst bs.
  unfold fseeko. rewrite Hseek. cbn [andb Z.eqb negb].
  unfold bind at 1. unfold bind at 1. unfold bind at 1. rewrite emit_eq.
  unfold bind at 1. unfold set_view at 1. unfold bind at 1. unfold ierr at 1.
  rewrite emit_eq. unfold ret at 1. unfold ret at 1.
  rewrite forward_drain_fine by auto.
  eexists. split; [reflexivity|].
  cbn [out add_out]. rewrite readable_sound by auto.
  rewrite <- !app_assoc. reflexivity.
Qed.

End RlinesSeek.

(** X10 at "1\n2\n3\n4\n5\n" asked for 2 lines on a stream that cannot
    seek: "4\n5\n" is followed by the whole file. *)
Lemma X10_seek_failure_second_copy_witness :
  exists w',
    @forward window4 (pipe_stream 3 a_log) "a.log" RLINES 2 (stat_reg 1 a_log) world0
    = Done (after_read (pipe_stream 3 a_log)) w'
    /\ out w' = out world0
                ++ WriteRange (skipn (Z.to_nat (findStartOffset a_log 2)) a_log)
                   :: Ierr "a.log"
                   :: map Put (skipn (Z.to_nat 0) a_log) ++ [Flush].
Proof.
  apply (@X10_seek_failure_second_copy window4
           (window_at_contract 4 _ _ ltac:(unfold INT_MAX; lia))
           (pipe_stream 3 a_log) "a.log" 2 (stat_reg 1 a_log) world0);
    try reflexivity; try (vm_compute; discriminate); try (simpl; lia).
  apply window_at_works. lia.
Defined.

(** ** Reopening paths that did not move *)

Lemma unmoved_step o nf idx r file w :
  unmoved r file = true ->
  reopen_step o nf idx r file w
  = Done file (add_out w (match fp file, r with
                          | Some f, OpenOk ftmp _ =>
                              if fileno f =? STDIN_FILENO then []
                              else [Closed (fileno ftmp)]
                          | _, _ => []
                          end)).
Proof.
  unfold unmoved, reopen_step. intros H.
  destruct (fp file) as [f|].
  - destruct (fileno f =? STDIN_FILENO) eqn:Hstd.
    + destruct r; unfold ret; now rewrite add_out_nil.
    + destruct r as [e|g e|g sb2]; try discriminate.
      cbn [orb] in H. apply negb_true_iff in H. rewrite H.
      unfold bind, fclose. rewrite emit_eq. reflexivity.
  - destruct r; try discriminate. unfold ret. now rewrite add_out_nil.
Qed.

Lemma unmoved_reopen o nf polls files : forall i w,
  unmoved_all polls i files = true ->
  follow_reopen o nf polls i files w
  = Done files (add_out w (reopen_closes polls i files)).
Proof.
  induction files as [|file rest IH]; intros i w H.
  - cbn. unfold ret. now rewrite add_out_nil.
  - cbn [unmoved_all] in H. apply andb_true_iff in H as [H1 H2].
    cbn [follow_reopen reopen_closes]. unfold bind.
    rewrite (unmoved_step o nf _ _ _ w H1), (IH _ _ H2).
    unfold ret. now rewrite add_out_app.
Qed.

Lemma tick_unmoved polls files : forall i,
  unmoved_all polls i (tick_all polls i files) = unmoved_all polls i files
  /\ reopen_closes polls i (tick_all polls i files) = reopen_closes polls i files.
Proof.
  induction files as [|file rest IH]; intros i; [split; reflexivity|].
  destruct (IH (S i)) as [IH1 IH2].
  cbn [tick_all unmoved_all reopen_closes]. rewrite IH1, IH2.
  unfold tick, unmoved. destruct (fp file) as [f|] eqn:Hfp; cbn [fp set_fp st fileno].
  - split; reflexivity.
  - rewrite Hfp. split; reflexivity.
Qed.

Lemma follow_show_plain o nf files : forall i w,
  follow_show (plain o) nf i files w = follow_show o nf i files w.
Proof.
  induction files as [|file rest IH]; intros i w; [reflexivity|].
  cbn [follow_show]. unfold bind.
  assert (E : show (plain o) nf (Z.of_nat i) file = show o nf (Z.of_nat i) file)
    by reflexivity.
  destruct (fp file); [rewrite E|];
    match goal with |- match ?c with _ => _ end = _ => destruct c end;
    try reflexivity; now rewrite IH.
Qed.

(** X11: with [-F], a pass over files whose paths did not move is the
    pass of plain follow.  When every path still leads to the file its
    stream was opened on, and paths that could not be opened still cannot,
    the reopen loop shows nothing and changes no entry; all it leaves in
    the trace is the closing of the streams it opened to look.  The rest
    of the pass, whatever it reads, writes or fails on, is that of the
    same options without [-F]. *)
Theorem X11_unmoved_pass_is_plain (o : options) (nf : Z) (polls : nat -> poll)
    (files : list file_info) (w : world) :
  Fflag o = true -> unmoved_all polls 0 files = true ->
  follow_pass o nf polls files w
  = follow_pass (plain o) nf polls files (add_out w (reopen_closes polls 0 files)).
Proof.
  intros HF Hu. unfold follow_pass. rewrite HF. cbn [Fflag plain].
  destruct (tick_unmoved polls files 0) as [E1 E2].
  unfold bind at 1. rewrite unmoved_reopen by (now rewrite E1). rewrite E2.
  unfold bind at 3. unfold ret at 2.
  unfold bind. rewrite follow_show_plain. reflexivity.
Qed.

(** X11 at [tail -F a] when the path "a" still leads to inode 1. *)
Lemma X11_unmoved_pass_is_plain_witness :
  follow_pass opts_F 1 (b_appears 0) [file_a] world0
  = follow_pass (plain opts_F) 1 (b_appears 0) [file_a]
      (add_out world0 (reopen_closes (b_appears 0) 0 [file_a])).
Proof.
  apply (X11_unmoved_pass_is_plain opts_F 1 (b_appears 0) [file_a] world0);
    reflexivity.
Defined.

(** ** Letting go of a stream *)

Lemma closed_in_app a b : closed_in (a ++ b) = closed_in a ++ closed_in b.
Proof.
  induction a as [|e a IH]; simpl; [reflexivity|].
  destruct e; simpl; rewrite IH; reflexivity.
Qed.

Lemma closed_in_show_events hdr idx name l bs :
  closed_in (show_events hdr idx name l bs) = [].
Proof.
  unfold show_events. destruct bs as [|b t]; [reflexivity|].
  rewrite closed_in_app.
  replace (closed_in (map Put (b :: t))) with (@nil Z)
    by (induction (b :: t); simpl; auto).
  destruct (last_differs l idx && hdr); reflexivity.
Qed.

(** What show followed by [if (file->fp != NULL) fclose(file->fp)] leaves
    in the trace. *)
Lemma show_then_close o nf idx file f w :
  fp file = Some f -> 0 <= pos f -> wr_budget w = None ->
  exists s w1 w2 es,
    show o nf idx file w = Done s w1
    /\ close_if_open (fst s) w1 = Done tt w2
    /\ out w2 = out w ++ es
    /\ file_name (fst s) = file_name file /\ st (fst s) = st file
    /\ closed_in es = [fileno f]
    /\ written es = readable f.
Proof.
  intros Hfp Hpos Hw.
  rewrite (show_unlimited o nf idx file f w Hfp Hpos Hw).
  destruct (f_err (after_read f)); eexists _, _, _, _;
    (split; [reflexivity|]); cbn [fst close_if_open set_fp fp];
    unfold ret, fclose; rewrite ?emit_eq;
    (split; [reflexivity|]); cbn [out add_out upd]; rewrite <- ?app_assoc;
    (split; [reflexivity|]); (split; [reflexivity|]); (split; [reflexivity|]);
    rewrite !closed_in_app, !written_app, closed_in_show_events,
      written_show_events; cbn; rewrite ?after_read_fileno, ?app_nil_r; auto.
Qed.

(** X12: a stream the reopen loop gives up is shown first and closed
    once.  When the path of an open file other than the standard input
    cannot be opened, cannot be examined, or leads to another file, the
    body of the loop writes what the old stream still has to give and
    closes it exactly once, whether or not show already closed it on a
    read error; a stream opened on a path that could not be examined is
    closed after it.  The entry is left with the new stream when there is
    one to adopt and without a stream otherwise. *)
Theorem X12_old_stream_closed_once (o : options) (nf idx : Z) (r : open_result)
    (file : file_info) (f : FILE) (w : world) :
  fp file = Some f -> reopen_shows r file = true -> 0 <= pos f ->
  wr_budget w = None ->
  exists file' w' es,
    reopen_step o nf idx r file w = Done file' w'
    /\ out w' = out w ++ es
    /\ written es = readable f
    /\ closed_in es = fileno f :: match r with
                                  | OpenStatFail ftmp _ => [fileno ftmp]
                                  | _ => []
                                  end
    /\ fp file' = match r with
                  | OpenOk ftmp _ => Some ftmp
                  | _ => None
                  end
    /\ file_name file' = file_name file.
Proof.
  intros Hfp Hshows Hpos Hw.
  unfold reopen_shows in Hshows. rewrite Hfp in Hshows.
  unfold reopen_step. rewrite Hfp.
  destruct (fileno f =? STDIN_FILENO); [discriminate|].
  destruct r as [e|g e|g sb2].
  - destruct (show_then_close o nf idx file f
                (add_out w (if negb e then [Ierr (file_name file)] else []))
                Hfp Hpos Hw) as (s & w1 & w2 & es & Hs & Hc & Ho & Hn & _ & Hcl & Hwr).
    exists (set_fp (fst s) None), w2,
      ((if negb e then [Ierr (file_name file)] else []) ++ es).
    split.
    + unfold bind at 1.
      replace ((if negb e then ierr (file_name file) else ret tt) w)
        with (Done tt (add_out w (if negb e then [Ierr (file_name file)] else [])))
        by (destruct e; cbn [negb]; unfold ierr, ret;
            rewrite ?emit_eq, ?add_out_nil; reflexivity).
      unfold bind. rewrite Hs, Hc. reflexivity.
    + rewrite Ho. cbn [out add_out]. rewrite <- app_assoc.
      rewrite written_app, closed_in_app, Hwr, Hcl.
      destruct e; cbn; auto.
  - destruct (show_then_close o nf idx file f
                (add_out w (if negb e then [Ierr (file_name file)] else []))
                Hfp Hpos Hw) as (s & w1 & w2 & es & Hs & Hc & Ho & Hn & _ & Hcl & Hwr).
    exists (set_fp (fst s) None), (add_out w2 [Closed (fileno g)]),
      ((if negb e then [Ierr (file_name file)] else []) ++ es ++ [Closed (fileno g)]).
    split.
    + unfold bind at 1.
      replace ((if negb e then ierr (file_name file) else ret tt) w)
        with (Done tt (add_out w (if negb e then [Ierr (file_name file)] else [])))
        by (destruct e; cbn [negb]; unfold ierr, ret;
            rewrite ?emit_eq, ?add_out_nil; reflexivity).
      unfold bind, fclose. rewrite Hs, Hc, emit_eq. reflexivity.
    + cbn [out add_out]. rewrite Ho. cbn [out add_out]. rewrite <- !app_assoc.
      rewrite !written_app, !closed_in_app, Hwr, Hcl.
      destruct e; cbn; rewrite ?app_nil_r; auto.
  - rewrite Hshows.
    destruct (show_then_close o nf idx file f w Hfp Hpos Hw)
      as (s & w1 & w2 & es & Hs & Hc & Ho & _ & _ & Hcl & Hwr).
    exists {| fp := Some g; file_name := file_name file; st := sb2 |}, w2, es.
    split; [unfold bind; rewrite Hs, Hc; reflexivity|].
    auto.
Qed.

(** X12 at the entry of "a.log" with reads failing from offset 2, when
    the path is gone: show closes the stream on the read error and the
    loop does not close it again. *)
Lemma X12_old_stream_closed_once_witness :
  exists file' w' es,
    reopen_step opts_F 1 0 (OpenFail true) file_failing world0 = Done file' w'
    /\ out w' = out world0 ++ es
    /\ written es = readable (failing_stream 3 a_log 2)
    /\ closed_in es = [3]
    /\ fp file' = None
    /\ file_name file' = "a.log"%string.
Proof.
  apply (X12_old_stream_closed_once opts_F 1 0 (OpenFail true) file_failing
           (failing_stream 3 a_log 2) world0); try reflexivity; simpl; lia.
Defined.

(** ** What forward leaves in the trace *)

Lemma adds_ret {A} P (a : A) : adds P (ret a).
Proof. intros w. exists []. split; [constructor|]. simpl. now rewrite app_nil_r. Qed.

Lemma adds_stop {A} P h : adds P (@stop A h).
Proof. intros w. exists []. split; [constructor|]. simpl. now rewrite app_nil_r. Qed.

Lemma adds_emit (P : event -> Prop) e : P e -> adds P (emit e).
Proof. intros H w. exists [e]. split; [now constructor|reflexivity]. Qed.

Lemma adds_bind {A B} P (c : M A) (k : A -> M B) :
  adds P c -> (forall a, adds P (k a)) -> adds P (bind c k).
Proof.
  intros Hc Hk w. unfold bind. destruct (Hc w) as (es & HP & Ho).
  destruct (c w) as [a w1|h w1]; simpl in Ho.
  - destruct (Hk a w1) as (es' & HP' & Ho').
    exists (es ++ es'). split; [now apply Forall_app|].
    now rewrite Ho', Ho, app_assoc.
  - exists es. now split.
Qed.

Lemma adds_putchar (P : event -> Prop) b : P (Put b) -> adds P (putchar b).
Proof.
  intros H w. unfold putchar. destruct (wr_budget w) as [[|n]|]; simpl.
  - exists []. split; [constructor|now rewrite app_nil_r].
  - exists [Put b]. split; [now constructor|reflexivity].
  - exists [Put b]. split; [now constructor|reflexivity].
Qed.

Lemma adds_quiet {A} P (c : M A) :
  (forall w, out (world_of (c w)) = out w) -> adds P c.
Proof.
  intros H w. exists []. split; [constructor|]. now rewrite H, app_nil_r.
Qed.

Lemma adds_put_all (P : event -> Prop) bs :
  (forall b, P (Put b)) -> adds P (put_all bs).
Proof.
  intros H. induction bs as [|b t IH]; cbn [put_all]; [apply adds_ret|].
  apply adds_bind; [now apply adds_putchar|].
  intros [|]; [exact IH|apply adds_stop].
Qed.

Lemma adds_drain_loop (P : event -> Prop) n :
  (forall b, P (Put b)) -> forall f, adds P (drain_loop n f).
Proof.
  intros H. induction n as [|k IH]; intros f; cbn [drain_loop]; [apply adds_stop|].
  destruct (getc f) as [[b|] f']; [|apply adds_ret].
  apply adds_bind; [now apply adds_putchar|].
  intros [|]; [apply IH|apply adds_stop].
Qed.

Ltac adds_step :=
  first [ apply adds_ret | apply adds_stop
        | apply adds_emit; exact I
        | apply adds_put_all; intros; exact I
        | apply adds_drain_loop; intros; exact I
        | apply adds_bind; [|intros] ].

Lemma adds_bytes f fn off : adds forward_event (bytes f fn off).
Proof.
  unfold bytes. destruct (read_all (rd_fuel f) f []) as [[f' bs]|]; [|adds_step].
  unfold ierr. destruct (ferror f'); repeat adds_step.
Qed.

Lemma adds_lines f fn off : adds forward_event (lines f fn off).
Proof.
  unfold lines. destruct (read_all (rd_fuel f) f []) as [[f' bs]|]; [|adds_step].
  unfold ierr. destruct (ferror f'); repeat adds_step.
Qed.

Section ForwardTrace.
Context {MW : MapWindow}.

Lemma adds_rlines f fn off sb : adds forward_event (rlines f fn off sb).
Proof.
  unfold rlines, ierr. destruct (st_size sb =? 0); [adds_step|].
  destruct (rlines_scan f off sb) as [map curoff| |]; repeat adds_step.
  destruct (mapprint (data f) map (curoff + 1) (st_size sb - (curoff + 1)))
    as [[map' bs] rc].
  adds_step; [adds_step|].
  adds_step; [apply adds_quiet; reflexivity|].
  destruct (negb (rc =? 0)); repeat adds_step.
  destruct (fseeko f (st_size sb) SEEK_SET); repeat adds_step.
  destruct (start map'); repeat adds_step.
  - apply adds_quiet. intros w. unfold munmap. now destruct (munmap_ok w).
  - destruct a1; repeat adds_step.
Qed.

Lemma adds_forward_locate f fn style off sb :
  adds forward_event (forward_locate f fn style off sb).
Proof.
  unfold forward_locate, or_fault, eof_check, ierr.
  destruct style.
  all: repeat match goal with
       | |- adds _ (if ?c then _ else _) => destruct c
       | |- adds _ (match ?c with Some _ => _ | None => _ end) => destruct c
       | |- adds _ (let '(_, _) := ?c in _) => destruct c
       | |- adds _ (bytes _ _ _) => apply adds_bytes
       | |- adds _ (lines _ _ _) => apply adds_lines
       | |- adds _ (rlines _ _ _ _) => apply adds_rlines
       | |- _ => adds_step
       end.
Qed.

Lemma adds_forward f fn style off sb :
  adds forward_event (forward f fn style off sb).
Proof.
  unfold forward. apply adds_bind; [apply adds_forward_locate|].
  intros [f'|f']; [|adds_step].
  unfold forward_drain, ierr, fflush. adds_step; [adds_step|].
  destruct (ferror a); repeat adds_step.
Qed.

End ForwardTrace.

Lemma forward_event_quiet es :
  Forall forward_event es -> headers_in es = [] /\ closed_in es = [].
Proof.
  induction 1 as [|e es He _ [IH1 IH2]]; [split; reflexivity|].
  destruct e; simpl in *; try contradiction; auto.
Qed.

(** X13: what forward never does.  Whatever the stream, the style, the
    count and the window primitives, and however forward ends (by
    returning, on a refused write or in the exit of rlines), it has added
    to the trace nothing but bytes, flushes and error messages: it prints
    no header, closes no stream and does not sleep. *)
Theorem X13_forward_trace {MW : MapWindow} (f : FILE) (fn : string)
    (style : STYLE) (off : Z) (sb : stat) (w : world) :
  exists es,
    out (world_of (forward f fn style off sb w)) = out w ++ es
    /\ Forall forward_event es
    /\ headers_in es = [] /\ closed_in es = [] /\ ~ In Sleep es.
Proof.
  destruct (adds_forward f fn style off sb w) as (es & HP & Ho).
  exists es. split; [exact Ho|]. split; [exact HP|].
  destruct (forward_event_quiet es HP) as [H1 H2].
  split; [exact H1|]. split; [exact H2|].
  intros Hin. rewrite Forall_forall in HP. exact (HP Sleep Hin).
Qed.

(** ** The headers of the positioning stage *)

Section Position.
Context {MW : MapWindow}.

Lemma follow_position_headers o nf style off files : forall active w r w',
  follow_position o nf style off files active w = Done r w' ->
  headers_in (out w')
  = headers_in (out w) ++ (if headers o nf then open_names files else [])
  /\ snd r = active || negb (match open_names files with [] => true | _ => false end)
  /\ open_names (fst r) = open_names files.
Proof.
  induction files as [|file rest IH]; intros active w r w' H.
  - cbn in H. inversion H; subst. cbn.
    rewrite orb_false_r. destruct (headers o nf); now rewrite app_nil_r.
  - cbn [follow_position open_names] in *.
    destruct (fp file) as [f|] eqn:Hfp.
    + unfold bind at 1 in H.
      set (w1 := add_out w (if headers o nf then [Header (file_name file) true] else [])).
      assert (E : (if headers o nf then printfn (file_name file) true else ret tt) w
                  = Done tt w1).
      { subst w1. destruct (headers o nf); unfold printfn, ret;
          rewrite ?emit_eq, ?add_out_nil; reflexivity. }
      rewrite E in H. unfold bind at 1 in H.
      destruct (adds_forward f (file_name file) style off (st file) w1)
        as (es & HP & Ho).
      destruct (forward f (file_name file) style off (st file) w1)
        as [f' w2|h w2]; [|discriminate].
      cbn [world_of] in Ho. unfold bind at 1 in H.
      destruct (follow_position o nf style off rest true w2) as [r2 w3|h w3] eqn:Hrest;
        [|discriminate].
      unfold ret in H. inversion H; subst r w'; clear H.
      destruct (IH true w2 r2 w3 Hrest) as (Hh & Hs & Hn).
      destruct (forward_event_quiet es HP) as [Hq _].
      cbn [fst snd open_names fp set_fp file_name]. rewrite Hn.
      split; [|split; [now rewrite orb_true_r|reflexivity]].
      rewrite Hh, Ho, headers_in_app, Hq, app_nil_r. subst w1. cbn [out add_out].
      rewrite headers_in_app.
      destruct (headers o nf); cbn; now rewrite <- ?app_assoc, ?app_nil_r.
    + unfold bind at 1 in H.
      destruct (follow_position o nf style off rest active w) as [r2 w3|h w3] eqn:Hrest;
        [|discriminate].
      unfold ret in H. inversion H; subst r w'; clear H.
      destruct (IH active w r2 w3 Hrest) as (Hh & Hs & Hn).
      cbn [fst snd open_names]. rewrite Hfp. auto.
Qed.

(** X14: the headers of the positioning stage.  When the positioning
    loop of follow gets through the array, it has printed one header for
    each entry that has a stream, in array order, if headers are on, and
    none if they are off; entries without a stream get none.  The loop
    reports the array active exactly when some entry has a stream. *)
Theorem X14_position_headers (o : options) (nf : Z) (style : STYLE) (off : Z)
    (files : list file_info) (w : world) (r : list file_info * bool) (w' : world) :
  follow_position o nf style off files false w = Done r w' ->
  headers_in (out w')
  = headers_in (out w) ++ (if headers o nf then open_names files else [])
  /\ (snd r = true <-> open_names files <> []).
Proof.
  intros H.
  destruct (follow_position_headers o nf style off files false w r w' H)
    as (Hh & Hs & _).
  split; [exact Hh|]. rewrite Hs. cbn [orb].
  destruct (open_names files); cbn; split; intros; congruence.
Qed.

End Position.

(** X14 at [tail -f a b] when "b" does not exist: one header, that of
    "a". *)
Lemma X14_position_headers_witness :
  exists r w',
    @follow_position window4 opts_f 2 RLINES 10 [file_a; file_b_absent] false world0
    = Done r w'
    /\ headers_in (out w') = ["a"%string]
    /\ (snd r = true <-> open_names [file_a; file_b_absent] <> []).
Proof.
  eexists _, _. split; [vm_compute; reflexivity|].
  apply (@X14_position_headers window4 opts_f 2 RLINES 10 [file_a; file_b_absent]
           world0).
  vm_compute. reflexivity.
Defined.

(** ** The first pass after positioning *)

Lemma drained_two_polls p q file :
  drained file -> fault p = None -> fault q = None ->
  pending (tick p file) = []
  /\ wf_file (shown (tick p file))
  /\ pending (tick q (shown (tick p file)))
     = match fp file with Some _ => grown p ++ grown q | None => [] end
  /\ settled (shown (tick q (shown (tick p file))))
  /\ (fp (shown (tick q (shown (tick p file)))) = None <-> fp file = None).
Proof.
  intros Hd Hp Hq.
  destruct (fp file) as [f|] eqn:Hfp.
  - destruct (Hd f Hfp) as (Hpos & Heof & Herr).
    set (f0 := {| fileno := fileno f; data := data f ++ grown p; pos := pos f;
                  rd_fault := fault p; seek_ok := seek_ok f; f_eof := f_eof f;
                  f_err := f_err f |}).
    assert (T1 : tick p file = set_fp file (Some f0))
      by (unfold tick; now rewrite Hfp).
    rewrite T1.
    assert (Har : after_read f0 = f0) by (unfold after_read; subst f0; cbn; now rewrite Heof).
    assert (Hsh : shown (set_fp file (Some f0)) = set_fp file (Some (clearerr f0))).
    { unfold shown. cbn [fp set_fp]. rewrite Har. subst f0; cbn. now rewrite Herr. }
    rewrite Hsh. split; [|split; [|split; [|split]]].
    + unfold pending. cbn [fp set_fp]. apply readable_eof. subst f0; cbn. exact Heof.
    + intros g Hg. inversion Hg; subst g f0; cbn. rewrite Hpos. apply len_nonneg.
    + unfold pending, tick. cbn [fp set_fp].
      rewrite readable_sound; subst f0; cbn; auto.
      * rewrite Hpos, <- app_assoc. apply skipn_len_app.
      * rewrite Hpos. apply len_nonneg.
    + unfold shown, tick. cbn [fp set_fp].
      rewrite after_read_err_sound by (subst f0; cbn; auto).
      intros g Hg. inversion Hg; subst g; clear Hg.
      rewrite after_read_sound by (subst f0; cbn; auto). subst f0; cbn.
      rewrite Hpos. repeat split. unfold len. rewrite !length_app. lia.
    + unfold shown, tick. cbn [fp set_fp].
      rewrite after_read_err_sound by (subst f0; cbn; auto).
      cbn [fp set_fp]. split; discriminate.
  - assert (E0 : tick p file = file) by (unfold tick; now rewrite Hfp).
    assert (E1 : shown file = file) by (unfold shown; now rewrite Hfp).
    assert (E2 : tick q file = file) by (unfold tick; now rewrite Hfp).
    rewrite E0, E1, E2, E1. unfold pending. rewrite Hfp.
    split; [reflexivity|]. split; [intros g Hg; congruence|].
    split; [reflexivity|]. split; [intros g Hg; congruence|tauto].
Qed.

Lemma drained_two_passes p q files : forall i,
  Forall drained files ->
  (forall j, fault (p j) = None) -> (forall j, fault (q j) = None) ->
  let files1 := map shown (tick_all p i files) in
  let files2 := map shown (tick_all q i files1) in
  concat (map pending (tick_all p i files)) = []
  /\ Forall wf_file (tick_all p i files)
  /\ concat (map pending (tick_all q i files1))
     = growth (fun j => both (p j) (q j)) i files
  /\ Forall wf_file (tick_all q i files1)
  /\ Forall settled files2
  /\ (forall r j, growth r j files2 = growth r j files).
Proof.
  induction files as [|file rest IH]; intros i Hd Hp Hq.
  - cbn. repeat split; auto.
  - inversion Hd as [|? ? Hfile Hrest]; subst.
    destruct (IH (S i) Hrest Hp Hq) as (H1 & H2 & H3 & H4 & H5 & H6).
    destruct (drained_two_polls (p i) (q i) file Hfile (Hp i) (Hq i))
      as (K1 & K2 & K3 & K4 & K5).
    cbv zeta in *. cbn [tick_all map concat growth].
    split; [now rewrite K1, H1|].
    split.
    { constructor; [|exact H2]. apply wf_tick.
      intros g Hg. destruct (Hfile g Hg) as (E & _). rewrite E. apply len_nonneg. }
    split; [rewrite K3, H3; reflexivity|].
    split; [constructor; [now apply wf_tick|exact H4]|].
    split; [constructor; assumption|].
    intros r j. rewrite H6. f_equal.
    destruct (fp file) eqn:E1,
      (fp (shown (tick (q i) (shown (tick (p i) file))))) eqn:E2; try reflexivity.
    + destruct K5 as [K5 _]. specialize (K5 eq_refl). discriminate.
    + destruct K5 as [_ K5]. specialize (K5 eq_refl). discriminate.
Qed.

(** X15: the first pass after positioning shows nothing.  The copy loop
    of forward leaves the end-of-file indicator of a stream set, and show
    reads nothing from such a stream before it clears the indicator.  So
    without [-F], over streams left that way, the first pass of the loop
    writes no byte whatever the files gained; what they gained before the
    first and before the second pass is written in the second pass, file
    by file, and from then on each pass writes what the files gained
    before it. *)
Theorem X15_first_pass_delay (o : options) (nf : Z) (n : nat)
    (env : nat -> nat -> poll) (k : nat) (files : list file_info) (w : world) :
  Fflag o = false -> Forall drained files ->
  (forall p i, fault (env p i) = None) -> wr_budget w = None ->
  (exists files1 w1,
     follow_loop o nf 1 env k files w = Done files1 w1
     /\ written (out w1) = written (out w))
  /\ (exists files' w',
        follow_loop o nf (S (S n)) env k files w = Done files' w'
        /\ written (out w')
           = written (out w)
             ++ growth (fun i => both (env k i) (env (S k) i)) 0 files
             ++ growths env (S (S k)) n files).
Proof.
  intros HF Hd Hf Hw.
  destruct (drained_two_passes (env k) (env (S k)) files 0%nat Hd (Hf k) (Hf (S k)))
    as (H1 & H2 & H3 & H4 & H5 & H6). cbv zeta in *.
  destruct (follow_show_unlimited o nf (tick_all (env k) 0 files) 0%nat w H2 Hw)
    as (w1 & Hs1 & Hb1 & Hw1).
  assert (P1 : follow_pass o nf (env k) files w
               = Done (map shown (tick_all (env k) 0 files)) (add_out w1 [Sleep])).
  { unfold follow_pass. rewrite HF. unfold bind, ret. rewrite Hs1. reflexivity. }
  assert (B1 : written (out (add_out w1 [Sleep])) = written (out w)).
  { cbn [out add_out]. rewrite written_app, Hb1, H1. cbn. now rewrite !app_nil_r. }
  split.
  - eexists _, _. cbn [follow_loop]. unfold bind. rewrite P1. unfold ret.
    split; [reflexivity|exact B1].
  - destruct (follow_show_unlimited o nf
                (tick_all (env (S k)) 0 (map shown (tick_all (env k) 0 files)))
                0%nat (add_out w1 [Sleep]) H4 Hw1) as (w2 & Hs2 & Hb2 & Hw2).
    assert (P2 : follow_pass o nf (env (S k)) (map shown (tick_all (env k) 0 files))
                   (add_out w1 [Sleep])
                 = Done (map shown (tick_all (env (S k)) 0
                                      (map shown (tick_all (env k) 0 files))))
                        (add_out w2 [Sleep])).
    { unfold follow_pass. rewrite HF. unfold bind, ret. rewrite Hs2. reflexivity. }
    destruct (passes_growth o nf n env (S (S k)) _ (add_out w2 [Sleep]) HF H5 Hf Hw2)
      as (files' & w' & Hl & Hbl & _).
    exists files', w'. split.
    + change (follow_loop o nf (S (S n)) env k files w)
        with (bind (follow_pass o nf (env k) files)
                (fun files1 => bind (follow_pass o nf (env (S k)) files1)
                   (fun files2 => follow_loop o nf n env (S (S k)) files2)) w).
      unfold bind at 1. rewrite P1. unfold bind at 1. rewrite P2. exact Hl.
    + rewrite Hbl, (growths_ext env _ _ H6). cbn [out add_out].
      rewrite written_app, Hb2, B1, H3. cbn [written].
      now rewrite app_nil_r, <- app_assoc.
Qed.

(** X15 at [tail -f a] once forward has copied "x\n": "y\n" arrives
    before the first pass and is written in the second. *)
Lemma X15_first_pass_delay_witness :
  let file := {| fp := Some (with_pos (fresh_stream 3 x_line) 2 true false);
                 file_name := "a"; st := stat_reg 1 x_line |} in
  let env (p i : nat) :=
    {| grown := match p with O => y_line | _ => [] end;
       fault := None; reopen := OpenFail true |} in
  (exists files1 w1,
     follow_loop opts_f 1 1 env 0 [file] world0 = Done files1 w1
     /\ written (out w1) = [])
  /\ (exists files' w',
        follow_loop opts_f 1 2 env 0 [file] world0 = Done files' w'
        /\ written (out w') = y_line).
Proof.
  intros file env.
  apply (X15_first_pass_delay opts_f 1 0 env 0 [file] world0); try reflexivity.
  apply Forall_cons; [|apply Forall_nil].
  intros f Hf; inversion Hf; subst f; repeat split.
Defined.

(** ** Paths that stay missing *)

Lemma absent_tick_all polls files : forall i,
  Forall (fun file => fp file = None) files -> tick_all polls i files = files.
Proof.
  induction files as [|file rest IH]; intros i H; [reflexivity|].
  inversion H; subst. cbn [tick_all]. rewrite IH by assumption.
  unfold tick. now rewrite H2.
Qed.

Lemma absent_reopen o nf polls files : forall i w,
  Forall (fun file => fp file = None) files ->
  (forall j, exists e, reopen (polls j) = OpenFail e) ->
  follow_reopen o nf polls i files w = Done files w.
Proof.
  induction files as [|file rest IH]; intros i w H Hr; [reflexivity|].
  inversion H; subst. cbn [follow_reopen]. unfold bind, reopen_step.
  destruct (Hr i) as [e He]. rewrite H2, He. unfold ret.
  now rewrite IH.
Qed.

Lemma absent_show o nf files : forall i w,
  Forall (fun file => fp file = None) files ->
  follow_show o nf i files w = Done files w.
Proof.
  induction files as [|file rest IH]; intros i w H; [reflexivity|].
  inversion H; subst. cbn [follow_show]. unfold bind. rewrite H2.
  unfold ret. now rewrite IH.
Qed.

(** X16: with [-F], paths that stay missing are retried without a
    word.  Over an array in which no entry has a stream, as long as no
    path can be opened, every pass tries each path again, whatever errno
    says reports nothing, leaves the array as it is and sleeps: [n] passes
    leave [n] sleeps in the trace and nothing else. *)
Theorem X16_missing_paths_wait_silently (o : options) (nf : Z) (n : nat)
    (env : nat -> nat -> poll) (k : nat) (files : list file_info) (w : world) :
  Fflag o = true -> Forall (fun file => fp file = None) files ->
  (forall p i, exists e, reopen (env p i) = OpenFail e) ->
  follow_loop o nf n env k files w = Done files (add_out w (repeat Sleep n)).
Proof.
  intros HF Habs Hr. revert k w.
  induction n as [|n IH]; intros k w.
  - cbn. unfold ret. now rewrite add_out_nil.
  - cbn [follow_loop repeat]. unfold bind, follow_pass. rewrite HF.
    rewrite absent_tick_all by assumption.
    unfold bind. rewrite absent_reopen by auto.
    rewrite absent_show by assumption. rewrite emit_eq. unfold ret.
    rewrite IH, add_out_app. reflexivity.
Qed.

(** X16 at [tail -F b] while "b" does not exist and opening it fails
    with an errno other than ENOENT. *)
Lemma X16_missing_paths_wait_silently_witness :
  follow_loop opts_F 1 3
    (fun _ _ => {| grown := []; fault := None; reopen := OpenFail false |})
    0 [file_b_absent] world0
  = Done [file_b_absent] (add_out world0 [Sleep; Sleep; Sleep]).
Proof.
  apply (X16_missing_paths_wait_silently opts_F 1 3
           (fun _ _ => {| grown := []; fault := None; reopen := OpenFail false |})
           0 [file_b_absent] world0).
  - reflexivity.
  - apply Forall_cons; [reflexivity|apply Forall_nil].
  - intros p i. exists false. reflexivity.
Defined.

(** * Properties of strptime.c *)

(** ** The first day of a year *)

Lemma isleap_spec y :
  isleap y = (y mod 4 =? 0) && (negb (y mod 100 =? 0) || (y mod 400 =? 0)).
Proof.
  unfold isleap.
  assert (H : forall k, 0 < k -> (Z.rem y k =? 0) = (y mod k =? 0)).
  { intros k Hk. destruct (Z.eqb_spec (Z.rem y k) 0) as [E|E];
      destruct (Z.eqb_spec (y mod k) 0) as [E'|E']; try reflexivity; exfalso.
    - apply E'. apply Z.rem_divide in E; [|lia]. apply Z.mod_divide; [lia|exact E].
    - apply E. apply Z.mod_divide in E'; [|lia]. apply Z.rem_divide; [lia|exact E']. }
  now rewrite !H by lia.
Qed.

Lemma days_in_year_eq y : days_in_year y = if isleap y then 366 else 365.
Proof. unfold days_in_year. now destruct (isleap y). Qed.

Lemma days_before_closed n :
  days_before n
  = 365 * Z.of_nat n + Z.of_nat n / 4 - Z.of_nat n / 100 + Z.of_nat n / 400.
Proof.
  induction n as [|k IH]; [reflexivity|].
  cbn [days_before]. rewrite IH, days_in_year_eq, isleap_spec.
  rewrite Nat2Z.inj_succ. unfold Z.succ.
  set (m := Z.of_nat k). assert (Hm : 0 <= m) by lia. clearbody m.
  assert (D4 : (m + 1) / 4 = m / 4 + if (m + 1) mod 4 =? 0 then 1 else 0)
    by (destruct (Z.eqb_spec ((m + 1) mod 4) 0); Z.div_mod_to_equations; lia).
  assert (D100 : (m + 1) / 100 = m / 100 + if (m + 1) mod 100 =? 0 then 1 else 0)
    by (destruct (Z.eqb_spec ((m + 1) mod 100) 0); Z.div_mod_to_equations; lia).
  assert (D400 : (m + 1) / 400 = m / 400 + if (m + 1) mod 400 =? 0 then 1 else 0)
    by (destruct (Z.eqb_spec ((m + 1) mod 400) 0); Z.div_mod_to_equations; lia).
  rewrite D4, D100, D400.
  destruct (Z.eqb_spec ((m + 1) mod 4) 0) as [E4|E4],
    (Z.eqb_spec ((m + 1) mod 100) 0) as [E100|E100],
    (Z.eqb_spec ((m + 1) mod 400) 0) as [E400|E400]; cbn [andb orb negb]; try lia;
    exfalso; Z.div_mod_to_equations; lia.
Qed.

Lemma first_wday_of_closed y :
  1 <= y ->
  first_wday_of y
  = (1 + 365 * (y - 1) + (y - 1) / 4 - (y - 1) / 100 + (y - 1) / 400) mod 7.
Proof.
  intros Hy. unfold first_wday_of.
  rewrite (Z.rem_mod_nonneg (y - 1) 4), (Z.rem_mod_nonneg (y - 1) 100),
    (Z.rem_mod_nonneg (y - 1) 400) by lia.
  rewrite Z.rem_mod_nonneg.
  2: { pose proof (Z.mod_pos_bound (y - 1) 4); pose proof (Z.mod_pos_bound (y - 1) 100);
       pose proof (Z.mod_pos_bound (y - 1) 400); lia. }
  2: lia.
  set (n := y - 1). assert (0 <= n) by lia. clearbody n.
  pose proof (Z.div_mod n 4 ltac:(lia)) as E4.
  pose proof (Z.div_mod n 100 ltac:(lia)) as E100.
  pose proof (Z.div_mod n 400 ltac:(lia)) as E400.
  replace (1 + 5 * (n mod 4) + 4 * (n mod 100) + 6 * (n mod 400))
    with (1 + 365 * n + n / 4 - n / 100 + n / 400
          + (- (50 * n + 3 * (n / 4) + 57 * (n / 100) + 343 * (n / 400))) * 7)
    by lia.
  apply Z_mod_plus_full.
Qed.

(** X17: first_wday_of is right.  For every year from 1 on, the value of
    Gauss's formula is the day of the week reached by counting, from
    Monday 1 January of year 1, the days of the years before, each year
    with the length the last column of [start_of_month] gives it under
    [isleap]. *)
Theorem X17_first_wday_counts_days (n : nat) :
  first_wday_of (Z.of_nat n + 1) = (TM_MONDAY + days_before n) mod 7.
Proof.
  rewrite first_wday_of_closed by lia. rewrite days_before_closed.
  unfold TM_MONDAY. f_equal. replace (Z.of_nat n + 1 - 1) with (Z.of_nat n) by lia. lia.
Qed.

(** ** Decimal numbers in the buffer *)

Lemma code_digit d : 0 <= d <= 9 -> code (ascii_of_N (Z.to_N (48 + d))) = 48 + d.
Proof.
  intros H. unfold code. rewrite N_ascii_embedding; lia.
Qed.

Lemma pow10_pos k : 0 < 10 ^ Z.of_nat k.
Proof. apply Z.pow_pos_nonneg; lia. Qed.

Lemma lead_digit k n :
  0 <= n < 10 ^ Z.of_nat (S k) -> 0 <= n / 10 ^ Z.of_nat k <= 9.
Proof.
  intros H. pose proof (pow10_pos k) as Hp.
  rewrite Nat2Z.inj_succ, Z.pow_succ_r in H by lia.
  split; [apply Z.div_pos; lia|].
  assert (n / 10 ^ Z.of_nat k < 10); [|lia].
  apply Z.div_lt_upper_bound; lia.
Qed.

Lemma digits_decimal w : forall n i rest,
  0 <= n < 10 ^ Z.of_nat w ->
  digits w i (decimal w n ++ rest) = (i * 10 ^ Z.of_nat w + n, rest).
Proof.
  induction w as [|k IH]; intros n i rest H.
  - cbn in *. f_equal. lia.
  - pose proof (lead_digit k n H) as Hd. pose proof (pow10_pos k) as Hp.
    cbn [decimal digits append].
    rewrite code_digit by exact Hd.
    unfold isdigit. rewrite code_digit by exact Hd.
    replace (negb (48 + n / 10 ^ Z.of_nat k =? 0)
             && ((48 <=? 48 + n / 10 ^ Z.of_nat k) && (48 + n / 10 ^ Z.of_nat k <=? 57)))
      with true
      by (symmetry; destruct (Z.eqb_spec (48 + n / 10 ^ Z.of_nat k) 0); [lia|];
          cbn [negb andb]; apply andb_true_iff; split;
          [apply Z.leb_le|apply Z.leb_le]; lia).
    rewrite IH by (apply Z.mod_pos_bound; exact Hp).
    f_equal. rewrite Nat2Z.inj_succ, Z.pow_succ_r by lia.
    pose proof (Z.div_mod n (10 ^ Z.of_nat k) ltac:(lia)). nia.
Qed.

Lemma peek_decimal k n (rest : string) :
  0 <= n < 10 ^ Z.of_nat (S k) ->
  isdigit (peek (decimal (S k) n ++ rest)) = true
  /\ at_end (decimal (S k) n ++ rest) = false
  /\ isspace (peek (decimal (S k) n ++ rest)) = false
  /\ isblank (peek (decimal (S k) n ++ rest)) = false.
Proof.
  intros H. pose proof (lead_digit k n H) as Hd.
  cbn [decimal append peek]. unfold isdigit, at_end, isspace, isblank. cbn [peek].
  rewrite code_digit by exact Hd.
  repeat split.
  - apply andb_true_iff; split; apply Z.leb_le; lia.
  - apply Z.eqb_neq. lia.
  - apply orb_false_iff; split; [apply Z.eqb_neq; lia|].
    apply andb_false_iff. right. apply Z.leb_gt. lia.
  - apply orb_false_iff; split; apply Z.eqb_neq; lia.
Qed.

Lemma number_decimal k n (rest : string) s f :
  buf s = (decimal (S k) n ++ rest)%string -> 0 <= n < 10 ^ Z.of_nat (S k) ->
  number (S k) s f = f n (with_buf s rest).
Proof.
  intros Hb H. unfold number. rewrite Hb.
  destruct (peek_decimal k n rest H) as (Hd & _). rewrite Hd.
  rewrite digits_decimal by exact H. reflexivity.
Qed.

(** ** Conversions on decimal input *)

Section Conversions.
Context {L : Libc}.
Variable nested : string -> string -> tm -> bool -> parsed (string * tm * bool).

Lemma conv_Y s n (rest : string) O :
  buf s = (decimal 4 n ++ rest)%string -> 0 <= n <= 9999 ->
  conversion nested "Y" O s
  = Ok (flag (with_year (with_century (with_buf s rest) (n / 100)) (n mod 100))
          FLAG_YEAR).
Proof.
  intros Hb Hn. assert (Hn' : 0 <= n < 10 ^ Z.of_nat 4) by (cbn; lia).
  unfold conversion. cbv beta iota zeta.
  destruct (peek_decimal 3 n rest Hn') as (_ & He & Hs & _).
  rewrite Hb, He, Hs. cbn [orb].
  rewrite (number_decimal 3 n rest s _ Hb Hn').
  rewrite Z.quot_div_nonneg, Z.rem_mod_nonneg by lia. reflexivity.
Qed.

Lemma conv_m s n (rest : string) O :
  buf s = (decimal 2 n ++ rest)%string -> 0 <= n <= 99 ->
  conversion nested "m" O s
  = if (n <? 1) || (12 <? n) then Null
    else Ok (flag (with_tm (with_buf s rest) (set_mon (tmv s) (n - 1))) FLAG_MONTH).
Proof.
  intros Hb Hn. assert (Hn' : 0 <= n < 10 ^ Z.of_nat 2) by (cbn; lia).
  unfold conversion. cbv beta iota zeta.
  rewrite (number_decimal 1 n rest s _ Hb Hn'). reflexivity.
Qed.

Lemma conv_d s n (rest : string) O :
  buf s = (decimal 2 n ++ rest)%string -> 0 <= n <= 99 ->
  conversion nested "d" O s
  = if (n =? 0) || (31 <? n) then Null
    else Ok (flag (with_tm (with_buf s rest) (set_mday (tmv s) n)) FLAG_MDAY).
Proof.
  intros Hb Hn. assert (Hn' : 0 <= n < 10 ^ Z.of_nat 2) by (cbn; lia).
  unfold conversion. cbv beta iota zeta.
  rewrite (number_decimal 1 n rest s _ Hb Hn'). reflexivity.
Qed.

Lemma conv_j s n (rest : string) O :
  buf s = (decimal 3 n ++ rest)%string -> 0 <= n <= 999 ->
  conversion nested "j" O s
  = if (n <? 1) || (366 <? n) then Null
    else Ok (flag (with_tm (with_buf s rest) (set_yday (tmv s) (n - 1))) FLAG_YDAY).
Proof.
  intros Hb Hn. assert (Hn' : 0 <= n < 10 ^ Z.of_nat 3) by (cbn; lia).
  unfold conversion. cbv beta iota zeta.
  rewrite (number_decimal 2 n rest s _ Hb Hn'). reflexivity.
Qed.

Lemma conv_y s n (rest : string) O :
  buf s = (decimal 2 n ++ rest)%string -> 0 <= n <= 99 ->
  conversion nested "y" O s
  = Ok (flag (with_year (with_buf s rest) n) FLAG_YEAR).
Proof.
  intros Hb Hn. assert (Hn' : 0 <= n < 10 ^ Z.of_nat 2) by (cbn; lia).
  unfold conversion. cbv beta iota zeta.
  destruct (peek_decimal 1 n rest Hn') as (_ & He & Hs & _).
  rewrite Hb, He, Hs. cbn [orb].
  rewrite (number_decimal 1 n rest s _ Hb Hn').
  rewrite Z.rem_mod_nonneg, Z.mod_small by lia. reflexivity.
Qed.

Lemma conv_C s n (rest : string) O :
  buf s = (decimal 2 n ++ rest)%string -> 0 <= n <= 99 ->
  conversion nested "C" O s = Ok (flag (with_century (with_buf s rest) n) FLAG_YEAR).
Proof.
  intros Hb Hn. assert (Hn' : 0 <= n < 10 ^ Z.of_nat 2) by (cbn; lia).
  unfold conversion. cbv beta iota zeta.
  rewrite (number_decimal 1 n rest s _ Hb Hn'). reflexivity.
Qed.

Lemma conv_H s n (rest : string) O :
  buf s = (decimal 2 n ++ rest)%string -> 0 <= n <= 99 ->
  conversion nested "H" O s
  = if 23 <? n then Null else Ok (with_tm (with_buf s rest) (set_hour (tmv s) n)).
Proof.
  intros Hb Hn. assert (Hn' : 0 <= n < 10 ^ Z.of_nat 2) by (cbn; lia).
  unfold conversion. cbv beta iota zeta.
  rewrite (number_decimal 1 n rest s _ Hb Hn'). reflexivity.
Qed.

Lemma conv_M s n (rest : string) O :
  buf s = (decimal 2 n ++ rest)%string -> 0 <= n <= 99 ->
  conversion nested "M" O s
  = if 59 <? n then Null else Ok (with_tm (with_buf s rest) (set_min (tmv s) n)).
Proof.
  intros Hb Hn. assert (Hn' : 0 <= n < 10 ^ Z.of_nat 2) by (cbn; lia).
  unfold conversion. cbv beta iota zeta.
  destruct (peek_decimal 1 n rest Hn') as (_ & He & Hs & _).
  rewrite Hb, He, Hs. cbn [orb].
  rewrite (number_decimal 1 n rest s _ Hb Hn'). reflexivity.
Qed.

Lemma conv_S s n (rest : string) O :
  buf s = (decimal 2 n ++ rest)%string -> 0 <= n <= 99 ->
  conversion nested "S" O s
  = if 60 <? n then Null else Ok (with_tm (with_buf s rest) (set_sec (tmv s) n)).
Proof.
  intros Hb Hn. assert (Hn' : 0 <= n < 10 ^ Z.of_nat 2) by (cbn; lia).
  unfold conversion. cbv beta iota zeta.
  destruct (peek_decimal 1 n rest Hn') as (_ & He & Hs & _).
  rewrite Hb, He, Hs. cbn [orb].
  rewrite (number_decimal 1 n rest s _ Hb Hn'). reflexivity.
Qed.

Lemma conv_U s n (rest : string) O :
  buf s = (decimal 2 n ++ rest)%string -> 0 <= n <= 99 ->
  conversion nested "U" O s
  = if 53 <? n then Null else Ok (with_week (with_buf s rest) TM_SUNDAY n).
Proof.
  intros Hb Hn. assert (Hn' : 0 <= n < 10 ^ Z.of_nat 2) by (cbn; lia).
  unfold conversion. cbv beta iota zeta.
  rewrite (number_decimal 1 n rest s _ Hb Hn'). reflexivity.
Qed.

Lemma conv_W s n (rest : string) O :
  buf s = (decimal 2 n ++ rest)%string -> 0 <= n <= 99 ->
  conversion nested "W" O s
  = if 53 <? n then Null else Ok (with_week (with_buf s rest) TM_MONDAY n).
Proof.
  intros Hb Hn. assert (Hn' : 0 <= n < 10 ^ Z.of_nat 2) by (cbn; lia).
  unfold conversion. cbv beta iota zeta.
  rewrite (number_decimal 1 n rest s _ Hb Hn'). reflexivity.
Qed.

Lemma conv_w s n (rest : string) O :
  buf s = (decimal 1 n ++ rest)%string -> 0 <= n <= 9 ->
  conversion nested "w" O s
  = if 6 <? n then Null
    else Ok (flag (with_tm (with_buf s rest) (set_wday (tmv s) n)) FLAG_WDAY).
Proof.
  intros Hb Hn. assert (Hn' : 0 <= n < 10 ^ Z.of_nat 1) by (cbn; lia).
  unfold conversion. cbv beta iota zeta. rewrite Hb.
  destruct (peek_decimal 0 n rest Hn') as (Hd & _).
  cbn [decimal append] in *. cbn [peek] in Hd. rewrite Hd.
  replace (n / 10 ^ Z.of_nat 0) with n in * by (cbn; now rewrite Z.div_1_r).
  rewrite code_digit by lia.
  replace (48 + n - 48) with n by lia.
  destruct (Z.ltb_spec n 0); [lia|]. cbn [orb].
  destruct (Z.ltb_spec 7 n), (Z.ltb_spec 6 n); cbn [orb]; try reflexivity; try lia.
  rewrite Z.rem_mod_nonneg, Z.mod_small by lia. reflexivity.
Qed.

Lemma conv_u s n (rest : string) O :
  buf s = (decimal 1 n ++ rest)%string -> 0 <= n <= 9 ->
  conversion nested "u" O s
  = if (n <? 1) || (7 <? n) then Null
    else Ok (flag (with_tm (with_buf s rest) (set_wday (tmv s) (n mod 7))) FLAG_WDAY).
Proof.
  intros Hb Hn. assert (Hn' : 0 <= n < 10 ^ Z.of_nat 1) by (cbn; lia).
  unfold conversion. cbv beta iota zeta. rewrite Hb.
  destruct (peek_decimal 0 n rest Hn') as (Hd & _).
  cbn [decimal append] in *. cbn [peek] in Hd. rewrite Hd.
  replace (n / 10 ^ Z.of_nat 0) with n in * by (cbn; now rewrite Z.div_1_r).
  rewrite code_digit by lia.
  replace (48 + n - 48) with n by lia.
  destruct (Z.ltb_spec n 0); [lia|]. cbn [orb].
  destruct (Z.ltb_spec 7 n), (Z.ltb_spec n 1); cbn [orb]; try reflexivity.
  rewrite Z.rem_mod_nonneg by lia. reflexivity.
Qed.

End Conversions.

Lemma skip_space_decimal k n (rest : string) :
  0 <= n < 10 ^ Z.of_nat (S k) ->
  skip_space (decimal (S k) n ++ rest) = (decimal (S k) n ++ rest)%string.
Proof.
  intros H. destruct (peek_decimal k n rest H) as (_ & _ & Hs & _).
  cbn [decimal append peek] in *. cbn [skip_space]. rewrite Hs.
  now rewrite andb_false_r.
Qed.

Lemma month_start_some leap m :
  0 <= m <= 12 -> start_of_month leap m = Some (month_start leap m).
Proof.
  intros H. unfold month_start.
  assert (E : m = 0 \/ m = 1 \/ m = 2 \/ m = 3 \/ m = 4 \/ m = 5 \/ m = 6 \/ m = 7
              \/ m = 8 \/ m = 9 \/ m = 10 \/ m = 11 \/ m = 12) by lia.
  destruct leap; repeat (destruct E as [->|E]; [reflexivity|]); subst; reflexivity.
Qed.

Lemma month_start_nonneg leap m : 0 <= month_start leap m.
Proof.
  unfold month_start, start_of_month.
  destruct (m <? 0); [lia|].
  destruct (nth_error _ _) as [a|] eqn:E; [|lia].
  apply nth_error_In in E. destruct leap; cbn in E; lia.
Qed.

Lemma wday_counts Y yday :
  1 <= Y -> 0 <= yday ->
  Z.rem (first_wday_of Y + yday) 7
  = (TM_MONDAY + days_before (Z.to_nat (Y - 1)) + yday) mod 7.
Proof.
  intros HY Hy.
  assert (E : first_wday_of Y = (TM_MONDAY + days_before (Z.to_nat (Y - 1))) mod 7).
  { rewrite first_wday_of_closed by lia. rewrite days_before_closed.
    rewrite Z2Nat.id by lia. unfold TM_MONDAY. f_equal. lia. }
  rewrite E. 
  pose proof (Z.mod_pos_bound (TM_MONDAY + days_before (Z.to_nat (Y - 1))) 7 ltac:(lia)).
  rewrite Z.rem_mod_nonneg by lia.
  rewrite Zplus_mod_idemp_l. reflexivity.
Qed.

Ltac proj :=
  cbn [flags tmv buf GMT century year day_offset week_offset flag
       with_flags with_tm with_buf with_GMT with_century with_year
       with_week tm_sec tm_min tm_hour tm_mday tm_mon tm_year tm_wday
       tm_yday tm_isdst set_sec set_min set_hour set_mday set_mon
       set_year set_wday set_yday set_isdst].

Ltac closed_term t :=
  match t with
  | context [?v] => is_var v; fail 1
  | _ => idtac
  end.

Ltac settle :=
  repeat match goal with x := _ : locals |- _ => subst x end;
  repeat (proj;
          match goal with
          | |- context [if ?b then _ else _] =>
              closed_term b;
              let v := eval vm_compute in b in
              first [constr_eq v true | constr_eq v false];
              change b with v; cbv iota
          end);
  proj.

(** X18: a date in digits.  On a four-digit year from 1 on, a month
    from 01 to 12 and a day from 01 to 31 separated by hyphens, followed
    by anything, strptime with "%Y-%m-%d" returns the rest of the buffer
    and stores the year less 1900, the month less 1, the day, the day of
    the year read from [start_of_month] for that month and leap status,
    and the day of the week that counting days from Monday 1 January of
    year 1 gives; the other fields are untouched.  The day is not checked
    against the length of the month: day 31 of a short month runs into
    the next one. *)
Theorem X18_date {L : Libc} (d : nat) (Y M D : Z) (rest : string) (t : tm) :
  1 <= Y <= 9999 -> 1 <= M <= 12 -> 1 <= D <= 31 ->
  strptime_bsd (S d)
    (decimal 4 Y ++ "-" ++ decimal 2 M ++ "-" ++ decimal 2 D ++ rest) "%Y-%m-%d" t
  = Ok (rest, dated t Y M D (month_start (isleap Y) (M - 1) + (D - 1))).
Proof.
  intros HY HM HD. unfold strptime_bsd, _strptime. fold (@_strptime L).
  set (s0 := {| buf := _ |}).
  change (format_loop (_strptime d) "%Y-%m-%d" None s0)
    with (match conversion (_strptime d) "Y" false s0 with
          | Ok s' => format_loop (_strptime d) "-%m-%d" None s'
          | Null => Null
          | Undefined => Undefined
          end).
  rewrite (conv_Y (_strptime d) s0 Y ("-" ++ decimal 2 M ++ "-" ++ decimal 2 D ++ rest) false
             eq_refl) by lia.
  set (s1 := flag _ _).
  change (format_loop (_strptime d) "-%m-%d" None s1)
    with (match conversion (_strptime d) "m" false (with_buf s1 (decimal 2 M ++ "-" ++ decimal 2 D ++ rest)) with
          | Ok s' => format_loop (_strptime d) "-%d" None s'
          | Null => Null
          | Undefined => Undefined
          end).
  rewrite (conv_m (_strptime d) (with_buf s1 (decimal 2 M ++ "-" ++ decimal 2 D ++ rest)) M
             ("-" ++ decimal 2 D ++ rest) false eq_refl) by lia.
  destruct (Z.ltb_spec M 1); [lia|]. destruct (Z.ltb_spec 12 M); [lia|]. cbn [orb].
  set (s2 := flag _ _).
  change (format_loop (_strptime d) "-%d" None s2)
    with (match conversion (_strptime d) "d" false (with_buf s2 (decimal 2 D ++ rest)) with
          | Ok s' => format_loop (_strptime d) "" None s'
          | Null => Null
          | Undefined => Undefined
          end).
  rewrite (conv_d (_strptime d) (with_buf s2 (decimal 2 D ++ rest)) D rest false eq_refl) by lia.
  destruct (Z.eqb_spec D 0); [lia|]. destruct (Z.ltb_spec 31 D); [lia|]. cbn [orb].
  cbn [format_loop].
  set (s3 := flag _ FLAG_MDAY).
  assert (E3 : s3 = {| buf := rest; tmv := set_mday (set_mon t (M - 1)) D;
                       GMT := false; flags := 23; century := Y / 100;
                       year := Y mod 100; day_offset := -1; week_offset := None |})
    by reflexivity.
  rewrite E3. clear E3 s3 s2 s1 s0.
  pose proof (Z.div_pos Y 100 ltac:(lia) ltac:(lia)) as Hc.
  pose proof (Z.mod_pos_bound Y 100 ltac:(lia)) as Hy.
  pose proof (Z.div_mod Y 100 ltac:(lia)) as HYdm.
  unfold settle_year. cbn [century year tmv with_tm].
  destruct (Z.eqb_spec (Y / 100) (-1)); [lia|].
  destruct (Z.eqb_spec (Y mod 100) (-1)); [lia|]. cbn [negb orb].
  replace (Y mod 100 + (Y / 100 * 100 - TM_YEAR_BASE)) with (Y - TM_YEAR_BASE)
    by (unfold TM_YEAR_BASE; lia).
  unfold settle_yday. settle.
  replace (Y - TM_YEAR_BASE + TM_YEAR_BASE) with Y by (unfold TM_YEAR_BASE; lia).
  rewrite (month_start_some (isleap Y) (M - 1)) by lia.
  unfold settle_rest. settle.
  replace (Y - TM_YEAR_BASE + TM_YEAR_BASE) with Y by (unfold TM_YEAR_BASE; lia).
  rewrite wday_counts.
  - reflexivity.
  - lia.
  - pose proof (month_start_nonneg (isleap Y) (M - 1)). lia.
Qed.

(** ** The month of a day of the year *)

Ltac month_steps :=
  repeat (cbn [month_of];
          match goal with
          | |- context [start_of_month ?l ?i] =>
              let v := eval vm_compute in (start_of_month l i) in
              change (start_of_month l i) with v; cbv iota beta
          | |- context [if ?a <=? ?b then _ else _] =>
              destruct (Z.leb_spec a b); [|try lia]
          end).

Lemma month_of_in leap m k :
  0 <= m <= 11 -> 0 <= k < days_in_month leap m ->
  month_of 14 leap (month_start leap m + k) 0 = Some (m + 1).
Proof.
  intros Hm Hk.
  assert (E : m = 0 \/ m = 1 \/ m = 2 \/ m = 3 \/ m = 4 \/ m = 5 \/ m = 6 \/ m = 7
              \/ m = 8 \/ m = 9 \/ m = 10 \/ m = 11) by lia.
  destruct leap;
    repeat (destruct E as [->|E]);
    try subst m;
    match goal with
    | H : _ <= _ < days_in_month ?l ?i |- _ =>
        let v := eval vm_compute in (days_in_month l i) in
        change (days_in_month l i) with v in H
    end;
    match goal with
    | |- context [month_start ?l ?i] =>
        let v := eval vm_compute in (month_start l i) in
        change (month_start l i) with v
    end;
    month_steps; try lia; reflexivity.
Qed.

Lemma month_of_out leap yday :
  month_start leap 12 <= yday -> month_of 14 leap yday 0 = None.
Proof.
  intros H.
  destruct leap;
    match goal with
    | H : month_start ?l ?i <= _ |- _ =>
        let v := eval vm_compute in (month_start l i) in
        change (month_start l i) with v in H
    end;
    month_steps; try lia; reflexivity.
Qed.

Lemma month_bounds leap m :
  0 <= m <= 11 ->
  0 <= month_start leap m
  /\ 28 <= days_in_month leap m <= 31
  /\ month_start leap m + days_in_month leap m = month_start leap (m + 1)
  /\ month_start leap (m + 1) <= month_start leap 12
  /\ month_start leap 12 = (if leap then 366 else 365).
Proof.
  intros Hm.
  assert (E : m = 0 \/ m = 1 \/ m = 2 \/ m = 3 \/ m = 4 \/ m = 5 \/ m = 6 \/ m = 7
              \/ m = 8 \/ m = 9 \/ m = 10 \/ m = 11) by lia.
  destruct leap; repeat (destruct E as [->|E]); try subst m; vm_compute;
    repeat split; discriminate.
Qed.

Ltac loop_conv nested c ptr' :=
  match goal with
  | |- context [format_loop nested (String "%" (String c ptr')) None ?s] =>
      change (format_loop nested (String "%" (String c ptr')) None s)
        with (match conversion nested c false s with
              | Ok s' => format_loop nested ptr' None s'
              | Null => Null
              | Undefined => Undefined
              end)
  end.

(** X19: from the day of the year back to the date.  For a day [D] that
    exists in month [M] of year [Y], strptime with "%Y %j" on the year
    and the three-digit number of that day in the year stores the same
    month, day of the month, day of the year and day of the week as
    "%Y-%m-%d" does on the date itself: the search through
    [start_of_month] undoes the addition that X18 describes. *)
Theorem X19_day_of_year {L : Libc} (d : nat) (Y M D : Z) (rest : string) (t : tm) :
  1 <= Y <= 9999 -> 1 <= M <= 12 -> 1 <= D <= days_in_month (isleap Y) (M - 1) ->
  let yday := month_start (isleap Y) (M - 1) + (D - 1) in
  strptime_bsd (S d) (decimal 4 Y ++ " " ++ decimal 3 (yday + 1) ++ rest) "%Y %j" t
  = Ok (rest, dated t Y M D yday).
Proof.
  intros HY HM HD yday.
  destruct (month_bounds (isleap Y) (M - 1) ltac:(lia)) as (B0 & B1 & B2 & B3 & B4).
  assert (Hyd : 0 <= yday < month_start (isleap Y) 12) by (subst yday; lia).
  assert (Hj : 1 <= yday + 1 <= 366) by (destruct (isleap Y); lia).
  unfold strptime_bsd, _strptime. fold (@_strptime L).
  set (s0 := {| buf := _ |}).
  loop_conv (_strptime d) "Y"%char " %j"%string.
  rewrite (conv_Y (_strptime d) s0 Y (" " ++ decimal 3 (yday + 1) ++ rest) false eq_refl) by lia.
  set (s1 := flag _ _).
  change (format_loop (_strptime d) " %j" None s1)
    with (format_loop (_strptime d) "%j" None
            (with_buf s1 (skip_space (decimal 3 (yday + 1) ++ rest)))).
  rewrite skip_space_decimal by (cbn; lia).
  loop_conv (_strptime d) "j"%char ""%string.
  rewrite (conv_j (_strptime d) (with_buf s1 (decimal 3 (yday + 1) ++ rest)) (yday + 1) rest
             false eq_refl) by lia.
  destruct (Z.ltb_spec (yday + 1) 1); [lia|].
  destruct (Z.ltb_spec 366 (yday + 1)); [lia|]. cbn [orb].
  cbn [format_loop].
  set (s3 := flag _ FLAG_YDAY).
  assert (E3 : s3 = {| buf := rest; tmv := set_yday t (yday + 1 - 1);
                       GMT := false; flags := 11; century := Y / 100;
                       year := Y mod 100; day_offset := -1; week_offset := None |})
    by reflexivity.
  rewrite E3. clear E3 s3 s1 s0.
  replace (yday + 1 - 1) with yday by lia.
  pose proof (Z.div_pos Y 100 ltac:(lia) ltac:(lia)) as Hc.
  pose proof (Z.mod_pos_bound Y 100 ltac:(lia)) as Hy.
  pose proof (Z.div_mod Y 100 ltac:(lia)) as HYdm.
  unfold settle_year. cbn [century year tmv with_tm].
  destruct (Z.eqb_spec (Y / 100) (-1)); [lia|].
  destruct (Z.eqb_spec (Y mod 100) (-1)); [lia|]. cbn [negb orb].
  replace (Y mod 100 + (Y / 100 * 100 - TM_YEAR_BASE)) with (Y - TM_YEAR_BASE)
    by (unfold TM_YEAR_BASE; lia).
  unfold settle_yday. settle.
  unfold settle_rest. settle.
  replace (Y - TM_YEAR_BASE + TM_YEAR_BASE) with Y by (unfold TM_YEAR_BASE; lia).
  unfold yday at 1. rewrite month_of_in by lia.
  replace (M - 1 + 1) with M by lia.
  destruct (Z.ltb_spec 12 M); [lia|].
  settle.
  replace (Y - TM_YEAR_BASE + TM_YEAR_BASE) with Y by (unfold TM_YEAR_BASE; lia).
  rewrite (month_start_some (isleap Y) (M - 1)) by lia.
  settle.
  replace (Y - TM_YEAR_BASE + TM_YEAR_BASE) with Y by (unfold TM_YEAR_BASE; lia).
  rewrite wday_counts by lia.
  settle. unfold dated, set_wday, set_mday, set_mon, set_year, set_yday. proj.
  repeat f_equal. subst yday. lia.
Qed.

(** X20: a day number beyond the year.  When "%j" reads a number larger
    than the length of the year, so 366 in a year that is not leap, and
    no month was given, the search for the month passes the last column
    of the row and reads [start_of_month[leap][13]], outside the 13
    entries of the row: the call has no defined result. *)
Theorem X20_day_beyond_year {L : Libc} (d : nat) (Y J : Z) (rest : string) (t : tm) :
  1 <= Y <= 9999 -> days_in_year Y < J <= 366 ->
  strptime_bsd (S d) (decimal 4 Y ++ " " ++ decimal 3 J ++ rest) "%Y %j" t
  = Undefined.
Proof.
  intros HY HJ.
  assert (HJ' : 1 <= J) by (rewrite days_in_year_eq in HJ; destruct (isleap Y); lia).
  unfold strptime_bsd, _strptime. fold (@_strptime L).
  set (s0 := {| buf := _ |}).
  loop_conv (_strptime d) "Y"%char " %j"%string.
  rewrite (conv_Y (_strptime d) s0 Y (" " ++ decimal 3 J ++ rest) false eq_refl)
    by lia.
  set (s1 := flag _ _).
  change (format_loop (_strptime d) " %j" None s1)
    with (format_loop (_strptime d) "%j" None
            (with_buf s1 (skip_space (decimal 3 J ++ rest)))).
  rewrite skip_space_decimal by (cbn; lia).
  loop_conv (_strptime d) "j"%char ""%string.
  rewrite (conv_j (_strptime d) (with_buf s1 (decimal 3 J ++ rest)) J rest
             false eq_refl) by lia.
  destruct (Z.ltb_spec J 1); [lia|].
  destruct (Z.ltb_spec 366 J); [lia|]. cbn [orb].
  cbn [format_loop].
  set (s3 := flag _ FLAG_YDAY).
  assert (E3 : s3 = {| buf := rest; tmv := set_yday t (J - 1);
                       GMT := false; flags := 11; century := Y / 100;
                       year := Y mod 100; day_offset := -1; week_offset := None |})
    by reflexivity.
  rewrite E3. clear E3 s3 s1 s0.
  pose proof (Z.div_pos Y 100 ltac:(lia) ltac:(lia)) as Hc.
  pose proof (Z.mod_pos_bound Y 100 ltac:(lia)) as Hy.
  pose proof (Z.div_mod Y 100 ltac:(lia)) as HYdm.
  unfold settle_year. cbn [century year tmv with_tm].
  destruct (Z.eqb_spec (Y / 100) (-1)); [lia|].
  destruct (Z.eqb_spec (Y mod 100) (-1)); [lia|]. cbn [negb orb].
  replace (Y mod 100 + (Y / 100 * 100 - TM_YEAR_BASE)) with (Y - TM_YEAR_BASE)
    by (unfold TM_YEAR_BASE; lia).
  unfold settle_yday. settle.
  unfold settle_rest. settle.
  replace (Y - TM_YEAR_BASE + TM_YEAR_BASE) with Y by (unfold TM_YEAR_BASE; lia).
  rewrite month_of_out; [reflexivity|].
  destruct (month_bounds (isleap Y) 0 ltac:(lia)) as (_ & _ & _ & _ & E12).
  rewrite E12. rewrite days_in_year_eq in HJ. lia.
Qed.

(** X21: how the year is put together.  Two digits under "%y" count
    from 2000 when below 69 and from 1900 otherwise; with a century from
    "%C" they are added to a hundred times the century, which is also
    what four digits under "%Y" give; "%C" alone stands for the first
    year of the century.  In each case only [tm_year] changes. *)
Theorem X21_years {L : Libc} (d : nat) (c n : Z) (rest : string) (t : tm) :
  0 <= c <= 99 -> 0 <= n <= 99 ->
  strptime_bsd (S d) (decimal 2 n ++ rest) "%y" t
  = Ok (rest, set_year t (if n <? 69 then n + 100 else n))
  /\ strptime_bsd (S d) (decimal 2 c ++ decimal 2 n ++ rest) "%C%y" t
     = Ok (rest, set_year t (c * 100 + n - TM_YEAR_BASE))
  /\ strptime_bsd (S d) (decimal 4 (c * 100 + n) ++ rest) "%Y" t
     = Ok (rest, set_year t (c * 100 + n - TM_YEAR_BASE))
  /\ strptime_bsd (S d) (decimal 2 c ++ rest) "%C" t
     = Ok (rest, set_year t (c * 100 - TM_YEAR_BASE)).
Proof.
  intros Hc Hn. split; [|split; [|split]].
  - unfold strptime_bsd, _strptime. fold (@_strptime L).
    set (s0 := {| buf := _ |}).
    loop_conv (_strptime d) "y"%char ""%string.
    rewrite (conv_y (_strptime d) s0 n rest false eq_refl) by lia.
    cbn [format_loop].
    unfold settle_year. settle.
    destruct (Z.eqb_spec n (-1)); [lia|]. cbn [negb orb].
    unfold settle_yday. settle. unfold settle_rest. settle.
    destruct (n <? 69); reflexivity.
  - unfold strptime_bsd, _strptime. fold (@_strptime L).
    set (s0 := {| buf := _ |}).
    loop_conv (_strptime d) "C"%char "%y"%string.
    rewrite (conv_C (_strptime d) s0 c (decimal 2 n ++ rest) false eq_refl) by lia.
    set (s1 := flag _ _).
    loop_conv (_strptime d) "y"%char ""%string.
    rewrite (conv_y (_strptime d) s1 n rest false eq_refl) by lia.
    cbn [format_loop]. subst s1 s0.
    unfold settle_year. settle.
    destruct (Z.eqb_spec c (-1)); [lia|]. cbn [negb orb].
    destruct (Z.eqb_spec n (-1)); [lia|].
    unfold settle_yday. settle. unfold settle_rest. settle.
    do 3 f_equal. lia.
  - unfold strptime_bsd, _strptime. fold (@_strptime L).
    set (s0 := {| buf := _ |}).
    loop_conv (_strptime d) "Y"%char ""%string.
    rewrite (conv_Y (_strptime d) s0 (c * 100 + n) rest false eq_refl) by lia.
    cbn [format_loop].
    assert (E1 : (c * 100 + n) / 100 = c) by (Z.div_mod_to_equations; lia).
    assert (E2 : (c * 100 + n) mod 100 = n) by (Z.div_mod_to_equations; lia).
    rewrite E1, E2.
    unfold settle_year. settle.
    destruct (Z.eqb_spec c (-1)); [lia|]. cbn [negb orb].
    destruct (Z.eqb_spec n (-1)); [lia|].
    unfold settle_yday. settle. unfold settle_rest. settle.
    do 3 f_equal. lia.
  - unfold strptime_bsd, _strptime. fold (@_strptime L).
    set (s0 := {| buf := _ |}).
    loop_conv (_strptime d) "C"%char ""%string.
    rewrite (conv_C (_strptime d) s0 c rest false eq_refl) by lia.
    cbn [format_loop].
    unfold settle_year. settle.
    destruct (Z.eqb_spec c (-1)); [lia|]. cbn [negb orb].
    unfold settle_yday. settle. unfold settle_rest. settle.
    reflexivity.
Qed.

(** X22: a time of day in digits.  On three two-digit numbers separated
    by colons, strptime with "%H:%M:%S" stores hour, minute and second
    and returns the rest of the buffer exactly when the hour is at most
    23, the minute at most 59 and the second at most 60 (a leap second
    passes); otherwise it returns NULL. *)
Theorem X22_time_of_day {L : Libc} (d : nat) (h m s : Z) (rest : string) (t : tm) :
  0 <= h <= 99 -> 0 <= m <= 99 -> 0 <= s <= 99 ->
  strptime_bsd (S d) (decimal 2 h ++ ":" ++ decimal 2 m ++ ":" ++ decimal 2 s ++ rest)
    "%H:%M:%S" t
  = if (h <=? 23) && (m <=? 59) && (s <=? 60)
    then Ok (rest, set_sec (set_min (set_hour t h) m) s)
    else Null.
Proof.
  intros Hh Hm Hs.
  unfold strptime_bsd, _strptime. fold (@_strptime L).
  set (s0 := {| buf := _ |}).
  loop_conv (_strptime d) "H"%char ":%M:%S"%string.
  rewrite (conv_H (_strptime d) s0 h (":" ++ decimal 2 m ++ ":" ++ decimal 2 s ++ rest)
             false eq_refl) by lia.
  destruct (Z.ltb_spec 23 h), (Z.leb_spec h 23); try lia; [reflexivity|].
  cbn [andb].
  set (s1 := with_tm _ _).
  change (format_loop (_strptime d) ":%M:%S" None s1)
    with (format_loop (_strptime d) "%M:%S" None
            (with_buf s1 (decimal 2 m ++ ":" ++ decimal 2 s ++ rest))).
  loop_conv (_strptime d) "M"%char ":%S"%string.
  rewrite (conv_M (_strptime d) (with_buf s1 (decimal 2 m ++ ":" ++ decimal 2 s ++ rest))
             m (":" ++ decimal 2 s ++ rest) false eq_refl) by lia.
  destruct (Z.ltb_spec 59 m), (Z.leb_spec m 59); try lia; [reflexivity|].
  cbn [andb].
  set (s2 := with_tm _ _).
  change (format_loop (_strptime d) ":%S" None s2)
    with (format_loop (_strptime d) "%S" None (with_buf s2 (decimal 2 s ++ rest))).
  loop_conv (_strptime d) "S"%char ""%string.
  rewrite (conv_S (_strptime d) (with_buf s2 (decimal 2 s ++ rest)) s rest false eq_refl)
    by lia.
  destruct (Z.ltb_spec 60 s), (Z.leb_spec s 60); try lia; [reflexivity|].
  cbn [format_loop]. subst s2 s1 s0.
  unfold settle_year. settle. unfold settle_yday. settle. unfold settle_rest. settle.
  reflexivity.
Qed.

Lemma first_wday_range Y : 1 <= Y -> 0 <= first_wday_of Y <= 6.
Proof.
  intros H. rewrite first_wday_of_closed by lia.
  pose proof (Z.mod_pos_bound
                (1 + 365 * (Y - 1) + (Y - 1) / 4 - (Y - 1) / 100 + (Y - 1) / 400) 7
                ltac:(lia)). lia.
Qed.

Lemma month_of_day leap yd :
  0 <= yd < month_start leap 12 ->
  exists m, 0 <= m <= 11
            /\ month_start leap m <= yd < month_start leap m + days_in_month leap m.
Proof.
  intros H.
  assert (C : forall m, 0 <= m <= 11 -> month_start leap m <= yd ->
              (month_start leap m <= yd < month_start leap m + days_in_month leap m)
              \/ month_start leap (m + 1) <= yd).
  { intros m Hm Hlo. destruct (month_bounds leap m Hm) as (_ & _ & E & _). lia. }
  assert (H0 : month_start leap 0 <= yd)
    by (destruct leap; change (month_start _ 0) with 0; lia).
  destruct (C 0 ltac:(lia) H0) as [?|H1]; [exists 0; split; [lia|assumption]|].
  destruct (C 1 ltac:(lia) H1) as [?|H2]; [exists 1; split; [lia|assumption]|].
  destruct (C 2 ltac:(lia) H2) as [?|H3]; [exists 2; split; [lia|assumption]|].
  destruct (C 3 ltac:(lia) H3) as [?|H4]; [exists 3; split; [lia|assumption]|].
  destruct (C 4 ltac:(lia) H4) as [?|H5]; [exists 4; split; [lia|assumption]|].
  destruct (C 5 ltac:(lia) H5) as [?|H6]; [exists 5; split; [lia|assumption]|].
  destruct (C 6 ltac:(lia) H6) as [?|H7]; [exists 6; split; [lia|assumption]|].
  destruct (C 7 ltac:(lia) H7) as [?|H8]; [exists 7; split; [lia|assumption]|].
  destruct (C 8 ltac:(lia) H8) as [?|H9]; [exists 8; split; [lia|assumption]|].
  destruct (C 9 ltac:(lia) H9) as [?|H10]; [exists 9; split; [lia|assumption]|].
  destruct (C 10 ltac:(lia) H10) as [?|H11]; [exists 10; split; [lia|assumption]|].
  destruct (C 11 ltac:(lia) H11) as [?|H12]; [exists 11; split; [lia|assumption]|].
  change (11 + 1) with 12 in H12. lia.
Qed.

Section Weeks.
Context {L : Libc}.
Variables (d : nat) (Y wk wd : Z) (rest : string) (t : tm).
Hypothesis HY : 1 <= Y <= 9999.
Hypothesis Hwk : 0 <= wk <= 53.
Hypothesis Hwd : 0 <= wd <= 6.

Lemma week_scan :
  format_loop (_strptime d) "%Y %U %w" None
    {| buf := decimal 4 Y ++ " " ++ decimal 2 wk ++ " " ++ decimal 1 wd ++ rest;
       tmv := t; GMT := false; flags := FLAG_NONE; century := -1;
       year := -1; day_offset := -1; week_offset := None |}
  = Ok {| buf := rest; tmv := set_wday t wd; GMT := false; flags := 35;
          century := Y / 100; year := Y mod 100; day_offset := TM_SUNDAY;
          week_offset := Some wk |}.
Proof.
  set (s0 := {| buf := _ |}).
  loop_conv (_strptime d) "Y"%char " %U %w"%string.
  rewrite (conv_Y (_strptime d) s0 Y (" " ++ decimal 2 wk ++ " " ++ decimal 1 wd ++ rest)
             false eq_refl) by lia.
  set (s1 := flag _ _).
  change (format_loop (_strptime d) " %U %w" None s1)
    with (format_loop (_strptime d) "%U %w" None
            (with_buf s1 (skip_space (decimal 2 wk ++ " " ++ decimal 1 wd ++ rest)))).
  rewrite skip_space_decimal by (cbn; lia).
  loop_conv (_strptime d) "U"%char " %w"%string.
  rewrite (conv_U (_strptime d)
             (with_buf s1 (decimal 2 wk ++ " " ++ decimal 1 wd ++ rest)) wk
             (" " ++ decimal 1 wd ++ rest) false eq_refl) by lia.
  destruct (Z.ltb_spec 53 wk); [lia|].
  set (s2 := with_week _ _ _).
  change (format_loop (_strptime d) " %w" None s2)
    with (format_loop (_strptime d) "%w" None
            (with_buf s2 (skip_space (decimal 1 wd ++ rest)))).
  rewrite skip_space_decimal by (cbn; lia).
  loop_conv (_strptime d) "w"%char ""%string.
  rewrite (conv_w (_strptime d) (with_buf s2 (decimal 1 wd ++ rest)) wd rest
             false eq_refl) by lia.
  destruct (Z.ltb_spec 6 wd); [lia|].
  reflexivity.
Qed.

End Weeks.

(** X23: a date by week and day of the week.  With "%Y %U %w" on a year
    from 1 on, a week number up to 53 and a day of the week from 0 to 6:
    week 0 of a year that starts on a Sunday is refused, and so is a day
    of week 0 that lies before 1 January; a day that lies beyond the end
    of the year sends the search for the month outside
    [start_of_month]; in every other case the call stores the one date of
    that year that falls on the given day of the week in the given week
    counted from the first Sunday, the way strftime counts them, with
    month and day of the month to match. *)
Theorem X23_week_of_year {L : Libc} (d : nat) (Y wk wd : Z) (rest : string) (t : tm) :
  1 <= Y <= 9999 -> 0 <= wk <= 53 -> 0 <= wd <= 6 ->
  let fwo := first_wday_of Y in
  let yd := (7 - fwo) mod 7 + (wk - 1) * 7 + wd in
  let r := strptime_bsd (S d)
             (decimal 4 Y ++ " " ++ decimal 2 wk ++ " " ++ decimal 1 wd ++ rest)
             "%Y %U %w" t in
  (wk = 0 /\ fwo = TM_SUNDAY -> r = Null)
  /\ (yd < 0 -> r = Null)
  /\ (~ (wk = 0 /\ fwo = TM_SUNDAY) -> days_in_year Y <= yd -> r = Undefined)
  /\ (~ (wk = 0 /\ fwo = TM_SUNDAY) -> 0 <= yd < days_in_year Y ->
      exists M D,
        1 <= M <= 12 /\ 1 <= D <= days_in_month (isleap Y) (M - 1)
        /\ yd = month_start (isleap Y) (M - 1) + (D - 1)
        /\ r = Ok (rest, dated t Y M D yd)
        /\ tm_wday (dated t Y M D yd) = wd
        /\ (yd + 7 - wd) / 7 = wk).
Proof.
  intros HY Hwk Hwd fwo yd r.
  pose proof (first_wday_range Y ltac:(lia)) as Hf. fold fwo in Hf.
  pose proof (Z.div_pos Y 100 ltac:(lia) ltac:(lia)) as Hc.
  pose proof (Z.mod_pos_bound Y 100 ltac:(lia)) as Hy.
  pose proof (Z.div_mod Y 100 ltac:(lia)) as HYdm.
  assert (Hr : r = match
                     match settle_yday
                             {| buf := rest;
                                tmv := set_year (set_wday t wd) (Y - TM_YEAR_BASE);
                                GMT := false; flags := 35; century := Y / 100;
                                year := Y mod 100; day_offset := TM_SUNDAY;
                                week_offset := Some wk |} with
                     | Ok s1 =>
                         match settle_rest s1 with
                         | Ok s2 => Ok (buf s2, tmv s2, GMT s2)
                         | Null => Null
                         | Undefined => Undefined
                         end
                     | Null => Null
                     | Undefined => Undefined
                     end
                   with
                   | Ok (ret, t', true) => Ok (ret, localtime_r (timegm t') t')
                   | Ok (ret, t', false) => Ok (ret, t')
                   | Null => Null
                   | Undefined => Undefined
                   end).
  { subst r. unfold strptime_bsd, _strptime. fold (@_strptime L).
    rewrite week_scan by lia.
    unfold settle_year. settle.
    destruct (Z.eqb_spec (Y / 100) (-1)); [lia|].
    destruct (Z.eqb_spec (Y mod 100) (-1)); [lia|]. cbn [negb orb].
    replace (Y mod 100 + (Y / 100 * 100 - TM_YEAR_BASE)) with (Y - TM_YEAR_BASE)
      by (unfold TM_YEAR_BASE; lia).
    reflexivity. }
  assert (Hyd : Z.rem (7 - fwo + TM_SUNDAY) 7 + (wk - 1) * 7
                + Z.rem (wd - TM_SUNDAY + 7) 7 = yd).
  { subst yd. unfold TM_SUNDAY. rewrite !Z.rem_mod_nonneg by lia.
    replace (7 - fwo + 0) with (7 - fwo) by lia.
    replace ((wd - 0 + 7) mod 7) with wd by (Z.div_mod_to_equations; lia).
    reflexivity. }
  assert (Hs : settle_yday
                 {| buf := rest; tmv := set_year (set_wday t wd) (Y - TM_YEAR_BASE);
                    GMT := false; flags := 35; century := Y / 100;
                    year := Y mod 100; day_offset := TM_SUNDAY;
                    week_offset := Some wk |}
               = if (wk =? 0) && (fwo =? TM_SUNDAY) then Null
                 else if yd <? 0 then Null
                 else Ok {| buf := rest;
                            tmv := set_yday (set_year (set_wday t wd) (Y - TM_YEAR_BASE)) yd;
                            GMT := false; flags := 43; century := Y / 100;
                            year := Y mod 100; day_offset := TM_SUNDAY;
                            week_offset := Some wk |}).
  { unfold settle_yday. settle.
    replace (Y - TM_YEAR_BASE + TM_YEAR_BASE) with Y by (unfold TM_YEAR_BASE; lia).
    fold fwo. rewrite Hyd.
    destruct ((wk =? 0) && (fwo =? TM_SUNDAY)); [reflexivity|].
    destruct (yd <? 0); reflexivity. }
  rewrite Hs in Hr. clear Hs Hyd.
  split; [|split; [|split]].
  - intros [-> E]. rewrite Hr, E. reflexivity.
  - intros Hneg. rewrite Hr.
    destruct ((wk =? 0) && (fwo =? TM_SUNDAY)); [reflexivity|].
    destruct (Z.ltb_spec yd 0); [reflexivity|lia].
  - intros Hnw Hbig. rewrite Hr.
    destruct ((wk =? 0) && (fwo =? TM_SUNDAY)) eqn:E.
    { apply andb_true_iff in E as [E1 E2]. apply Z.eqb_eq in E1, E2. tauto. }
    rewrite days_in_year_eq in Hbig.
    destruct (Z.ltb_spec yd 0); [destruct (isleap Y); lia|].
    unfold settle_rest. settle.
    replace (Y - TM_YEAR_BASE + TM_YEAR_BASE) with Y by (unfold TM_YEAR_BASE; lia).
    rewrite month_of_out; [reflexivity|].
    destruct (month_bounds (isleap Y) 0 ltac:(lia)) as (_ & _ & _ & _ & E12).
    rewrite E12. exact Hbig.
  - intros Hnw Hin. rewrite days_in_year_eq in Hin.
    destruct (month_bounds (isleap Y) 0 ltac:(lia)) as (_ & _ & _ & _ & E12).
    destruct (month_of_day (isleap Y) yd ltac:(rewrite E12; exact Hin))
      as (m & Hm & Hlo).
    exists (m + 1), (yd - month_start (isleap Y) m + 1).
    replace (m + 1 - 1) with m by lia.
    assert (Hw : (TM_MONDAY + days_before (Z.to_nat (Y - 1)) + yd) mod 7 = wd).
    { rewrite <- wday_counts by lia. fold fwo.
      rewrite Z.rem_mod_nonneg by lia. subst yd.
      Z.div_mod_to_equations. lia. }
    split; [lia|]. split; [lia|]. split; [lia|]. split; [|split].
    + rewrite Hr.
      destruct ((wk =? 0) && (fwo =? TM_SUNDAY)) eqn:E.
      { apply andb_true_iff in E as [E1 E2]. apply Z.eqb_eq in E1, E2. tauto. }
      destruct (Z.ltb_spec yd 0); [lia|].
      unfold settle_rest. settle.
      replace (Y - TM_YEAR_BASE + TM_YEAR_BASE) with Y by (unfold TM_YEAR_BASE; lia).
      replace yd with (month_start (isleap Y) m + (yd - month_start (isleap Y) m))
        at 1 by lia.
      rewrite month_of_in by lia.
      destruct (Z.ltb_spec 12 (m + 1)); [lia|].
      settle.
      replace (Y - TM_YEAR_BASE + TM_YEAR_BASE) with Y by (unfold TM_YEAR_BASE; lia).
      replace (m + 1 - 1) with m by lia.
      rewrite (month_start_some (isleap Y) m) by lia.
      settle.
      unfold dated, set_wday, set_mday, set_mon, set_year, set_yday. proj.
      rewrite Hw. replace (m + 1 - 1) with m by lia. reflexivity.
    + cbn [dated tm_wday]. exact Hw.
    + subst yd. Z.div_mod_to_equations. lia.
Qed.

(** ** Conversions that stand for a format *)

Lemma digits_nonneg len : forall i b, 0 <= i -> 0 <= fst (digits len i b).
Proof.
  induction len as [|l IH]; intros i b Hi; cbn [digits]; [exact Hi|].
  destruct b as [|c rest]; [exact Hi|].
  destruct (negb (code c =? 0) && isdigit c) eqn:E; [|exact Hi].
  apply IH. apply andb_true_iff in E as [_ E]. unfold isdigit in E.
  apply andb_true_iff in E as [E _]. apply Z.leb_le in E. lia.
Qed.

Lemma number_inv len s k s' :
  number len s k = Ok s' ->
  exists i b, 0 <= i /\ k i (with_buf s b) = Ok s'.
Proof.
  unfold number. destruct (isdigit (peek (buf s))); [|discriminate].
  destruct (digits len 0 (buf s)) as [i b] eqn:E. intros H.
  exists i, b. split; [|exact H].
  pose proof (digits_nonneg len 0 (buf s) ltac:(lia)) as Hn. now rewrite E in Hn.
Qed.

Section Expansions.
Context {L : Libc}.
Variable d : nat.

(** The scan of a format that holds no nested conversion does not depend on
    the nested calls. *)
Lemma plain_scan_T n1 n2 s :
  format_loop n1 "%H:%M:%S" None s = format_loop n2 "%H:%M:%S" None s.
Proof. reflexivity. Qed.

Lemma plain_scan_R n1 n2 s :
  format_loop n1 "%H:%M" None s = format_loop n2 "%H:%M" None s.
Proof. reflexivity. Qed.

Lemma plain_scan_F n1 n2 s :
  format_loop n1 "%Y-%m-%d" None s = format_loop n2 "%Y-%m-%d" None s.
Proof. reflexivity. Qed.

Lemma date_scan_inv n s0 s3 :
  format_loop n "%Y-%m-%d" None s0 = Ok s3 ->
  exists i im id b3,
    0 <= i /\ 1 <= im <= 12 /\ 1 <= id <= 31
    /\ s3 = {| buf := b3; tmv := set_mday (set_mon (tmv s0) (im - 1)) id;
               GMT := GMT s0;
               flags := Z.lor (Z.lor (Z.lor (flags s0) FLAG_YEAR) FLAG_MONTH) FLAG_MDAY;
               century := Z.quot i 100; year := Z.rem i 100;
               day_offset := day_offset s0; week_offset := week_offset s0 |}.
Proof.
  loop_conv n "Y"%char "-%m-%d"%string.
  destruct (conversion n "Y" false s0) as [s1| |] eqn:EY; try discriminate.
  change (format_loop n "-%m-%d" None s1)
    with (match buf s1 with
          | String c' b' =>
              if ascii_eqb "-" c' then format_loop n "%m-%d" None (with_buf s1 b')
              else Null
          | EmptyString => Null
          end).
  destruct (buf s1) as [|c1 b1] eqn:Eb1; [discriminate|].
  destruct (ascii_eqb "-" c1) eqn:Ec1; [|discriminate].
  loop_conv n "m"%char "-%d"%string.
  destruct (conversion n "m" false (with_buf s1 b1)) as [s2| |] eqn:Em; try discriminate.
  change (format_loop n "-%d" None s2)
    with (match buf s2 with
          | String c' b' =>
              if ascii_eqb "-" c' then format_loop n "%d" None (with_buf s2 b')
              else Null
          | EmptyString => Null
          end).
  destruct (buf s2) as [|c2 b2] eqn:Eb2; [discriminate|].
  destruct (ascii_eqb "-" c2) eqn:Ec2; [|discriminate].
  loop_conv n "d"%char ""%string.
  destruct (conversion n "d" false (with_buf s2 b2)) as [s3'| |] eqn:Ed; try discriminate.
  cbn [format_loop]. intros H. inversion H; subst s3'; clear H.
  (* the year *)
  unfold conversion in EY. cbv beta iota zeta in EY.
  destruct (at_end (buf s0) || isspace (peek (buf s0))) eqn:Eskip.
  { exfalso. inversion EY; subst s1. rewrite Eb1 in Eskip.
    unfold ascii_eqb in Ec1. apply Z.eqb_eq in Ec1.
    unfold at_end, isspace in Eskip. cbn [peek] in Eskip. rewrite <- Ec1 in Eskip.
    discriminate. }
  apply number_inv in EY as (i & bY & Hi & EY). inversion EY; subst s1; clear EY.
  (* the month *)
  unfold conversion in Em. cbv beta iota zeta in Em.
  apply number_inv in Em as (im & bm & _ & Em).
  destruct ((im <? 1) || (12 <? im)) eqn:Erm; [discriminate|].
  apply orb_false_iff in Erm as [Em1 Em2]. apply Z.ltb_ge in Em1, Em2.
  inversion Em; subst s2; clear Em.
  (* the day *)
  unfold conversion in Ed. cbv beta iota zeta in Ed.
  apply number_inv in Ed as (id & bd & Hid & Ed).
  destruct ((id =? 0) || (31 <? id)) eqn:Erd; [discriminate|].
  apply orb_false_iff in Erd as [Ed1 Ed2]. apply Z.eqb_neq in Ed1. apply Z.ltb_ge in Ed2.
  inversion Ed; subst s3; clear Ed.
  exists i, im, id, bd. repeat split; try lia.
Qed.

End Expansions.


Lemma strptime_unfold {L : Libc} d b fmt t g :
  _strptime (S d) b fmt t g
  = match format_loop (_strptime d) fmt None
            {| buf := b; tmv := t; GMT := g; flags := FLAG_NONE; century := -1;
               year := -1; day_offset := -1; week_offset := None |} with
    | Ok s =>
        match settle_yday (settle_year s) with
        | Ok s1 =>
            match settle_rest s1 with
            | Ok s2 => Ok (buf s2, tmv s2, GMT s2)
            | Null => Null
            | Undefined => Undefined
            end
        | Null => Null
        | Undefined => Undefined
        end
    | Null => Null
    | Undefined => Undefined
    end.
Proof. reflexivity. Qed.

Lemma loop_sub {L : Libc} n c f m s :
  conversion n c false s = sub n f m s ->
  ascii_eqb c "E" = false -> ascii_eqb c "O" = false ->
  format_loop n (String "%" (String c "")) None s
  = match sub n f m s with
    | Ok s' => Ok s'
    | Null => Null
    | Undefined => Undefined
    end.
Proof.
  intros Hc HE HO. cbn [format_loop].
  change (code "%" =? 0) with false. change (ascii_eqb "%" "%") with true.
  cbv iota. rewrite HE, HO, Hc. unfold sub.
  destruct (n (buf s) f (tmv s) (GMT s)) as [[[b' t'] g']| |]; reflexivity.
Qed.

Lemma expansion_T {L : Libc} d b t g :
  _strptime (S (S d)) b "%T" t g = _strptime (S d) b "%H:%M:%S" t g.
Proof.
  rewrite (strptime_unfold (S d) b "%T").
  set (s0 := {| buf := _ |}).
  loop_conv (_strptime (S d)) "T"%char ""%string.
  change (conversion (_strptime (S d)) "T" false s0)
    with (match _strptime (S d) b "%H:%M:%S" t g with
          | Ok (b', t', g') => Ok (flag (with_GMT (with_tm (with_buf s0 b') t') g') 0)
          | Null => Null
          | Undefined => Undefined
          end).
  destruct (_strptime (S d) b "%H:%M:%S" t g) as [[[b' t'] g']| |]; reflexivity.
Qed.

Lemma expansion_R {L : Libc} d b t g :
  _strptime (S (S d)) b "%R" t g = _strptime (S d) b "%H:%M" t g.
Proof.
  rewrite (strptime_unfold (S d) b "%R").
  set (s0 := {| buf := _ |}).
  loop_conv (_strptime (S d)) "R"%char ""%string.
  change (conversion (_strptime (S d)) "R" false s0)
    with (match _strptime (S d) b "%H:%M" t g with
          | Ok (b', t', g') => Ok (flag (with_GMT (with_tm (with_buf s0 b') t') g') 0)
          | Null => Null
          | Undefined => Undefined
          end).
  destruct (_strptime (S d) b "%H:%M" t g) as [[[b' t'] g']| |]; reflexivity.
Qed.

Lemma date_finish b3 t g i im id :
  0 <= i -> 1 <= im <= 12 ->
  let y := Z.rem i 100 + (Z.quot i 100 * 100 - TM_YEAR_BASE) in
  let yd := month_start (isleap (y + TM_YEAR_BASE)) (im - 1) + (id - 1) in
  match settle_yday
          (settle_year
             {| buf := b3; tmv := set_mday (set_mon t (im - 1)) id; GMT := g;
                flags := Z.lor (Z.lor (Z.lor FLAG_NONE FLAG_YEAR) FLAG_MONTH) FLAG_MDAY;
                century := Z.quot i 100; year := Z.rem i 100;
                day_offset := -1; week_offset := None |}) with
  | Ok s1 =>
      match settle_rest s1 with
      | Ok s2 => Ok (buf s2, tmv s2, GMT s2)
      | Null => Null
      | Undefined => Undefined
      end
  | Null => Null
  | Undefined => Undefined
  end
  = Ok (b3,
        set_wday (set_yday (set_year (set_mday (set_mon t (im - 1)) id) y) yd)
          (Z.rem (first_wday_of (y + TM_YEAR_BASE) + yd) 7),
        g).
Proof.
  intros Hi Him y yd.
  pose proof (Z.quot_pos i 100 Hi ltac:(lia)) as Hq.
  pose proof (Z.rem_nonneg i 100 ltac:(lia) Hi) as Hr.
  unfold settle_year. settle.
  destruct (Z.eqb_spec (Z.quot i 100) (-1)); [lia|].
  destruct (Z.eqb_spec (Z.rem i 100) (-1)); [lia|]. cbn [negb orb].
  fold y.
  unfold settle_yday. settle.
  rewrite (month_start_some (isleap (y + TM_YEAR_BASE)) (im - 1)) by lia.
  unfold settle_rest. settle.
  reflexivity.
Qed.

Lemma settle_year_unset s :
  century s = -1 -> year s = -1 -> settle_year s = s.
Proof. intros Hc Hy. unfold settle_year. now rewrite Hc, Hy. Qed.

Lemma settle_yday_date b3 t' g c y d :
  start_of_month (isleap (tm_year t' + TM_YEAR_BASE)) (tm_mon t') = Some d ->
  settle_yday
    {| buf := b3; tmv := t'; GMT := g; flags := 23;
       century := c; year := y; day_offset := -1; week_offset := None |}
  = Ok {| buf := b3; tmv := set_yday t' (d + (tm_mday t' - 1)); GMT := g;
          flags := 31; century := c; year := y; day_offset := -1;
          week_offset := None |}.
Proof.
  intros H. unfold settle_yday. settle. rewrite H. reflexivity.
Qed.

Lemma settle_rest_date b3 t' g c y :
  settle_rest
    {| buf := b3; tmv := t'; GMT := g; flags := 31;
       century := c; year := y; day_offset := -1; week_offset := None |}
  = Ok {| buf := b3;
          tmv := set_wday t' (Z.rem (first_wday_of (tm_year t' + TM_YEAR_BASE)
                                     + tm_yday t') 7);
          GMT := g; flags := 63;
          century := c; year := y; day_offset := -1; week_offset := None |}.
Proof.
  unfold settle_rest. settle. reflexivity.
Qed.

Lemma expansion_F {L : Libc} d b t g :
  _strptime (S (S d)) b "%F" t g = _strptime (S d) b "%Y-%m-%d" t g.
Proof.
  rewrite (strptime_unfold (S d) b "%F").
  rewrite (loop_sub (_strptime (S d)) "F" "%Y-%m-%d"
             (Z.lor (Z.lor FLAG_MONTH FLAG_MDAY) FLAG_YEAR) _ eq_refl eq_refl eq_refl).
  unfold sub. cbn [buf tmv GMT].
  rewrite (strptime_unfold d b "%Y-%m-%d").
  set (s0 := {| buf := _ |}).
  destruct (format_loop (_strptime d) "%Y-%m-%d" None s0) as [s3| |] eqn:Escan;
    try reflexivity.
  destruct (date_scan_inv _ _ _ Escan) as (i & im & id & b3 & Hi & Him & Hid & ->).
  clear Escan. subst s0. cbn [tmv GMT flags day_offset week_offset].
  rewrite (date_finish b3 t g i im id Hi Him).
  set (y := Z.rem i 100 + (Z.quot i 100 * 100 - TM_YEAR_BASE)).
  set (yd := month_start (isleap (y + TM_YEAR_BASE)) (im - 1) + (id - 1)).
  set (wd := Z.rem (first_wday_of (y + TM_YEAR_BASE) + yd) 7).
  set (T := set_wday _ wd).
  cbv iota beta.
  change (flag _ (Z.lor (Z.lor FLAG_MONTH FLAG_MDAY) FLAG_YEAR))
    with {| buf := b3; tmv := T; GMT := g; flags := 23; century := -1; year := -1;
            day_offset := -1; week_offset := None |}.
  rewrite settle_year_unset by reflexivity.
  rewrite (settle_yday_date b3 T g (-1) (-1)
             (month_start (isleap (y + TM_YEAR_BASE)) (im - 1)))
    by (apply month_start_some; lia).
  rewrite settle_rest_date.
  cbn [buf tmv GMT]. subst T. reflexivity.
Qed.

(** X24: conversions that stand for a format.  On every buffer, whether
    the call succeeds or not, "%T" is "%H:%M:%S", "%R" is "%H:%M" and
    "%F" is "%Y-%m-%d": the nested call and the flags set after it change
    nothing in what is returned and stored, since completing a date that
    is already complete leaves it as it is. *)
Theorem X24_expansions {L : Libc} (d : nat) (b : string) (t : tm) :
  strptime_bsd (S (S d)) b "%T" t = strptime_bsd (S d) b "%H:%M:%S" t
  /\ strptime_bsd (S (S d)) b "%R" t = strptime_bsd (S d) b "%H:%M" t
  /\ strptime_bsd (S (S d)) b "%F" t = strptime_bsd (S d) b "%Y-%m-%d" t.
Proof.
  unfold strptime_bsd.
  rewrite expansion_T, expansion_R, expansion_F. auto.
Qed.

(** ** The theorems on sample inputs *)

(** X18 at 29 February 2024. *)
Lemma X18_date_witness :
  @strptime_bsd posix_libc 1 (decimal 4 2024 ++ "-" ++ decimal 2 2 ++ "-" ++ decimal 2 29)
    "%Y-%m-%d" tm0
  = Ok (EmptyString, dated tm0 2024 2 29 (month_start (isleap 2024) (2 - 1) + (29 - 1))).
Proof.
  apply (@X18_date posix_libc 0 2024 2 29 EmptyString tm0); lia.
Defined.

(** X19 at day 60 of 2024, which is 29 February. *)
Lemma X19_day_of_year_witness :
  @strptime_bsd posix_libc 1
    (decimal 4 2024 ++ " "
     ++ decimal 3 (month_start (isleap 2024) (2 - 1) + (29 - 1) + 1)) "%Y %j" tm0
  = Ok (EmptyString, dated tm0 2024 2 29 (month_start (isleap 2024) (2 - 1) + (29 - 1))).
Proof.
  apply (@X19_day_of_year posix_libc 0 2024 2 29 EmptyString tm0); try lia.
  vm_compute. split; discriminate.
Defined.

(** X20 at day 366 of 2023. *)
Lemma X20_day_beyond_year_witness :
  @strptime_bsd posix_libc 1 (decimal 4 2023 ++ " " ++ decimal 3 366) "%Y %j" tm0
  = Undefined.
Proof.
  apply (@X20_day_beyond_year posix_libc 0 2023 366 EmptyString tm0); try lia.
  vm_compute. split; [reflexivity|discriminate].
Defined.

(** X21 at 68 and at 2024. *)
Lemma X21_years_witness :
  @strptime_bsd posix_libc 1 (decimal 2 68) "%y" tm0
  = Ok (EmptyString, set_year tm0 (if 68 <? 69 then 68 + 100 else 68))
  /\ @strptime_bsd posix_libc 1 (decimal 2 20 ++ decimal 2 68) "%C%y" tm0
     = Ok (EmptyString, set_year tm0 (20 * 100 + 68 - TM_YEAR_BASE))
  /\ @strptime_bsd posix_libc 1 (decimal 4 (20 * 100 + 68)) "%Y" tm0
     = Ok (EmptyString, set_year tm0 (20 * 100 + 68 - TM_YEAR_BASE))
  /\ @strptime_bsd posix_libc 1 (decimal 2 20) "%C" tm0
     = Ok (EmptyString, set_year tm0 (20 * 100 - TM_YEAR_BASE)).
Proof.
  apply (@X21_years posix_libc 0 20 68 EmptyString tm0); lia.
Defined.

(** X22 at 23:59:60. *)
Lemma X22_time_of_day_witness :
  @strptime_bsd posix_libc 1 (decimal 2 23 ++ ":" ++ decimal 2 59 ++ ":" ++ decimal 2 60)
    "%H:%M:%S" tm0
  = if (23 <=? 23) && (59 <=? 59) && (60 <=? 60)
    then Ok (EmptyString, set_sec (set_min (set_hour tm0 23) 59) 60)
    else Null.
Proof.
  apply (@X22_time_of_day posix_libc 0 23 59 60 EmptyString tm0); lia.
Defined.

(** X23 at Monday of week 9 of 2024, which is 4 March. *)
Lemma X23_week_of_year_witness :
  exists M D,
    1 <= M <= 12 /\ 1 <= D <= days_in_month (isleap 2024) (M - 1)
    /\ (7 - first_wday_of 2024) mod 7 + (9 - 1) * 7 + 1
       = month_start (isleap 2024) (M - 1) + (D - 1)
    /\ @strptime_bsd posix_libc 1
         (decimal 4 2024 ++ " " ++ decimal 2 9 ++ " " ++ decimal 1 1) "%Y %U %w" tm0
       = Ok (EmptyString,
             dated tm0 2024 M D ((7 - first_wday_of 2024) mod 7 + (9 - 1) * 7 + 1))
    /\ tm_wday (dated tm0 2024 M D ((7 - first_wday_of 2024) mod 7 + (9 - 1) * 7 + 1))
       = 1
    /\ ((7 - first_wday_of 2024) mod 7 + (9 - 1) * 7 + 1 + 7 - 1) / 7 = 9.
Proof.
  apply (@X23_week_of_year posix_libc 0 2024 9 1 EmptyString tm0); try lia.
  vm_compute. split; [discriminate|reflexivity].
Defined.

(** ** A date without its year *)



(** ** The modifiers E and O *)

Lemma conversion_O_irrelevant {L : Libc} n c s :
  ascii_eqb c "B" = false -> ascii_eqb c "b" = false -> ascii_eqb c "h" = false ->
  conversion n c true s = conversion n c false s.
Proof.
  intros HB Hb Hh.
  destruct c as [[] [] [] [] [] [] [] []]; try reflexivity; discriminate.
Qed.

Lemma conversion_O_abbreviated {L : Libc} n c s :
  ascii_eqb c "b" = true \/ ascii_eqb c "h" = true ->
  conversion n c true s = Null.
Proof.
  intros H.
  destruct c as [[] [] [] [] [] [] [] []]; try reflexivity;
    destruct H as [H|H]; discriminate.
Qed.

Lemma modifier_E {L : Libc} n c fmt s :
  ascii_eqb c "E" = false -> ascii_eqb c "O" = false ->
  format_loop n (String "%" (String "E" (String c fmt))) None s
  = format_loop n (String "%" (String c fmt)) None s.
Proof.
  intros HE HO. cbn [format_loop].
  change (code "%" =? 0) with false. change (ascii_eqb "%" "%") with true.
  change (ascii_eqb "E" "E") with true. cbv iota. cbn [orb].
  now rewrite HE, HO.
Qed.

Lemma modifier_O {L : Libc} n c fmt s :
  ascii_eqb c "E" = false -> ascii_eqb c "O" = false ->
  format_loop n (String "%" (String "O" (String c fmt))) None s
  = match conversion n c true s with
    | Ok s' => format_loop n fmt None s'
    | Null => Null
    | Undefined => Undefined
    end.
Proof.
  intros HE HO. cbn [format_loop].
  change (code "%" =? 0) with false. change (ascii_eqb "%" "%") with true.
  change (ascii_eqb "O" "E") with false. change (ascii_eqb "O" "O") with true.
  cbv iota. cbn [orb].
  now rewrite HE, HO.
Qed.

Lemma plain_conversion {L : Libc} n c fmt s :
  ascii_eqb c "E" = false -> ascii_eqb c "O" = false ->
  format_loop n (String "%" (String c fmt)) None s
  = match conversion n c false s with
    | Ok s' => format_loop n fmt None s'
    | Null => Null
    | Undefined => Undefined
    end.
Proof.
  intros HE HO. cbn [format_loop].
  change (code "%" =? 0) with false. change (ascii_eqb "%" "%") with true.
  cbv iota. now rewrite HE, HO.
Qed.

(** X26: the modifiers E and O.  Before any conversion character the
    modifier E changes nothing, on any buffer and with any rest of the
    format.  The modifier O changes nothing either, except before the
    month names: "%Ob" and "%Oh" return NULL on every buffer, since with
    O the full names are compared for [B] only and the abbreviated names
    not at all. *)
Theorem X26_modifiers {L : Libc} (d : nat) (c : ascii) (fmt b : string) (t : tm) :
  ascii_eqb c "E" = false -> ascii_eqb c "O" = false ->
  strptime_bsd (S d) b (String "%" (String "E" (String c fmt))) t
  = strptime_bsd (S d) b (String "%" (String c fmt)) t
  /\ (ascii_eqb c "B" = false -> ascii_eqb c "b" = false -> ascii_eqb c "h" = false ->
      strptime_bsd (S d) b (String "%" (String "O" (String c fmt))) t
      = strptime_bsd (S d) b (String "%" (String c fmt)) t)
  /\ (ascii_eqb c "b" = true \/ ascii_eqb c "h" = true ->
      strptime_bsd (S d) b (String "%" (String "O" (String c fmt))) t = Null).
Proof.
  intros HE HO. unfold strptime_bsd. rewrite !strptime_unfold.
  split; [|split].
  - now rewrite modifier_E.
  - intros HB Hb Hh.
    rewrite modifier_O, plain_conversion, conversion_O_irrelevant by assumption.
    reflexivity.
  - intros H. rewrite modifier_O by assumption.
    now rewrite conversion_O_abbreviated.
Qed.


(** X26 at the conversion [Y] on "2024". *)
Lemma X26_modifiers_witness :
  @strptime_bsd posix_libc 1 "2024" "%EY" tm0 = @strptime_bsd posix_libc 1 "2024" "%Y" tm0
  /\ @strptime_bsd posix_libc 1 "2024" "%OY" tm0
     = @strptime_bsd posix_libc 1 "2024" "%Y" tm0.
Proof.
  destruct (@X26_modifiers posix_libc 0 "Y" EmptyString "2024" tm0 eq_refl eq_refl)
    as (H1 & H2 & _).
  split; [exact H1|apply H2; reflexivity].
Defined.
